(** * Smart File Organizer: a shallow embedding of the classification and
      placement engine (rules.py, utils.py, organizer.py) and the properties
      of its design description.

    Conventions of the embedding.
    - A [pathlib] path is its parsed form: an anchor and the list of its
      components, as [PurePosixPath] keeps them (Python 3.12 semantics).
    - A string is the sequence of the bytes of its UTF-8 text.
    - The disk is a finite map from paths to nodes; paths are looked up as
      they are written (no symbolic links, no [..] components, one working
      directory). The working directory and the root are directories that
      are always there, whether or not the map has an entry for them.
    - Code that touches the disk or the log runs in a state-and-exception
      monad over a [world]; a raised exception keeps the world reached so
      far, as in Python.
    - A Python float is the rational number it stands for; where the code
      makes one from an integer, the rounding to 53 bits is written out.
    - Library calls whose result depends on the machine (glob matching, MIME
      tables, time zone, SHA-256, JSON text, whether a hard link can be
      made, [Path.resolve], the lower case of text outside ASCII) are the
      fields of the class [Platform]. *)

From Stdlib Require Import Ascii String QArith DecimalString DecimalNat.
From stdpp Require Import gmap strings list fin_maps sets.

Local Open Scope string_scope.
Local Open Scope list_scope.

(** ** Strings *)

Module Str.

Definition is_slash (c : ascii) : bool := Ascii.eqb c "/"%char.

(** [s.split("/")]: the segments between slashes; never the empty list. *)
Fixpoint split_slash (s : string) : list string :=
  match s with
  | EmptyString => [""]
  | String c s' =>
      if is_slash c then "" :: split_slash s'
      else match split_slash s' with
           | [] => [String c ""]
           | seg :: rest => String c seg :: rest
           end
  end.

(** ["/".join(l)] *)
Fixpoint join_slash (l : list string) : string :=
  match l with
  | [] => ""
  | [x] => x
  | x :: rest => x +:+ "/" +:+ join_slash rest
  end.

Definition lower_char (c : ascii) : ascii :=
  let n := nat_of_ascii c in
  if (65 <=? n)%nat && (n <=? 90)%nat then ascii_of_nat (n + 32) else c.

Definition upper_char (c : ascii) : ascii :=
  let n := nat_of_ascii c in
  if (97 <=? n)%nat && (n <=? 122)%nat then ascii_of_nat (n - 32) else c.

Fixpoint map_chars (f : ascii -> ascii) (s : string) : string :=
  match s with
  | EmptyString => EmptyString
  | String c s' => String (f c) (map_chars f s')
  end.

(** The bytes below 128: the text is ASCII. *)
Definition is_ascii_char (c : ascii) : bool := (nat_of_ascii c <? 128)%nat.

Fixpoint is_ascii (s : string) : bool :=
  match s with
  | EmptyString => true
  | String c s' => is_ascii_char c && is_ascii s'
  end.

(** [s.lower()] for an ASCII text [s]; [str_lower] below is [s.lower()] for
    every text. *)
Definition ascii_lower : string -> string := map_chars lower_char.

(** [s.upper()] for an ASCII text [s]. The code calls it on the names of
    the actions only, which are ASCII: ["plan-move"], ["copy"] and the
    like. *)
Definition upper : string -> string := map_chars upper_char.

(** [s.rfind(".")], [None] for Python's -1. *)
Fixpoint rfind_dot (s : string) : option nat :=
  match s with
  | EmptyString => None
  | String c s' =>
      match rfind_dot s' with
      | Some i => Some (S i)
      | None => if Ascii.eqb c "."%char then Some 0%nat else None
      end
  end.

(** [s.startswith(p)] *)
Definition startswith (s p : string) : bool := String.prefix p s.

(** [str(n)] for a natural number: decimal, no leading zero. *)
Definition dec (n : nat) : string := NilEmpty.string_of_uint (Nat.to_uint n).

Fixpoint zeros (k : nat) : string :=
  match k with
  | O => ""
  | S k' => String "0"%char (zeros k')
  end.

(** [f"{n:0wd}"]: decimal, padded with zeros on the left up to width [w]. *)
Definition zfill (w : nat) (n : nat) : string :=
  let d := dec n in zeros (w - String.length d) +:+ d.

(** Python truthiness of a string. *)
Definition truthy (s : string) : bool := negb (String.eqb s "").

End Str.

(** ** pathlib.PurePosixPath *)

Record Path := mkPath { anchor : string; parts : list string }.

Global Instance Path_eq_dec : EqDecision Path.
Proof. solve_decision. Defined.

Global Instance Path_countable : Countable Path.
Proof.
  apply (inj_countable' (fun p => (anchor p, parts p))
                        (fun t => mkPath t.1 t.2)).
  by intros [].
Defined.

Module PurePath.

(** [posixpath.splitroot]: one slash or three and more give the root ["/"],
    exactly two give ["//"]. *)
Definition root_of (s : string) : string :=
  match s with
  | String c1 (String c2 (String c3 _)) =>
      if Str.is_slash c1 then
        if Str.is_slash c2 then (if Str.is_slash c3 then "/" else "//")
        else "/"
      else ""
  | String c1 (String c2 EmptyString) =>
      if Str.is_slash c1 then (if Str.is_slash c2 then "//" else "/") else ""
  | String c1 EmptyString => if Str.is_slash c1 then "/" else ""
  | EmptyString => ""
  end.

Definition keep_part (x : string) : bool :=
  negb (String.eqb x "") && negb (String.eqb x ".").

(** The components of a raw path string: empty segments and ["."] go. *)
Definition parts_of (s : string) : list string :=
  List.filter keep_part (Str.split_slash s).

(** [Path(s)] *)
Definition parse (s : string) : Path := mkPath (root_of s) (parts_of s).

(** [p / s]: an absolute segment replaces what is on its left. *)
Definition div (p : Path) (s : string) : Path :=
  match s with
  | String c _ =>
      if Str.is_slash c then parse s
      else mkPath (anchor p) (parts p ++ parts_of s)
  | EmptyString => p
  end.

(** [p.joinpath(a, b, ...)]: the segments are joined from left to right. *)
Definition joinpath (p : Path) (segs : list string) : Path :=
  fold_left div segs p.

(** [str(p)] and [p.as_posix()] *)
Definition str (p : Path) : string :=
  match anchor p, parts p with
  | EmptyString, [] => "."
  | a, l => a +:+ Str.join_slash l
  end.

Definition as_posix := str.

(** [p.name] *)
Definition name (p : Path) : string := List.last (parts p) "".

(** [p.parent] *)
Definition parent (p : Path) : Path :=
  mkPath (anchor p) (removelast (parts p)).

(** [p.suffix]: from the last dot of the name, unless that dot is the first
    or the last character. *)
Definition suffix (p : Path) : string :=
  let n := name p in
  match Str.rfind_dot n with
  | Some i =>
      if (0 <? i)%nat && (i <? String.length n - 1)%nat
      then String.substring i (String.length n - i) n else ""
  | None => ""
  end.

(** [p.stem] *)
Definition stem (p : Path) : string :=
  let n := name p in
  match Str.rfind_dot n with
  | Some i =>
      if (0 <? i)%nat && (i <? String.length n - 1)%nat
      then String.substring 0 i n else n
  | None => n
  end.

(** [list_prefix pre l]: [l] starts with [pre]; on success the rest. *)
Fixpoint strip_prefix (pre l : list string) : option (list string) :=
  match pre, l with
  | [], _ => Some l
  | x :: pre', y :: l' => if String.eqb x y then strip_prefix pre' l' else None
  | _ :: _, [] => None
  end.

(** [child.relative_to(parent)]; [None] for the [ValueError]. *)
Definition relative_to (child parent_ : Path) : option Path :=
  if String.eqb (anchor child) (anchor parent_) then
    match strip_prefix (parts parent_) (parts child) with
    | Some rest => Some (mkPath "" rest)
    | None => None
    end
  else None.

End PurePath.

Notation "p // s" := (PurePath.div p s) (at level 40, left associativity).

(** ** utils.py: MoveResult *)

Record MoveResult := mkMoveResult { src : string; dst : string; action : string }.

Global Instance MoveResult_eq_dec : EqDecision MoveResult.
Proof. solve_decision. Defined.

(** ** Exceptions *)

(** The exceptions of the code and of the library calls it makes.
    [FileNotFoundError] is an [OSError] in Python. [OSError msg] also stands
    for the other subclasses of [OSError], told apart by the message of
    their error number: [FileExistsError] is [OSError "File exists"],
    [NotADirectoryError] is [OSError "Not a directory"], [IsADirectoryError]
    is [OSError "Is a directory"]. [Diverges] stands for a loop that would
    not end. *)
Inductive exn :=
| FileNotFoundError (msg : string)
| RuntimeError (msg : string)
| OSError (msg : string)
| ValueError (msg : string)
| OverflowError (msg : string)
| JSONDecodeError
| Diverges.

Inductive res (A : Type) :=
| Ok (a : A)
| Raise (e : exn).
Arguments Ok {A} a.
Arguments Raise {A} e.

(** ** The platform *)

(** [datetime.datetime]: the fields the date rule reads. *)
Record datetime := mkDate { year : nat; month : nat; day : nat }.

(** Why [datetime.fromtimestamp] gives no date for a time out of range: the
    three exceptions its documentation names. *)
Inductive time_error :=
| TimeOverflow
| TimeOS
| TimeValue.

Definition time_exn (e : time_error) : exn :=
  match e with
  | TimeOverflow => OverflowError "timestamp out of range for platform time_t"
  | TimeOS => OSError "Value too large for defined data type"
  | TimeValue => ValueError "year is out of range"
  end.

(** What the standard library computes from the machine it runs on. *)
Class Platform := {
  (** [Path.resolve()]; [None] when it raises (a symbolic-link loop). *)
  resolve : Path -> option Path;
  (** [PurePath.match(pattern)] for a pattern that is not empty *)
  path_match : Path -> string -> bool;
  (** first component of [mimetypes.guess_type(s)] *)
  guess_type : string -> option string;
  (** [datetime.datetime.fromtimestamp(ts)], in local time *)
  fromtimestamp : Q -> datetime + time_error;
  (** [s.lower()] for a text [s] that is not ASCII *)
  unicode_lower : string -> string;
  (** [hashlib.sha256(data).hexdigest()] *)
  sha256_hexdigest : string -> string;
  (** [json.dumps({"operations": [r.__dict__ ...]}, indent=2)] *)
  json_dumps : list MoveResult -> string;
  (** [json.loads(text).get("operations", [])] with the ["src"], ["dst"] and
      ["action"] of each record; [None] when the text is not such a document *)
  json_loads : string -> option (list MoveResult);
  (** whether [os.link(src, dst)] succeeds for an existing file [src] and a
      free name [dst] (it does not across devices) *)
  os_link_ok : Path -> Path -> bool;
  (** whether [os.replace(src, dst)] succeeds for an existing [src] and a
      free name [dst] in an existing directory (it does not across devices) *)
  os_replace_ok : Path -> Path -> bool;
  (** the modification time given to an entry made now, and the size
      [os.stat] reports for a new directory *)
  clock : Q;
  dir_size : N;
}.

(** [s.lower()]: letter by letter on ASCII text, the Unicode lower case of
    the platform otherwise. *)
Definition str_lower `{Platform} (s : string) : string :=
  if Str.is_ascii s then Str.ascii_lower s else unicode_lower s.

(** ** rules.py *)

Record DateRule := mkDateRule {
  enabled : bool;
  base_folder : string;
  group : string;  (* 'year' | 'month' | 'day' *)
}.

Module DuplicateRule.
Record t := mk {
  action : string;  (* 'separate' | 'skip' | 'hardlink' *)
  folder : string;
}.
End DuplicateRule.

(** An entry of [size_buckets] is a dict; both keys may be missing (or
    null), which is what [bucket.get(key, None)] tells apart. [max_mb] holds
    the float [float(max_mb)] that the loop compares with. *)
Record Bucket := mkBucket {
  max_mb : option Q;
  bucket_folder : option string;
}.

Record Rules := mkRules {
  unknown_folder : string;
  exclude_dirs : list string;
  exclude_hidden : bool;
  prefer_extension_over_glob : bool;
  by_extension : gmap string string;
  by_glob : list (string * string);
  by_mime : list (string * string);
  by_date : DateRule;
  size_buckets : list Bucket;
  duplicates : DuplicateRule.t;
}.

(** A pattern without drive, root or component, such as [""], ["."] and
    ["./"]: [PurePath.match] raises [ValueError("empty pattern")] for it. *)
Definition empty_pattern (pattern : string) : bool :=
  bool_decide (PurePath.parse pattern = mkPath "" []).

(** [for pattern, folder in self.by_glob.items(): if path.match(pattern): return folder] *)
Fixpoint first_glob `{Platform} (path : Path) (globs : list (string * string))
  : res (option string) :=
  match globs with
  | [] => Ok None
  | (pattern, folder) :: rest =>
      if empty_pattern pattern then Raise (ValueError "empty pattern")
      else if path_match path pattern then Ok (Some folder)
      else first_glob path rest
  end.

(** [for prefix, folder in self.by_mime.items(): if mime.startswith(prefix): return folder] *)
Fixpoint first_mime (mime : string) (mimes : list (string * string)) : option string :=
  match mimes with
  | [] => None
  | (prefix, folder) :: rest =>
      if Str.startswith mime prefix then Some folder else first_mime mime rest
  end.

(** [Rules.match_folder_for] *)
Definition match_folder_for `{Platform} (self : Rules) (path : Path) : res (option string) :=
  let ext := str_lower (PurePath.suffix path) in
  match by_extension self !! ext with
  | Some folder => Ok (Some folder)
  | None =>
      match first_glob path (by_glob self) with
      | Raise e => Raise e
      | Ok (Some folder) => Ok (Some folder)
      | Ok None =>
          match guess_type (PurePath.as_posix path) with
          | Some mime =>
              if Str.truthy mime then Ok (first_mime mime (by_mime self)) else Ok None
          | None => Ok None
          end
      end
  end.

(** The integer a float holds for [n]: [n] rounded to 53 significant bits,
    a tie going to the even neighbour. *)
Definition round53 (n : N) : N :=
  let e := (N.log2 n - 52)%N in
  if (e =? 0)%N then n
  else
    let q := N.shiftr n e in
    let up :=
      match (n - N.shiftl q e ?= N.shiftl 1 (e - 1))%N with
      | Lt => false
      | Gt => true
      | Eq => N.odd q
      end in
    N.shiftl (if up then q + 1 else q)%N e.

(** [size_bytes / (1024 * 1024)]: the quotient of two integers as the
    nearest float, [OverflowError] when that is beyond the largest one. *)
Definition megabytes (size_bytes : N) : res Q :=
  let n := round53 size_bytes in
  if (n <? 2 ^ 1044)%N then Ok (Z.of_N n # 1048576)
  else Raise (OverflowError "integer division result too large for a float").

(** The loop of [Rules.match_size_bucket]. *)
Fixpoint bucket_loop (mb : Q) (buckets : list Bucket) : option string :=
  match buckets with
  | [] => None
  | bucket :: rest =>
      match bucket_folder bucket with
      | None => bucket_loop mb rest
      | Some folder =>
          match max_mb bucket with
          | None => Some folder
          | Some m => if Qle_bool mb m then Some folder else bucket_loop mb rest
          end
      end
  end.

(** [Rules.match_size_bucket] *)
Definition match_size_bucket (self : Rules) (size_bytes : N) : res (option string) :=
  match size_buckets self with
  | [] => Ok None
  | _ =>
      match megabytes size_bytes with
      | Ok mb => Ok (bucket_loop mb (size_buckets self))
      | Raise e => Raise e
      end
  end.

(** [Rules.date_parts] *)
Definition date_parts `{Platform} (self : Rules) (ts : Q) : res (list string) :=
  match fromtimestamp ts with
  | inr e => Raise (time_exn e)
  | inl dt =>
      Ok (if String.eqb (group (by_date self)) "year" then [Str.zfill 4 (year dt)]
          else if String.eqb (group (by_date self)) "day" then
            [Str.zfill 4 (year dt); Str.zfill 2 (month dt); Str.zfill 2 (day dt)]
          else [Str.zfill 4 (year dt); Str.zfill 2 (month dt)])
  end.

(** ** The disk and the log *)

(** What [os.stat] reports and the code reads. *)
Record stat_result := mkStat { st_size : N; st_mtime : Q }.

Inductive node :=
| NFile (st : stat_result) (data : string)
| NDir (st : stat_result).

(** The state a run works on: the disk, and the lines given to [log_fn]. *)
Record world := mkWorld { disk : gmap Path node; out : list string }.

(** A computation returns or raises, and leaves a world either way. *)
Definition M (A : Type) : Type := world -> res A * world.

Global Instance M_ret : MRet M := fun A a w => (Ok a, w).
Global Instance M_bind : MBind M := fun A B k m w =>
  match m w with
  | (Ok a, w') => k a w'
  | (Raise e, w') => (Raise e, w')
  end.

Definition raise {A} (e : exn) : M A := fun w => (Raise e, w).

(** A call that returns or raises without touching the world. *)
Definition lift {A} (r : res A) : M A := fun w => (r, w).

(** [isinstance(e, OSError)] *)
Definition is_OSError (e : exn) : bool :=
  match e with
  | FileNotFoundError _ | OSError _ => true
  | _ => false
  end.

(** [try: m  except OSError: h] *)
Definition try_except_OSError {A} (m h : M A) : M A := fun w =>
  match m w with
  | (Raise e, w') => if is_OSError e then h w' else (Raise e, w')
  | r => r
  end.

Definition get_disk : M (gmap Path node) := fun w => (Ok (disk w), w).
Definition put_disk (d : gmap Path node) : M unit :=
  fun w => (Ok tt, mkWorld d (out w)).

(** [log_fn(line)] *)
Definition log_fn (line : string) : M unit :=
  fun w => (Ok tt, mkWorld (disk w) (out w ++ [line])).

Module Disk.

(** The working directory and the root: the paths without a component. *)
Definition implicit (p : Path) : bool :=
  match parts p with [] => true | _ => false end.

(** [p.exists()]: an entry of the map, or a directory that is always there. *)
Definition exists_ (d : gmap Path node) (p : Path) : bool :=
  match d !! p with Some _ => true | None => implicit p end.

(** [p.is_dir()] *)
Definition is_dir (d : gmap Path node) (p : Path) : bool :=
  match d !! p with
  | Some (NDir _) => true
  | Some (NFile _ _) => false
  | None => implicit p
  end.

Definition stat (d : gmap Path node) (p : Path) : option stat_result :=
  match d !! p with
  | Some (NFile st _) | Some (NDir st) => Some st
  | None => None
  end.

(** The directory a new entry [p] goes into is there; the working directory
    and the root are not entries of the map and are always there. *)
Definition parent_ready (d : gmap Path node) (p : Path) : bool :=
  match parts (PurePath.parent p) with
  | [] => true
  | _ => is_dir d (PurePath.parent p)
  end.

(** [p] and the directories above it, outermost first. *)
Definition chain (p : Path) : list Path :=
  (fun k => mkPath (anchor p) (take k (parts p))) <$> seq 1 (length (parts p)).

(** [mkdir -p] along a chain: a missing directory is made, a directory is
    kept, a file in the way stops it. *)
Fixpoint mkdirs (st : stat_result) (d : gmap Path node) (ps : list Path)
  : option (gmap Path node) :=
  match ps with
  | [] => Some d
  | p :: rest =>
      match d !! p with
      | None => mkdirs st (<[p := NDir st]> d) rest
      | Some (NDir _) => mkdirs st d rest
      | Some (NFile _ _) => None
      end
  end.

(** On the way down the directories [ps], outermost first, a regular file
    stands where a directory is needed, and no directory is missing above
    it: the system reports [ENOTDIR] there, not [ENOENT]. *)
Fixpoint blocked (d : gmap Path node) (ps : list Path) : bool :=
  match ps with
  | [] => false
  | p :: rest =>
      match d !! p with
      | Some (NDir _) => blocked d rest
      | Some (NFile _ _) => true
      | None => false
      end
  end.

(** [k] moved along when the tree at [from] is renamed to [to]. *)
Definition reroot (from to k : Path) : Path :=
  match PurePath.relative_to k from with
  | Some rest => mkPath (anchor to) (parts to ++ parts rest)
  | None => k
  end.

Definition under (from : Path) (k : Path) : bool :=
  match PurePath.relative_to k from with Some _ => true | None => false end.

(** [rename(2)] of the entry at [from], with all below it, to the free name [to]. *)
Definition rename_tree (d : gmap Path node) (from to : Path) : gmap Path node :=
  match d !! from with
  | Some (NFile st data) => <[to := NFile st data]> (delete from d)
  | _ =>
      kmap (reroot from to) (filter (fun kv => under from kv.1 = true) d)
      ∪ filter (fun kv => under from kv.1 = false) d
  end.

End Disk.

(** ** Library calls on the disk

    Files are readable and directories writable: permission errors and a
    full disk are outside the model. *)

Section Library.
Context `{Platform}.

(** The error of a call that finds no [p], or no directory to put [p]
    in: [NotADirectoryError] when a regular file is in the way,
    [FileNotFoundError] otherwise. *)
Definition no_entry (d : gmap Path node) (p : Path) : exn :=
  if Disk.blocked d (Disk.chain (PurePath.parent p)) then OSError "Not a directory"
  else FileNotFoundError (PurePath.str p).

(** [os.stat(p)] *)
Definition os_stat (p : Path) : M stat_result :=
  d ← get_disk;
  match Disk.stat d p with
  | Some st => mret st
  | None =>
      if Disk.implicit p then mret (mkStat dir_size clock) else raise (no_entry d p)
  end.

(** [p.read_bytes()], [p.read_text()] *)
Definition read_file (p : Path) : M string :=
  d ← get_disk;
  match d !! p with
  | Some (NFile _ data) => mret data
  | Some (NDir _) => raise (OSError "Is a directory")
  | None =>
      if Disk.implicit p then raise (OSError "Is a directory") else raise (no_entry d p)
  end.

(** [p.write_text(text)] *)
Definition write_text (p : Path) (text : string) : M unit :=
  d ← get_disk;
  if Disk.is_dir d p then raise (OSError "Is a directory")
  else if Disk.parent_ready d p then
    put_disk (<[p := NFile (mkStat (N.of_nat (String.length text)) clock) text]> d)
  else raise (no_entry d p).

(** [os.link(src, dst)] *)
Definition os_link (src dst : Path) : M unit :=
  d ← get_disk;
  match d !! src with
  | Some (NFile st data) =>
      if negb (Disk.exists_ d dst) && Disk.parent_ready d dst && os_link_ok src dst
      then put_disk (<[dst := NFile st data]> d)
      else raise (OSError "link")
  | Some (NDir _) => raise (OSError "Operation not permitted")
  | None =>
      if Disk.implicit src then raise (OSError "Operation not permitted")
      else raise (no_entry d src)
  end.

(** [shutil.copy2(src, dst)]: the bytes and the times of [src]; an existing
    directory [dst] receives the file under its own name. *)
Definition shutil_copy2 (src dst : Path) : M unit :=
  d ← get_disk;
  match d !! src with
  | Some (NFile st data) =>
      let real_dst := if Disk.is_dir d dst then dst // PurePath.name src else dst in
      if Disk.is_dir d real_dst then raise (OSError "Is a directory")
      else if Disk.parent_ready d real_dst
      then put_disk (<[real_dst := NFile st data]> d)
      else raise (no_entry d real_dst)
  | Some (NDir _) => raise (OSError "Is a directory")
  | None =>
      if Disk.implicit src then raise (OSError "Is a directory")
      else raise (no_entry d src)
  end.

(** [shutil.move(src, dst)]: a rename, or copy and delete, which leave the
    same disk; an existing directory [dst] receives the entry under its own
    name unless that name is taken. The working directory and the root are
    not moved. *)
Definition shutil_move (src dst : Path) : M unit :=
  d ← get_disk;
  match d !! src with
  | None =>
      if Disk.implicit src then raise (OSError "Device or resource busy")
      else raise (no_entry d src)
  | Some n =>
      let real_dst := if Disk.is_dir d dst then dst // PurePath.name src else dst in
      if Disk.is_dir d dst && Disk.exists_ d real_dst
      then raise (OSError "Destination path already exists")
      else if Disk.is_dir d src && Disk.under src real_dst
      then raise (OSError "Cannot move a directory into itself")
      else if Disk.is_dir d src && Disk.exists_ d real_dst
      then raise (OSError "Not a directory")
      else if Disk.parent_ready d real_dst
      then put_disk (Disk.rename_tree d src real_dst)
      else raise (no_entry d real_dst)
  end.

(** [os.replace(src, dst)]; an occupied [dst] is replaced file by file only. *)
Definition os_replace (src dst : Path) : M unit :=
  d ← get_disk;
  match d !! src with
  | None =>
      if Disk.implicit src then raise (OSError "Device or resource busy")
      else raise (no_entry d src)
  | Some n =>
      if Disk.exists_ d dst && (Disk.is_dir d src || Disk.is_dir d dst)
      then raise (OSError "Is a directory")
      else if Disk.is_dir d src && Disk.under src dst
      then raise (OSError "Invalid argument")
      else if negb (Disk.parent_ready d dst)
      then raise (no_entry d dst)
      else if os_replace_ok src dst
      then put_disk (Disk.rename_tree d src dst)
      else raise (OSError "Invalid cross-device link")
  end.

End Library.

(** ** utils.py *)

Section Utils.
Context `{Platform}.

(** [hash_file]: the digest of the bytes, read chunk by chunk. *)
Definition hash_file (path : Path) : M string :=
  data ← read_file path;
  mret (sha256_hexdigest data).

(** [ensure_dir]: [path.mkdir(parents=True, exist_ok=True)]. A regular
    file in the way stops it: [FileExistsError] when it is [path] itself,
    [NotADirectoryError] when it is above. *)
Definition ensure_dir (path : Path) : M unit :=
  d ← get_disk;
  match Disk.mkdirs (mkStat dir_size clock) d (Disk.chain path) with
  | Some d' => put_disk d'
  | None =>
      if Disk.blocked d (Disk.chain (PurePath.parent path))
      then raise (OSError "Not a directory")
      else raise (OSError "File exists")
  end.

(** [parent / f"{stem}({i}){suffix}"] *)
Definition candidate (dst : Path) (i : nat) : Path :=
  PurePath.parent dst
  // (PurePath.stem dst +:+ "(" +:+ Str.dec i +:+ ")" +:+ PurePath.suffix dst).

(** The [while True] loop of [next_nonconflicting_name], from counter [i],
    for at most [fuel] rounds. *)
Fixpoint probe (d : gmap Path node) (dst : Path) (fuel i : nat) : option Path :=
  match fuel with
  | O => None
  | S fuel' =>
      if Disk.exists_ d (candidate dst i) then probe d dst fuel' (S i)
      else Some (candidate dst i)
  end.

(** [next_nonconflicting_name] on a given disk. One round more than the disk
    has entries is always enough ([probe_total] below), so [None] never
    comes out. *)
Definition free_name (d : gmap Path node) (dst : Path) : option Path :=
  if negb (Disk.exists_ d dst) then Some dst
  else probe d dst (S (size d)) 1.

(** [next_nonconflicting_name] *)
Definition next_nonconflicting_name (dst : Path) : M Path :=
  d ← get_disk;
  match free_name d dst with
  | Some p => mret p
  | None => raise Diverges
  end.

(** [safe_link_or_copy] *)
Definition safe_link_or_copy (src dst : Path) (mode : string) : M string :=
  dst ← next_nonconflicting_name dst;
  if String.eqb mode "hardlink" then
    try_except_OSError
      (os_link src dst;; mret "hardlink")
      (shutil_copy2 src dst;; mret "copy")
  else if String.eqb mode "copy" then
    shutil_copy2 src dst;; mret "copy"
  else
    shutil_move src dst;; mret "move".

(** [file_mtime] *)
Definition file_mtime (path : Path) : M Q :=
  st ← os_stat path;
  mret (st_mtime st).

(** [within_dir]: any exception of [resolve] or [relative_to] gives [False]. *)
Definition within_dir (child parent_ : Path) : bool :=
  match resolve child with
  | Some c =>
      match resolve parent_ with
      | Some p =>
          match PurePath.relative_to c p with
          | Some _ => true
          | None => false
          end
      | None => false
      end
  | None => false
  end.

End Utils.

(** ** organizer.py *)

(** What [os.walk] finds under a directory: its sub-directories and its
    files, each list in the order the platform gives them. *)
#[warnings="-register-all"]
Inductive dtree :=
| Tree (dirnames : list (string * dtree)) (filenames : list string).

Section Organizer.
Context `{Platform}.

(** [_walk_files]: the files of a directory first, then each sub-directory
    that is not pruned, top-down as [os.walk] goes. *)
Fixpoint _walk_files (root : Path) (t : dtree) (exclude_dirs : list string)
  (exclude_hidden : bool) : list Path :=
  match t with
  | Tree dirnames filenames =>
      let shown name := negb (exclude_hidden && Str.startswith name ".") in
      ((fun name => root // name) <$> List.filter shown filenames)
      ++ (fix descend (ds : list (string * dtree)) : list Path :=
            match ds with
            | [] => []
            | (d, sub) :: rest =>
                (if negb (bool_decide (d ∈ exclude_dirs)) && shown d
                 then _walk_files (root // d) sub exclude_dirs exclude_hidden
                 else [])
                ++ descend rest
            end) dirnames
  end.

(** The folder of the first pass: [match_folder_for], or the unknown folder
    when that gives nothing (lines 38-40 of [compute_destination]). *)
Definition classification_folder (rules : Rules) (path : Path) : res string :=
  match match_folder_for rules path with
  | Raise e => Raise e
  | Ok (Some folder) => Ok (if Str.truthy folder then folder else unknown_folder rules)
  | Ok None => Ok (unknown_folder rules)
  end.

(** [compute_destination] *)
Definition compute_destination (path dest_root : Path) (rules : Rules) : M Path :=
  folder ← lift (classification_folder rules path);
  let parts := [folder] in
  parts ← (if enabled (by_date rules) then
             ts ← file_mtime path;
             ds ← lift (date_parts rules ts);
             mret ([base_folder (by_date rules)] ++ ds ++ parts)
           else mret parts);
  st ← os_stat path;
  size_bucket ← lift (match_size_bucket rules (st_size st));
  let parts :=
    match size_bucket with
    | Some size_bucket => if Str.truthy size_bucket then [size_bucket] ++ parts else parts
    | None => parts
    end in
  let target_dir := PurePath.joinpath dest_root parts in
  mret (target_dir // PurePath.name path).

(** The two variables of the loop of [organize]. *)
Record loop_state := mkLoop {
  results : list MoveResult;
  seen_hashes : gmap string Path;
}.

(** [action = "plan-move" if mode == "move" else (...)] *)
Definition plan_action (mode : string) : string :=
  if String.eqb mode "move" then "plan-move"
  else if String.eqb mode "copy" then "plan-copy" else "plan-hardlink".

(** Lines 101-115 of [organize]: the index entry, the free name, then the
    plan or the placement of [f] at [dst]. *)
Definition place_file (dest_root : Path) (rules : Rules) (mode : string)
  (dry_run : bool) (st : loop_state) (f dst : Path) (file_hash : string)
  : M loop_state :=
  let seen := <[file_hash := f]> (seen_hashes st) in
  final_dst ← next_nonconflicting_name dst;
  if dry_run then
    let action := plan_action mode in
    log_fn ("🧭  " +:+ Str.upper action +:+ ": " +:+ PurePath.str f
            +:+ " -> " +:+ PurePath.str final_dst);;
    mret (mkLoop (results st ++ [mkMoveResult (PurePath.str f) (PurePath.str final_dst) action]) seen)
  else
    ensure_dir (PurePath.parent final_dst);;
    action ← safe_link_or_copy f final_dst
               (if negb (String.eqb (DuplicateRule.action (duplicates rules)) "hardlink")
                then mode else "hardlink");
    log_fn ("✅ " +:+ Str.upper action +:+ ": " +:+ PurePath.name f
            +:+ " -> " +:+ PurePath.str final_dst);;
    mret (mkLoop (results st ++ [mkMoveResult (PurePath.str f) (PurePath.str final_dst) action]) seen).

(** The body of the loop of [organize] (lines 80-115) for one file [f]. *)
Definition organize_file (dest_root : Path) (rules : Rules) (mode : string)
  (dry_run : bool) (st : loop_state) (f : Path) : M loop_state :=
  d ← get_disk;
  if Disk.is_dir d f then mret st
  else
    dst ← compute_destination f dest_root rules;
    file_hash ← hash_file f;
    let dup := duplicates rules in
    match seen_hashes st !! file_hash with
    | Some first =>
        if String.eqb (DuplicateRule.action dup) "skip" then
          log_fn ("⏭️  Duplicate (skip): " +:+ PurePath.str f
                  +:+ " (same as " +:+ PurePath.str first +:+ ")");;
          mret (mkLoop (results st ++ [mkMoveResult (PurePath.str f) "" "skip-duplicate"])
                       (seen_hashes st))
        else if String.eqb (DuplicateRule.action dup) "separate" then
          place_file dest_root rules mode dry_run st f
            (dest_root // DuplicateRule.folder dup // PurePath.name f) file_hash
        else if String.eqb (DuplicateRule.action dup) "hardlink" then
          let first_target := dest_root // DuplicateRule.folder dup // PurePath.name first in
          place_file dest_root rules mode dry_run st f first_target file_hash
        else place_file dest_root rules mode dry_run st f dst file_hash
    | None => place_file dest_root rules mode dry_run st f dst file_hash
    end.

(** [for f in _walk_files(...)] *)
Fixpoint organize_loop (dest_root : Path) (rules : Rules) (mode : string)
  (dry_run : bool) (files : list Path) (st : loop_state) : M loop_state :=
  match files with
  | [] => mret st
  | f :: rest =>
      st' ← organize_file dest_root rules mode dry_run st f;
      organize_loop dest_root rules mode dry_run rest st'
  end.

(** [r.action in ("move", "copy", "hardlink")] *)
Definition undoable (r : MoveResult) : bool :=
  String.eqb (action r) "move" || String.eqb (action r) "copy"
  || String.eqb (action r) "hardlink".

(** [p.resolve()] where its exception is not caught. *)
Definition resolve_ (p : Path) : M Path :=
  match resolve p with
  | Some q => mret q
  | None => raise (RuntimeError "Symlink loop")
  end.

(** Lines 75-123 of [organize]: the loop over the walk, then the manifest.
    [tree] is what [os.walk(src_root)] finds; the walk is taken as it stands
    when the loop starts. *)
Definition organize_run (tree : dtree) (src_root dest_root : Path) (rules : Rules)
  (mode : string) (dry_run : bool) (undo_manifest : option Path)
  : M (list MoveResult) :=
  st ← organize_loop dest_root rules mode dry_run
         (_walk_files src_root tree (exclude_dirs rules) (exclude_hidden rules))
         (mkLoop [] ∅);
  (if negb dry_run then
     match undo_manifest with
     | Some manifest =>
         ensure_dir (PurePath.parent manifest);;
         write_text manifest (json_dumps (List.filter undoable (results st)));;
         log_fn ("📝 Undo manifest saved -> " +:+ PurePath.str manifest)
     | None => mret tt
     end
   else mret tt);;
  mret (results st).

(** [organize]: the three checks of lines 68-73, then the run. *)
Definition organize (tree : dtree) (src_root dest_root : Path) (rules : Rules)
  (mode : string) (dry_run : bool) (undo_manifest : option Path)
  : M (list MoveResult) :=
  d ← get_disk;
  if negb (Disk.exists_ d src_root) then
    raise (FileNotFoundError ("Source folder not found: " +:+ PurePath.str src_root))
  else if within_dir dest_root src_root then
    raise (RuntimeError "Destination directory cannot be inside the source directory.")
  else
    s ← resolve_ src_root;
    t ← resolve_ dest_root;
    if bool_decide (s = t) then raise (RuntimeError "Destination must differ from source.")
    else organize_run tree src_root dest_root rules mode dry_run undo_manifest.

(** The loop of [undo] over the records still to reverse. *)
Fixpoint undo_loop (ops : list MoveResult) (undone : list MoveResult)
  : M (list MoveResult) :=
  match ops with
  | [] => mret undone
  | rec :: rest =>
      let src_ := PurePath.parse (dst rec) in
      let dst_ := PurePath.parse (src rec) in
      d ← get_disk;
      if negb (Disk.exists_ d src_) then
        log_fn ("⚠️  Missing file for undo: " +:+ PurePath.str src_);;
        undo_loop rest undone
      else
        ensure_dir (PurePath.parent dst_);;
        final_dst ← next_nonconflicting_name dst_;
        os_replace src_ final_dst;;
        log_fn ("↩️  UNDO: " +:+ PurePath.str src_ +:+ " -> " +:+ PurePath.str final_dst);;
        undo_loop rest (undone ++ [mkMoveResult (PurePath.str src_) (PurePath.str final_dst) "undo"])
  end.

(** [undo] *)
Definition undo (undo_manifest : Path) : M (list MoveResult) :=
  d ← get_disk;
  if negb (Disk.exists_ d undo_manifest) then
    raise (FileNotFoundError ("Undo manifest not found: " +:+ PurePath.str undo_manifest))
  else
    text ← read_file undo_manifest;
    match json_loads text with
    | Some ops => undo_loop (rev ops) []
    | None => raise JSONDecodeError
    end.

End Organizer.

(** ** The design description, in its own words *)

Section Described.
Context `{Platform}.

(** Section 4.1, step 1: the first rule that matches, extension before glob
    before MIME prefix, each map in declared order. *)
Definition described_match (rules : Rules) (path : Path) : option string :=
  match by_extension rules !! str_lower (PurePath.suffix path) with
  | Some folder => Some folder
  | None =>
      match List.find (fun '(pattern, _) => path_match path pattern) (by_glob rules) with
      | Some (_, folder) => Some folder
      | None =>
          match guess_type (PurePath.as_posix path) with
          | Some mime =>
              if Str.truthy mime then
                snd <$> List.find (fun '(prefix, _) => Str.startswith mime prefix) (by_mime rules)
              else None
          | None => None
          end
      end
  end.

(** "If none match, use [unknownFolder]." *)
Definition described_folder (rules : Rules) (path : Path) : string :=
  default (unknown_folder rules) (described_match rules path).

End Described.

(** Section 4.1, step 3: a bucket (with its folder) matches if the size in
    megabytes is at most its bound, or if it has no bound. *)
Definition bucket_matches (size_bytes : N) (b : Bucket) : Prop :=
  is_Some (bucket_folder b) ∧
  match max_mb b with
  | Some m => (Z.of_N size_bytes # 1048576 <= m)%Q
  | None => True
  end.

(** Section 4.1, step 3: the folder of the first bucket that matches, in
    declared order, or none. *)
Definition first_bucket (rules : Rules) (size_bytes : N) (folder : option string) : Prop :=
  match folder with
  | Some name =>
      ∃ pre b post, size_buckets rules = pre ++ b :: post
        ∧ Forall (fun b' => ¬ bucket_matches size_bytes b') pre
        ∧ bucket_matches size_bytes b
        ∧ bucket_folder b = Some name
  | None => Forall (fun b' => ¬ bucket_matches size_bytes b') (size_buckets rules)
  end.



(** ** Configurations and disks of the scenarios *)

Module Scenario.

(** A machine: paths resolve to themselves, no glob or MIME table entry
    applies, every file dates from 2025-06-01, links can be made. *)
Definition machine : Platform := {|
  resolve := Some;
  path_match := fun _ _ => false;
  guess_type := fun _ => None;
  fromtimestamp := fun _ => inl (mkDate 2025 6 1);
  unicode_lower := fun s => s;
  sha256_hexdigest := fun data => data;
  json_dumps := fun _ => "{}";
  json_loads := fun _ => Some [mkMoveResult "src/a.txt" "dest/Others/a.txt" "move";
                               mkMoveResult "src/b.txt" "dest/Others/b.txt" "move"];
  os_link_ok := fun _ _ => true;
  os_replace_ok := fun _ _ => true;
  clock := 0;
  dir_size := 4096;
|}.

(** The defaults of [Rules.load]. *)
Definition defaults : Rules := {|
  unknown_folder := "Others";
  exclude_dirs := [".git"; "__pycache__"; "node_modules"];
  exclude_hidden := true;
  prefer_extension_over_glob := true;
  by_extension := ∅;
  by_glob := [];
  by_mime := [];
  by_date := mkDateRule false "By Date" "month";
  size_buckets := [];
  duplicates := DuplicateRule.mk "separate" "Duplicates";
|}.

Definition with_extensions (m : gmap string string) (r : Rules) : Rules :=
  mkRules (unknown_folder r) (exclude_dirs r) (exclude_hidden r)
    (prefer_extension_over_glob r) m (by_glob r) (by_mime r) (by_date r)
    (size_buckets r) (duplicates r).

Definition with_date (dr : DateRule) (r : Rules) : Rules :=
  mkRules (unknown_folder r) (exclude_dirs r) (exclude_hidden r)
    (prefer_extension_over_glob r) (by_extension r) (by_glob r) (by_mime r) dr
    (size_buckets r) (duplicates r).

Definition with_buckets (bs : list Bucket) (r : Rules) : Rules :=
  mkRules (unknown_folder r) (exclude_dirs r) (exclude_hidden r)
    (prefer_extension_over_glob r) (by_extension r) (by_glob r) (by_mime r)
    (by_date r) bs (duplicates r).

Definition with_duplicates (action folder : string) (r : Rules) : Rules :=
  mkRules (unknown_folder r) (exclude_dirs r) (exclude_hidden r)
    (prefer_extension_over_glob r) (by_extension r) (by_glob r) (by_mime r)
    (by_date r) (size_buckets r) (DuplicateRule.mk action folder).

(** [{by_extension: {".jpg": "Images"}, by_date: {enabled: true, group: "month"}}] *)
Definition photo_rules : Rules :=
  with_date (mkDateRule true "By Date" "month")
    (with_extensions {[ ".jpg" := "Images" ]} defaults).


(** [{by_glob: {"": "Anything"}}] *)
Definition empty_glob_rules : Rules :=
  mkRules "Others" [".git"; "__pycache__"; "node_modules"] true true ∅
    [("", "Anything")] [] (mkDateRule false "By Date" "month") []
    (DuplicateRule.mk "separate" "Duplicates").

(** [{size_buckets: [{max_mb: 8589934592, folder: "Huge"}]}]: the bound is
    2^33 megabytes, which is 2^53 bytes. *)
Definition huge_rules : Rules :=
  with_buckets [mkBucket (Some 8589934592%Q) (Some "Huge")] defaults.

(** [{by_extension: {".jpg": ""}}] *)
Definition blank_rules : Rules := with_extensions {[ ".jpg" := "" ]} defaults.

Definition src_root : Path := PurePath.parse "src".
Definition dest_root : Path := PurePath.parse "dest".

Definition file_of (data : string) : node :=
  NFile (mkStat (N.of_nat (String.length data)) 0) data.

(** [src/] with three files of the same bytes and a photo. *)
Definition triple_disk : gmap Path node :=
  list_to_map [
    (src_root, NDir (mkStat 4096 0));
    (src_root // "a.txt", file_of "same bytes");
    (src_root // "b.txt", file_of "same bytes");
    (src_root // "c.txt", file_of "same bytes");
    (src_root // "photo.jpg", file_of "pixels")].

Definition triple_tree : dtree := Tree [] ["a.txt"; "b.txt"; "c.txt"].

(** [src/] with one file. *)
Definition single_disk : gmap Path node :=
  list_to_map [
    (src_root, NDir (mkStat 4096 0));
    (src_root // "a.txt", file_of "bytes")].

Definition single_tree : dtree := Tree [] ["a.txt"].

(** After a run that moved [a.txt] and [b.txt]; [b.txt] was deleted since. *)
Definition moved_disk : gmap Path node :=
  list_to_map [
    (src_root, NDir (mkStat 4096 0));
    (dest_root, NDir (mkStat 4096 0));
    (dest_root // "Others", NDir (mkStat 4096 0));
    (dest_root // "Others" // "a.txt", file_of "bytes");
    (PurePath.parse "manifest.json", file_of "{}")].

End Scenario.

(** ** Predicates of the proofs *)

(** No slash in a string. *)
Fixpoint plain (s : string) : bool :=
  match s with
  | EmptyString => true
  | String c s' => negb (Str.is_slash c) && plain s'
  end.

(** Every exception [m] raises satisfies [ok]. *)
Definition raises_only {A} (ok : exn → Prop) (m : M A) : Prop :=
  ∀ w e w', m w = (Raise e, w') → ok e.

(** The exceptions of the operating system, of the library calls of the
    rule resolver, and of a loop that would not end: all that the per-file
    work of [organize] can raise. *)
Definition os_or_diverges (e : exn) : Prop :=
  match e with
  | FileNotFoundError _ | OSError _ | ValueError _ | OverflowError _ | Diverges => True
  | _ => False
  end.

(** [m] leaves the disk as it found it, whether it returns or raises. *)
Definition keeps_disk {A} (m : M A) : Prop := ∀ w, disk (m w).2 = disk w.


(** [f] is a regular file on [d]. *)
Definition is_file (d : gmap Path node) (f : Path) : Prop :=
  ∃ st data, d !! f = Some (NFile st data).

(** No glob pattern of the rules is empty. *)
Definition patterns_ok (rules : Rules) : Prop :=
  Forall (fun pf : string * string => empty_pattern pf.1 = false) (by_glob rules).


(** The components of a parsed path hold no slash. *)
Definition plain_parts (p : Path) : Prop := Forall (fun x => plain x = true) (parts p).

(** Any exception but the not-found error. *)
Definition not_found_free (e : exn) : Prop :=
  match e with
  | FileNotFoundError _ => False
  | _ => True
  end.

(** The line [undo] logs for a record whose file is gone. *)
Definition missing_line (rec : MoveResult) : string :=
  "⚠️  Missing file for undo: " +:+ PurePath.str (PurePath.parse (dst rec)).

(** ** More of the code: utils.py and rules.py *)

(** [normalize_ext]: [ext if ext else ""] is [ext]. *)
Definition normalize_ext `{Platform} (path : Path) : string :=
  let ext := str_lower (PurePath.suffix path) in
  if Str.truthy ext then ext else "".

(** [d[k] = v] on a dict kept in insertion order: a key that is there keeps
    its place and takes the value, a new key goes last. *)
Fixpoint dict_set {V} (d : list (string * V)) (k : string) (v : V) : list (string * V) :=
  match d with
  | [] => [(k, v)]
  | (k', v') :: rest =>
      if String.eqb k' k then (k', v) :: rest else (k', v') :: dict_set rest k v
  end.

(** [{f(k): v for k, v in d.items()}] *)
Definition dict_rekey {V} (f : string → string) (d : list (string * V)) : list (string * V) :=
  fold_left (fun acc kv => dict_set acc (f kv.1) kv.2) d [].

(** [(k if k.startswith(".") else f".{k}").lower()] *)
Definition dotted_lower `{Platform} (k : string) : string :=
  str_lower (if Str.startswith k "." then k else "." +:+ k).

(** The configuration document once parsed: each key may be missing; a key
    that is there has the type the dataclasses declare. The two sub-documents
    are the keyword arguments of [DateRule] and [DuplicateRule]. *)
Record DateConfig := mkDateConfig {
  cfg_enabled : option bool;
  cfg_base_folder : option string;
  cfg_group : option string;
}.

Record DuplicateConfig := mkDuplicateConfig {
  cfg_action : option string;
  cfg_folder : option string;
}.

Record Config := mkConfig {
  cfg_unknown_folder : option string;
  cfg_exclude_dirs : option (list string);
  cfg_exclude_hidden : option bool;
  cfg_prefer_extension_over_glob : option bool;
  cfg_by_extension : option (list (string * string));
  cfg_by_glob : option (list (string * string));
  cfg_by_mime : option (list (string * string));
  cfg_by_date : option DateConfig;
  cfg_size_buckets : option (list Bucket);
  cfg_duplicates : option DuplicateConfig;
}.

(** [{}] *)
Definition empty_config : Config :=
  mkConfig None None None None None None None None None None.

(** Lines 50-69 of [Rules.load]: the defaults, then the extension keys
    lower-cased and, in a second pass over the dict, given their dot. *)
Definition load_from `{Platform} (cfg : Config) : Rules :=
  let by_extension1 := dict_rekey str_lower (default [] (cfg_by_extension cfg)) in
  let by_date :=
    match cfg_by_date cfg with
    | Some dc => mkDateRule (default false (cfg_enabled dc))
                   (default "By Date" (cfg_base_folder dc))
                   (default "month" (cfg_group dc))
    | None => mkDateRule false "By Date" "month"
    end in
  let duplicates :=
    match cfg_duplicates cfg with
    | Some dc => DuplicateRule.mk (default "separate" (cfg_action dc))
                   (default "Duplicates" (cfg_folder dc))
    | None => DuplicateRule.mk "separate" "Duplicates"
    end in
  {| unknown_folder := default "Others" (cfg_unknown_folder cfg);
     exclude_dirs := default [".git"; "__pycache__"; "node_modules"] (cfg_exclude_dirs cfg);
     exclude_hidden := default true (cfg_exclude_hidden cfg);
     prefer_extension_over_glob := default true (cfg_prefer_extension_over_glob cfg);
     by_extension := list_to_map (dict_rekey dotted_lower by_extension1);
     by_glob := default [] (cfg_by_glob cfg);
     by_mime := default [] (cfg_by_mime cfg);
     by_date := by_date;
     size_buckets := default [] (cfg_size_buckets cfg);
     duplicates := duplicates |}.

(** What the two parsers make of a configuration text. *)
Class ConfigParser := {
  (** [json.loads(text)]; [None] for [json.JSONDecodeError] *)
  json_config : string → option Config;
  (** [yaml.safe_load(text)]: the message of the exception when the module
      is missing or the text is not valid, else the document, [None] for an
      empty one *)
  yaml_config : string → string + option Config;
}.

(** [Rules.load] *)
Definition load `{Platform} `{ConfigParser} (path : option Path) : M Rules :=
  match path with
  | None => mret (load_from empty_config)
  | Some p =>
      text ← read_file p;
      match json_config text with
      | Some cfg => mret (load_from cfg)
      | None =>
          match yaml_config text with
          | inr (Some cfg) => mret (load_from cfg)
          | inr None => mret (load_from empty_config)
          | inl e =>
              raise (RuntimeError
                ("Failed to parse config as JSON, and YAML is not available/valid: " +:+ e))
          end
      end
  end.

(** ** More of the code: the walk *)

(** A file of a tree as [os.walk] finds it: the names of the directories
    from the top down to the one that holds it, then its own name. *)
Inductive in_tree : dtree → list string → string → Prop :=
| in_tree_here dirnames filenames name :
    name ∈ filenames → in_tree (Tree dirnames filenames) [] name
| in_tree_below dirnames filenames d sub dirs name :
    (d, sub) ∈ dirnames → in_tree sub dirs name →
    in_tree (Tree dirnames filenames) (d :: dirs) name.

(** A name the walk shows: not hidden, or hidden names are not excluded. *)
Definition shown (exclude_hidden : bool) (name : string) : bool :=
  negb (exclude_hidden && Str.startswith name ".").

(** A directory the walk goes into. *)
Definition entered (exclude_dirs : list string) (exclude_hidden : bool) (d : string) : bool :=
  negb (bool_decide (d ∈ exclude_dirs)) && shown exclude_hidden d.

(** ** Predicates of the further properties *)

(** What a record of [organize] can be: the skip of a duplicate under the
    skip policy, else a plan in a dry run and a placement otherwise. *)
Definition record_ok (rules : Rules) (mode : string) (dry_run : bool)
  (r : MoveResult) : Prop :=
  (action r = "skip-duplicate" ∧ dst r = ""
   ∧ DuplicateRule.action (duplicates rules) = "skip")
  ∨ (if dry_run then action r = plan_action mode
     else action r ∈ ["move"; "copy"; "hardlink"]).

(** A path as [pathlib] holds it: one of the three anchors, and components
    that are not empty, not ["."] and hold no slash. *)
Definition wf_path (p : Path) : Prop :=
  anchor p ∈ [""; "/"; "//"]
  ∧ Forall (fun x => plain x = true ∧ PurePath.keep_part x = true) (parts p).

(** [dotted_lower] on ASCII text. *)
Definition dotted_ascii (k : string) : string :=
  Str.ascii_lower (if Str.startswith k "." then k else "." +:+ k).

(** The extension keys of a configuration are ASCII text. *)
Definition ascii_keys (cfg : Config) : Prop :=
  Forall (fun kv : string * string => Str.is_ascii kv.1 = true)
    (default [] (cfg_by_extension cfg)).

(** A segment that is not absolute. *)
Definition relative (s : string) : Prop := Str.startswith s "/" = false.

(** [int(s)] for a string of decimal digits. *)
Definition read_decimal (s : string) : option nat :=
  Nat.of_uint <$> NilEmpty.uint_of_string s.

(** ** cli.py *)

Module Cli.

Definition BANNER : string :=
  "📂 Smart File Organizer — blazing-fast, safe, and configurable.".

(** The namespace [parse_args] returns. The [undo] sub-command has [cmd]
    and [manifest] only; [dry_run] is [None] where the attribute is absent,
    and the parser of [plan] sets it to [True]. *)
Record Namespace := mkNamespace {
  cmd : string;
  source : Path;
  dest : Path;
  config : option Path;
  mode : string;
  manifest : Path;
  no_hidden : bool;
  dry_run : option bool;
}.

(** How [main] ends: it returns, or raises [SystemExit]. *)
Inductive outcome :=
| Returned
| SystemExit (msg : string).

(** [str(b)] *)
Definition bool_str (b : bool) : string := if b then "True" else "False".

Definition newline : string := String "010"%char "".

(** [rules.exclude_hidden = True] *)
Definition hide (r : Rules) : Rules :=
  mkRules (unknown_folder r) (exclude_dirs r) true (prefer_extension_over_glob r)
    (by_extension r) (by_glob r) (by_mime r) (by_date r) (size_buckets r) (duplicates r).

(** [main]; [print] writes where [log_fn] does, and [tree] is what
    [os.walk(args.source)] finds. *)
Definition main `{Platform} `{ConfigParser} (tree : dtree) (args : Namespace) : M outcome :=
  if bool_decide (cmd args ∈ ["organize"; "plan"]) then
    rules ← load (config args);
    let rules := if no_hidden args then hide rules else rules in
    let dry := default false (dry_run args) in
    log_fn BANNER;;
    log_fn ("Source: " +:+ PurePath.str (source args) +:+ newline
            +:+ "Dest:   " +:+ PurePath.str (dest args) +:+ newline
            +:+ "Mode:   " +:+ mode args +:+ newline
            +:+ "DryRun: " +:+ bool_str dry);;
    organize tree (source args) (dest args) rules (mode args) dry
      (if negb dry then Some (manifest args) else None);;
    mret Returned
  else if String.eqb (cmd args) "undo" then
    log_fn BANNER;;
    undo (manifest args);;
    mret Returned
  else mret (SystemExit "Unknown command").

End Cli.

(** ** Cases for the properties of the rest of the code *)

Module Cases.

(** A parser that reads every text as
    [{by_extension: {"JPG": "Images", ".Txt": "Text"}}]. *)
Definition parser : ConfigParser := {|
  json_config := fun _ =>
    Some (mkConfig None None None None
            (Some [("JPG", "Images"); (".Txt", "Text")]) None None None None None);
  yaml_config := fun _ => inl "No module named 'yaml'";
|}.

Definition camera_config : Config :=
  mkConfig None None None None
    (Some [("JPG", "Images"); (".Txt", "Text")]) None None None None None.


(** A manifest, and nothing left of what it lists. *)
Definition emptied_disk : gmap Path node :=
  list_to_map [(PurePath.parse "manifest.json", Scenario.file_of "{}")].

(** A text split at its line ends. *)
Fixpoint lines (s : string) : list string :=
  match s with
  | EmptyString => [""]
  | String c s' =>
      if Ascii.eqb c "010"%char then "" :: lines s'
      else match lines s' with
           | [] => [String c ""]
           | l :: rest => String c l :: rest
           end
  end.

Fixpoint unlines (l : list string) : string :=
  match l with
  | [] => ""
  | x :: rest => x +:+ String "010"%char (unlines rest)
  end.

(** The records written in a text of three lines each. *)
Fixpoint records_of (l : list string) : option (list MoveResult) :=
  match l with
  | [] | [""] => Some []
  | s :: d :: a :: rest => (fun rs => mkMoveResult s d a :: rs) <$> records_of rest
  | _ => None
  end.

(** The machine of the scenarios with a manifest text that lists the
    records, a field a line, and reads back. *)
Definition ledger : Platform := {|
  resolve := Some;
  path_match := fun _ _ => false;
  guess_type := fun _ => None;
  fromtimestamp := fun _ => inl (mkDate 2025 6 1);
  unicode_lower := fun s => s;
  sha256_hexdigest := fun data => data;
  json_dumps := fun rs => unlines (mjoin ((fun r => [src r; dst r; action r]) <$> rs));
  json_loads := fun text => records_of (lines text);
  os_link_ok := fun _ _ => true;
  os_replace_ok := fun _ _ => true;
  clock := 0;
  dir_size := 4096;
|}.

(** [src/] with one file, and [rules.json] beside it. *)
Definition configured_disk : gmap Path node :=
  <[PurePath.parse "rules.json" := Scenario.file_of "{...}"]> Scenario.single_disk.

(** [{unknown_folder: "/var/tmp", by_date: {enabled: true}}] *)
Definition absolute_rules : Rules :=
  mkRules "/var/tmp" [".git"; "__pycache__"; "node_modules"] true true ∅ [] []
    (mkDateRule true "By Date" "month") [] (DuplicateRule.mk "separate" "Duplicates").

End Cases.

(** ** Strings and paths: lemmas *)

Lemma plain_app a b : plain a = true → plain b = true → plain (a +:+ b) = true.
Proof.
  induction a as [|c a IH]; simpl; [done|].
  intros [Hc Ha]%andb_true_iff Hb. rewrite Hc. simpl. by apply IH.
Qed.

Lemma plain_dec n : plain (Str.dec n) = true.
Proof.
  unfold Str.dec. induction (Nat.to_uint n); simpl; auto.
Qed.

Lemma dec_inj n m : Str.dec n = Str.dec m → n = m.
Proof.
  unfold Str.dec. intros E.
  assert (Some (Nat.to_uint n) = Some (Nat.to_uint m)) as Hu.
  { rewrite <- !NilEmpty.usu. by rewrite E. }
  injection Hu as Hu.
  rewrite <- (Unsigned.of_to n), <- (Unsigned.of_to m). by rewrite Hu.
Qed.

Lemma split_slash_cons s : ∃ h r, Str.split_slash s = h :: r.
Proof.
  induction s as [|c s (h & r & IH)]; simpl; [by eexists _, _|].
  destruct (Str.is_slash c); [by eexists _, _|]. rewrite IH. by eexists _, _.
Qed.

Lemma split_slash_plain_app t s h r :
  plain t = true → Str.split_slash s = h :: r →
  Str.split_slash (t +:+ s) = (t +:+ h) :: r.
Proof.
  intros Ht Hs. induction t as [|c t IH]; simpl in *; [done|].
  apply andb_true_iff in Ht as [Hc Ht]. apply negb_true_iff in Hc.
  rewrite Hc, (IH Ht). done.
Qed.

Lemma split_slash_plain t : plain t = true → Str.split_slash t = [t].
Proof.
  induction t as [|c t IH]; simpl; [done|].
  intros [Hc Ht]%andb_true_iff. apply negb_true_iff in Hc.
  by rewrite Hc, (IH Ht).
Qed.

(** What is on the left of a string decides all the segments but the one it
    shares with what follows. *)
Lemma split_slash_glue pre :
  ∃ A B, ∀ s h r, Str.split_slash s = h :: r →
    Str.split_slash (pre +:+ s) = A ++ (B +:+ h) :: r.
Proof.
  induction pre as [|c pre (A & B & IH)].
  - exists [], "". intros s h r Hs. simpl. exact Hs.
  - destruct (Str.is_slash c) eqn:Hc.
    + exists ("" :: A), B. intros s h r Hs. simpl. by rewrite Hc, (IH _ _ _ Hs).
    + destruct A as [|a A].
      * exists [], (String c B). intros s h r Hs. simpl. by rewrite Hc, (IH _ _ _ Hs).
      * exists (String c a :: A), B. intros s h r Hs. simpl. by rewrite Hc, (IH _ _ _ Hs).
Qed.

Lemma keep_part_true x : PurePath.keep_part x = true ↔ x ≠ "" ∧ x ≠ ".".
Proof.
  unfold PurePath.keep_part.
  rewrite andb_true_iff, !negb_true_iff, !String.eqb_neq. done.
Qed.

Lemma string_length_app a b :
  String.length (a +:+ b) = (String.length a + String.length b)%nat.
Proof. induction a; simpl; [done|]. by f_equal. Qed.

Lemma string_app_inv_tail a b t : a +:+ t = b +:+ t → a = b.
Proof.
  intros E.
  assert (String.length a = String.length b) as Hl.
  { apply (f_equal String.length) in E. rewrite !string_length_app in E. lia. }
  revert b E Hl. induction a as [|c a IH]; intros [|c' b] E Hl;
    simpl in *; try done.
  injection E as -> E. f_equal. apply IH; [done|lia].
Qed.

Lemma parts_of_mid_inj pre a b post :
  plain a = true → plain b = true →
  PurePath.parts_of (pre +:+ "(" +:+ a +:+ ")" +:+ post)
  = PurePath.parts_of (pre +:+ "(" +:+ b +:+ ")" +:+ post) →
  a = b.
Proof.
  intros Ha Hb. unfold PurePath.parts_of.
  destruct (split_slash_glue pre) as (A & B & Hglue).
  destruct (split_slash_cons post) as (h & r & Hpost).
  assert (∀ x, plain x = true →
    Str.split_slash ("(" +:+ x +:+ ")" +:+ post) = ("(" +:+ x +:+ ")" +:+ h) :: r) as Hmid.
  { intros x Hx.
    apply (split_slash_plain_app "("); [done|].
    apply split_slash_plain_app; [done|].
    by apply (split_slash_plain_app ")"). }
  rewrite (Hglue _ _ _ (Hmid a Ha)), (Hglue _ _ _ (Hmid b Hb)).
  rewrite !List.filter_app. simpl.
  assert (∀ x, PurePath.keep_part (B +:+ "(" +:+ x +:+ ")" +:+ h) = true) as Hkeep.
  { intros x. apply keep_part_true. destruct B as [|c [|c' B]]; simpl; split; discriminate. }
  rewrite !Hkeep. intros E%app_inv_head. injection E as E.
  apply (inj (String.app B)) in E. 
  change ("(" +:+ a +:+ ")" +:+ h) with (String "(" (a +:+ ")" +:+ h)) in E.
  change ("(" +:+ b +:+ ")" +:+ h) with (String "(" (b +:+ ")" +:+ h)) in E.
  injection E as E. by apply string_app_inv_tail in E.
Qed.

(** ** Names and components *)

Lemma plain_substring s a b : plain s = true → plain (String.substring a b s) = true.
Proof.
  revert a b. induction s as [|c s IH]; intros a b Hs.
  - by destruct a, b.
  - simpl in Hs. apply andb_true_iff in Hs as [Hc Hs].
    destruct a as [|a]; [destruct b as [|b]|]; simpl; [done| |by apply IH].
    rewrite Hc. simpl. by apply IH.
Qed.

Lemma plain_split_slash s : Forall (fun x => plain x = true) (Str.split_slash s).
Proof.
  induction s as [|c s IH]; simpl; [by repeat constructor|].
  destruct (Str.is_slash c) eqn:Hc; [by constructor|].
  destruct (Str.split_slash s) as [|h r]; simpl.
  - repeat constructor. simpl. by rewrite Hc.
  - inversion IH; subst. constructor; [|done]. simpl. by rewrite Hc.
Qed.

Lemma plain_parts_parse s : plain_parts (PurePath.parse s).
Proof.
  unfold plain_parts, PurePath.parse, PurePath.parts_of. simpl.
  apply Forall_forall. intros x Hx%list_elem_of_In%List.filter_In.
  destruct Hx as [Hx _]. apply list_elem_of_In in Hx.
  by apply (proj1 (Forall_forall _ _) (plain_split_slash s)).
Qed.

Lemma plain_name p : plain_parts p → plain (PurePath.name p) = true.
Proof.
  unfold plain_parts, PurePath.name. intros Hp.
  induction Hp as [|x l Hx Hl IH]; simpl; [done|]. by destruct l.
Qed.

Lemma plain_stem p : plain_parts p → plain (PurePath.stem p) = true.
Proof.
  intros Hp%plain_name. unfold PurePath.stem.
  destruct (Str.rfind_dot _); [|done]. destruct (_ && _); [|done].
  by apply plain_substring.
Qed.

Lemma plain_suffix p : plain_parts p → plain (PurePath.suffix p) = true.
Proof.
  intros Hp%plain_name. unfold PurePath.suffix.
  destruct (Str.rfind_dot _); [|done]. destruct (_ && _); [|done].
  by apply plain_substring.
Qed.

Lemma keep_part_paren B x : PurePath.keep_part (B +:+ "(" +:+ x) = true.
Proof.
  apply keep_part_true. destruct B as [|c [|c' B]]; simpl; split; discriminate.
Qed.

Lemma div_plain p s :
  plain s = true → PurePath.keep_part s = true →
  p // s = mkPath (anchor p) (parts p ++ [s]).
Proof.
  intros Hs Hk. unfold PurePath.div, PurePath.parts_of.
  rewrite (split_slash_plain s Hs). simpl. rewrite Hk.
  destruct s as [|c s]; [done|]. simpl in Hs.
  apply andb_true_iff in Hs as [Hc _]. apply negb_true_iff in Hc. by rewrite Hc.
Qed.

(** ** Running a computation *)

Ltac mrun :=
  unfold mbind, M_bind, mret, M_ret, get_disk, put_disk, raise, lift, log_fn; simpl.

Lemma run_bind_ok {A B} (m : M A) (k : A → M B) w a w0 :
  m w = (Ok a, w0) → (m ≫= k) w = k a w0.
Proof. intros E. unfold mbind, M_bind. by rewrite E. Qed.

Lemma run_bind_raise {A B} (m : M A) (k : A → M B) w e w0 :
  m w = (Raise e, w0) → (m ≫= k) w = (Raise e, w0).
Proof. intros E. unfold mbind, M_bind. by rewrite E. Qed.

Lemma run_get_disk {B} (k : gmap Path node → M B) w :
  (get_disk ≫= k) w = k (disk w) w.
Proof. done. Qed.

Lemma run_lift_ok {A B} (r : res A) (k : A → M B) w a :
  r = Ok a → (lift r ≫= k) w = k a w.
Proof. by intros ->. Qed.

(** ** The conflict namer: lemmas *)

Lemma candidate_inj dst i j : candidate dst i = candidate dst j → i = j.
Proof.
  unfold candidate, PurePath.div. intros E.
  apply dec_inj.
  apply (parts_of_mid_inj (PurePath.stem dst) _ _ (PurePath.suffix dst));
    [apply plain_dec..|].
  destruct (PurePath.stem dst) as [|c st]; simpl in *.
  - by apply (f_equal parts), app_inv_head in E.
  - destruct (Str.is_slash c).
    + by apply (f_equal parts) in E.
    + by apply (f_equal parts), app_inv_head in E.
Qed.

(** The loop stops at the first free counter, if one lies within the fuel. *)
Lemma probe_first_free d dst fuel i k :
  (k < fuel)%nat → Disk.exists_ d (candidate dst (i + k)) = false →
  ∃ n, (i ≤ n ≤ i + k)%nat ∧
       probe d dst fuel i = Some (candidate dst n) ∧
       Disk.exists_ d (candidate dst n) = false ∧
       ∀ m, (i ≤ m < n)%nat → Disk.exists_ d (candidate dst m) = true.
Proof.
  revert i k. induction fuel as [|fuel IH]; intros i k Hk Hfree; [lia|].
  simpl. destruct (Disk.exists_ d (candidate dst i)) eqn:Hi.
  - destruct k as [|k]; [by rewrite Nat.add_0_r, Hi in Hfree|].
    destruct (IH (S i) k) as (n & Hn & Hp & Hf & Hbelow); [lia| |].
    { by replace (S i + k)%nat with (i + S k)%nat by lia. }
    exists n. repeat split; [lia..|done|done|].
    intros m Hm. destruct (decide (m = i)) as [->|]; [done|]. apply Hbelow. lia.
  - exists i. repeat split; [lia..|done|]. intros m Hm. lia.
Qed.

Lemma parts_of_paren_nonempty pre x :
  PurePath.parts_of (pre +:+ "(" +:+ x) ≠ [].
Proof.
  unfold PurePath.parts_of.
  destruct (split_slash_glue pre) as (A & B & Hglue).
  destruct (split_slash_cons x) as (h & r & Hx).
  assert (Str.split_slash ("(" +:+ x) = ("(" +:+ h) :: r) as Hmid
    by (by apply (split_slash_plain_app "(")).
  rewrite (Hglue _ _ _ Hmid), List.filter_app. simpl.
  rewrite keep_part_paren. by destruct (List.filter _ A).
Qed.

(** A candidate name has a component: it is neither the working directory
    nor the root. *)
Lemma candidate_not_implicit dst i : Disk.implicit (candidate dst i) = false.
Proof.
  assert (∀ l : list string, l ≠ [] → match l with [] => true | _ => false end = false) as Hne
    by (by intros [|]).
  unfold Disk.implicit, candidate, PurePath.div.
  pose proof (parts_of_paren_nonempty (PurePath.stem dst)
                (Str.dec i +:+ ")" +:+ PurePath.suffix dst)) as Hparts.
  destruct (PurePath.stem dst +:+ "(" +:+ Str.dec i +:+ ")" +:+ PurePath.suffix dst)
    as [|c s] eqn:E.
  { by destruct (PurePath.stem dst). }
  destruct (Str.is_slash c); simpl; apply Hne; [done|].
  intros [_ ?]%app_eq_nil. done.
Qed.

Lemma exists_in_dom (d : gmap Path node) p :
  Disk.implicit p = false → Disk.exists_ d p = true → p ∈ dom d.
Proof.
  intros Hi He. unfold Disk.exists_ in He. apply elem_of_dom.
  destruct (d !! p); [eauto|congruence].
Qed.

Lemma exists_false (d : gmap Path node) p :
  Disk.exists_ d p = false ↔ d !! p = None ∧ Disk.implicit p = false.
Proof.
  unfold Disk.exists_. destruct (d !! p); [by split; [|intros []]|].
  split; [done|by intros []].
Qed.


(** Among more candidate names than the disk has entries, one is free. *)
Lemma candidate_free_within d dst :
  ∃ k, (k < S (size d))%nat ∧ Disk.exists_ d (candidate dst (1 + k)) = false.
Proof.
  set (cands := candidate dst <$> seq 1 (S (size d))).
  destruct (decide (Forall (fun p => Disk.exists_ d p = true) cands)) as [Hall|Hex].
  - exfalso.
    assert (NoDup cands) as Hnd.
    { apply NoDup_fmap_2_strong; [|apply NoDup_seq].
      intros ???? E. by apply candidate_inj in E. }
    assert (list_to_set cands ⊆ dom d) as Hsub.
    { intros p Hp%elem_of_list_to_set. rewrite Forall_forall in Hall.
      specialize (Hall p Hp). apply exists_in_dom; [|done].
      apply list_elem_of_fmap in Hp as (n & -> & _). apply candidate_not_implicit. }
    apply subseteq_size in Hsub.
    rewrite size_list_to_set, size_dom in Hsub by done.
    unfold cands in Hsub. rewrite length_fmap, length_seq in Hsub. lia.
  - apply not_Forall_Exists in Hex; [|intros ?; apply _].
    apply Exists_exists in Hex as (p & Hp & Hfree).
    apply list_elem_of_fmap in Hp as (n & -> & Hn%elem_of_seq).
    exists (n - 1)%nat. split; [lia|].
    replace (1 + (n - 1))%nat with n by lia.
    unfold compose in Hfree. destruct (Disk.exists_ d (candidate dst n)); [by destruct Hfree|done].
Qed.


Lemma free_name_is_free d dst p :
  free_name d dst = Some p → Disk.exists_ d p = false.
Proof.
  unfold free_name. destruct (Disk.exists_ d dst) eqn:He; cbn [negb].
  - destruct (candidate_free_within d dst) as (k & Hk & Hfree).
    destruct (probe_first_free d dst _ 1 k Hk Hfree) as (n & _ & -> & Hf & _).
    by intros [= <-].
  - by intros [= <-].
Qed.





(** ** Size buckets *)

Lemma round53_small n : (n <= 2 ^ 53)%N → round53 n = n.
Proof.
  intros Hn. destruct (N.eq_dec n (2 ^ 53)%N) as [->|Hne]; [by vm_compute|].
  unfold round53.
  assert (N.log2 n - 52 = 0)%N as ->; [|done].
  destruct (N.eq_dec n 0%N) as [->|Hpos]; [done|].
  assert (N.log2 n < 53)%N; [|lia].
  apply N.log2_lt_pow2; lia.
Qed.

Lemma round53_zero n : round53 n = 0%N → n = 0%N.
Proof.
  unfold round53. destruct (N.eqb_spec (N.log2 n - 52) 0) as [|He]; [done|].
  set (e := (N.log2 n - 52)%N) in *.
  rewrite N.shiftl_mul_pow2. intros Hz. exfalso.
  assert (n ≠ 0%N) as Hn by (intros ->; by vm_compute in He).
  assert (2 ^ e ≠ 0)%N as Hp by (by apply N.pow_nonzero).
  assert (N.shiftr n e ≠ 0%N) as Hq.
  { rewrite N.shiftr_div_pow2. intros Hd.
    apply N.div_small_iff in Hd; [|done].
    assert (2 ^ N.log2 n <= n)%N by (apply N.log2_spec; lia).
    assert (2 ^ e <= 2 ^ N.log2 n)%N by (apply N.pow_le_mono_r; lia).
    lia. }
  destruct (match _ with Lt => false | Gt => true | Eq => N.odd (N.shiftr n e) end); lia.
Qed.


(** Up to 2^53 bytes the division is exact. *)
Lemma megabytes_exact size :
  (size <= 2 ^ 53)%N → megabytes size = Ok (Z.of_N size # 1048576).
Proof.
  intros Hs. unfold megabytes. rewrite (round53_small size Hs).
  assert ((size <? 2 ^ 1044)%N = true) as ->; [|done].
  apply N.ltb_lt. eapply N.le_lt_trans; [exact Hs|]. by vm_compute.
Qed.



Lemma exact_le_zero size : (Z.of_N size # 1048576 <= 0)%Q ↔ size = 0%N.
Proof. unfold Qle. simpl. split; [lia|]. intros ->. done. Qed.

Lemma bucket_loop_first rules size :
  first_bucket rules size (bucket_loop (Z.of_N size # 1048576) (size_buckets rules)).
Proof.
  unfold first_bucket. generalize (size_buckets rules). intros buckets.
  induction buckets as [|b buckets IH]; simpl; [done|].
  assert (∀ o, (¬ bucket_matches size b) →
    match o with
    | Some folder =>
        ∃ pre b0 post, buckets = pre ++ b0 :: post
          ∧ Forall (fun b' => ¬ bucket_matches size b') pre
          ∧ bucket_matches size b0 ∧ bucket_folder b0 = Some folder
    | None => Forall (fun b' => ¬ bucket_matches size b') buckets
    end →
    match o with
    | Some folder =>
        ∃ pre b0 post, b :: buckets = pre ++ b0 :: post
          ∧ Forall (fun b' => ¬ bucket_matches size b') pre
          ∧ bucket_matches size b0 ∧ bucket_folder b0 = Some folder
    | None => Forall (fun b' => ¬ bucket_matches size b') (b :: buckets)
    end) as Hskip.
  { intros [folder|] Hno.
    - intros (pre & b0 & post & -> & Hpre & Hb0 & Hf).
      exists (b :: pre), b0, post. split; [done|]. split; [by constructor|done].
    - intros Hall. by constructor. }
  destruct (bucket_folder b) as [folder|] eqn:Hfolder.
  - assert (is_Some (bucket_folder b)) as Hsome by (by rewrite Hfolder).
    destruct (max_mb b) as [m|] eqn:Hmax.
    + destruct (Qle_bool (Z.of_N size # 1048576) m) eqn:Hle.
      * exists [], b, buckets. split; [done|]. split; [constructor|]. split; [|done].
        split; [done|]. rewrite Hmax. by apply Qle_bool_iff.
      * apply Hskip; [|done]. unfold bucket_matches. rewrite Hmax. intros [_ Hm].
        apply Qle_bool_iff in Hm. congruence.
    + exists [], b, buckets. split; [done|]. split; [constructor|]. split; [|done].
      split; [done|]. by rewrite Hmax.
  - apply Hskip; [|done]. unfold bucket_matches. rewrite Hfolder. by intros [[? ?] _].
Qed.

Lemma first_split_unique {A} (P : A → Prop) pre b post pre' b' post' :
  pre ++ b :: post = pre' ++ b' :: post' →
  Forall (fun x => ¬ P x) pre → Forall (fun x => ¬ P x) pre' → P b → P b' →
  pre = pre' ∧ b = b'.
Proof.
  revert pre'. induction pre as [|x pre IH]; intros [|y pre'] E Hpre Hpre' Hb Hb';
    simplify_eq/=.
  - done.
  - by inversion Hpre'.
  - by inversion Hpre.
  - inversion Hpre; inversion Hpre'; subst.
    destruct (IH pre') as [-> ->]; done.
Qed.

Lemma first_bucket_unique rules size o o' :
  first_bucket rules size o → first_bucket rules size o' → o = o'.
Proof.
  destruct o as [f|], o' as [f'|]; simpl; [| | |done].
  - intros (pre & b & post & Hsplit & Hpre & Hb & Hf)
           (pre' & b' & post' & Hsplit' & Hpre' & Hb' & Hf').
    rewrite Hsplit in Hsplit'.
    destruct (first_split_unique (bucket_matches size) _ _ _ _ _ _
                Hsplit' Hpre Hpre' Hb Hb') as [-> ->].
    congruence.
  - intros (pre & b & post & Hsplit & Hpre & Hb & Hf) Hall.
    rewrite Hsplit in Hall. apply Forall_app in Hall as [_ Hall]. by inversion Hall.
  - intros Hall (pre & b & post & Hsplit & Hpre & Hb & Hf).
    rewrite Hsplit in Hall. apply Forall_app in Hall as [_ Hall]. by inversion Hall.
Qed.

(** Up to 2^53 bytes [match_size_bucket] gives the first bucket that
    matches. *)
Lemma match_size_bucket_exact rules size :
  (size <= 2 ^ 53)%N →
  ∃ o, match_size_bucket rules size = Ok o ∧ first_bucket rules size o.
Proof.
  intros Hs. exists (bucket_loop (Z.of_N size # 1048576) (size_buckets rules)).
  split; [|apply bucket_loop_first].
  unfold match_size_bucket. rewrite (megabytes_exact size Hs).
  by destruct (size_buckets rules).
Qed.

Lemma match_size_bucket_zero rules size folder :
  size_buckets rules = [mkBucket (Some 0%Q) (Some folder)] →
  match_size_bucket rules size = Ok (Some folder) ↔ size = 0%N.
Proof.
  intros Hb. unfold match_size_bucket, megabytes. rewrite Hb. split.
  - destruct (round53 size <? 2 ^ 1044)%N; [|done]. simpl.
    destruct (Qle_bool (Z.of_N (round53 size) # 1048576) 0) eqn:Hle; [|done].
    intros _. apply Qle_bool_iff, exact_le_zero in Hle. by apply round53_zero.
  - intros ->. by vm_compute.
Qed.

(** C9, as the code has it. A bucket whose [max_mb] is 0 matches exactly
    the files of zero bytes. For sizes up to 2^53 bytes, where the size in
    megabytes is an exact float, a bucket with a numeric [max_mb] matches
    exactly the files whose size in bytes divided by 1048576 is at most
    [max_mb], and the buckets are tried in declared order, the first that
    matches giving the folder. *)
Theorem match_size_bucket_first_match (rules : Rules) (size : N) :
  (∀ folder, size_buckets rules = [mkBucket (Some 0%Q) (Some folder)] →
     (match_size_bucket rules size = Ok (Some folder) ↔ size = 0%N)
     ∧ (bucket_matches size (mkBucket (Some 0%Q) (Some folder)) ↔ size = 0%N))
  ∧ ((size <= 2 ^ 53)%N →
     (∀ m folder, size_buckets rules = [mkBucket (Some m) (Some folder)] →
        (match_size_bucket rules size = Ok (Some folder) ↔ (Z.of_N size # 1048576 <= m)%Q)
        ∧ (bucket_matches size (mkBucket (Some m) (Some folder))
           ↔ (Z.of_N size # 1048576 <= m)%Q))
     ∧ (∀ folder, match_size_bucket rules size = Ok (Some folder) ↔
          ∃ pre b post, size_buckets rules = pre ++ b :: post
            ∧ Forall (fun b' => ¬ bucket_matches size b') pre
            ∧ bucket_matches size b
            ∧ bucket_folder b = Some folder)
     ∧ (match_size_bucket rules size = Ok None ↔
          Forall (fun b' => ¬ bucket_matches size b') (size_buckets rules))).
Proof.
  assert (∀ m folder, bucket_matches size (mkBucket (Some m) (Some folder))
                      ↔ (Z.of_N size # 1048576 <= m)%Q) as Hm.
  { intros m folder. unfold bucket_matches. simpl. split; [by intros [_ ?]|].
    intros ?. split; [by eexists|done]. }
  split.
  { intros folder Hb. split; [by apply match_size_bucket_zero|].
    rewrite Hm. apply exact_le_zero. }
  intros Hsize.
  destruct (match_size_bucket_exact rules size Hsize) as (o & Hrun & Hfirst).
  assert (∀ o', match_size_bucket rules size = Ok o' ↔ first_bucket rules size o') as Hiff.
  { intros o'. rewrite Hrun. split.
    - by intros [= <-].
    - intros Ho'. f_equal. by apply (first_bucket_unique rules size). }
  split; [|split].
  - intros m folder Hb. split; [|apply Hm].
    rewrite <- (Hm m folder), Hiff. unfold first_bucket. rewrite Hb. split.
    + intros (pre & b & post & Hsplit & _ & Hmatch & Hf).
      destruct pre as [|? [|]]; simplify_eq/=. done.
    + intros Hmatch. by exists [], (mkBucket (Some m) (Some folder)), [].
  - intros folder. apply (Hiff (Some folder)).
  - apply (Hiff None).
Qed.

Lemma match_size_bucket_first_match_witness :
  match_size_bucket
    (Scenario.with_buckets [mkBucket (Some 1%Q) (Some "Small")] Scenario.defaults) 1048576
  = Ok (Some "Small").
Proof.
  apply (proj1 (proj1 (proj2 (match_size_bucket_first_match
    (Scenario.with_buckets [mkBucket (Some 1%Q) (Some "Small")] Scenario.defaults)
    1048576) ltac:(by vm_compute))
    1%Q "Small" eq_refl)).
  by vm_compute.
Defined.

(** C9, as stated, fails above 2^53 bytes: the size in megabytes is a
    float, rounded to 53 bits. A file of 2^53 + 1 bytes is larger than 2^33
    megabytes, yet its size in megabytes rounds to 2^33 and the code files
    it in the bucket of that bound. *)
Lemma match_size_bucket_rounds_large_size :
  match_size_bucket Scenario.huge_rules (2 ^ 53 + 1) = Ok (Some "Huge")
  ∧ ¬ bucket_matches (2 ^ 53 + 1) (mkBucket (Some 8589934592%Q) (Some "Huge")).
Proof.
  split; [by vm_compute|]. intros [_ Hle]. by vm_compute in Hle.
Qed.

(** ** The rule resolver *)

Section Resolver.
Context `{Platform}.

Lemma first_glob_ok path globs :
  Forall (fun pf : string * string => empty_pattern pf.1 = false) globs →
  first_glob path globs
  = Ok (snd <$> List.find (fun '(pattern, _) => path_match path pattern) globs).
Proof.
  induction 1 as [|[pattern folder] globs Hp _ IH]; simpl in *; [done|].
  rewrite Hp. by destruct (path_match path pattern).
Qed.

Lemma first_glob_ok_inv path globs m :
  first_glob path globs = Ok m →
  m = snd <$> List.find (fun '(pattern, _) => path_match path pattern) globs.
Proof.
  induction globs as [|[pattern folder] globs IH]; simpl; [by intros [= <-]|].
  destruct (empty_pattern pattern); [done|].
  destruct (path_match path pattern); [by intros [= <-]|done].
Qed.

(** [first_glob] raises when it comes to an empty pattern: none before it
    is empty and none before it matches. *)
Lemma first_glob_raise path globs e :
  first_glob path globs = Raise e
  ↔ e = ValueError "empty pattern"
    ∧ ∃ pre pattern folder post, globs = pre ++ (pattern, folder) :: post
        ∧ empty_pattern pattern = true
        ∧ Forall (fun pf : string * string =>
                    empty_pattern pf.1 = false ∧ path_match path pf.1 = false) pre.
Proof.
  induction globs as [|[pattern folder] globs IH]; simpl.
  { split; [done|]. by intros (_ & [|??] & ? & ? & ? & ? & _). }
  destruct (empty_pattern pattern) eqn:Hp.
  - split.
    + intros [= <-]. split; [done|]. by exists [], pattern, folder, globs.
    + intros (-> & _). done.
  - destruct (path_match path pattern) eqn:Hm.
    + split; [done|].
      intros (_ & [|[p f] pre] & pattern' & folder' & post & Hsplit & Hp' & Hpre);
        simplify_eq/=; [congruence|].
      inversion Hpre as [|?? [_ Hno] _]; simplify_eq/=. congruence.
    + rewrite IH. split.
      * intros (-> & pre & pattern' & folder' & post & -> & Hp' & Hpre).
        split; [done|]. exists ((pattern, folder) :: pre), pattern', folder', post.
        split; [done|]. split; [done|]. by constructor.
      * intros (-> & [|[p f] pre] & pattern' & folder' & post & Hsplit & Hp' & Hpre);
          simplify_eq/=; [congruence|].
        inversion Hpre; subst. split; [done|]. by exists pre, pattern', folder', post.
Qed.

Lemma first_mime_find mime mimes :
  first_mime mime mimes
  = snd <$> List.find (fun '(prefix, _) => Str.startswith mime prefix) mimes.
Proof.
  induction mimes as [|[prefix folder] mimes IH]; simpl; [done|].
  by destruct (Str.startswith mime prefix).
Qed.

Lemma match_folder_for_ok_inv rules path m :
  match_folder_for rules path = Ok m → m = described_match rules path.
Proof.
  unfold match_folder_for, described_match.
  destruct (by_extension rules !! _); [by intros [= <-]|].
  destruct (first_glob path (by_glob rules)) as [o|e] eqn:Hglob; [|done].
  apply first_glob_ok_inv in Hglob.
  destruct (List.find _ (by_glob rules)) as [[??]|]; simpl in Hglob; subst o.
  { by intros [= <-]. }
  destruct (guess_type _); [|by intros [= <-]].
  destruct (Str.truthy _); intros [= <-]; [apply first_mime_find|done].
Qed.

Lemma match_folder_for_ok rules path :
  patterns_ok rules → match_folder_for rules path = Ok (described_match rules path).
Proof.
  intros Hok. unfold match_folder_for, described_match.
  destruct (by_extension rules !! _); [done|].
  rewrite (first_glob_ok _ _ Hok).
  destruct (List.find _ (by_glob rules)) as [[??]|]; simpl; [done|].
  destruct (guess_type _); [|done].
  destruct (Str.truthy _); [|done]. by rewrite first_mime_find.
Qed.


(** C4, as the code has it. The folder of a file is that of the first rule
    that matches, trying the lower-cased extension (with its dot) in the
    extension map, then the glob patterns in declared order, then the MIME
    prefixes in declared order against the type guessed from the file name;
    the unknown folder is used when no rule matches and also when the rule
    that matches names an empty folder. Classification gives a folder
    whenever no glob pattern is empty; it fails, with the [ValueError] of
    [PurePath.match], exactly when the extension has no rule and an empty
    pattern is reached before any pattern matches. *)
Theorem classification_first_match_or_unknown (rules : Rules) (path : Path) :
  (patterns_ok rules →
   match_folder_for rules path = Ok (described_match rules path)
   ∧ classification_folder rules path
     = Ok (match described_match rules path with
           | Some folder => if String.eqb folder "" then unknown_folder rules else folder
           | None => unknown_folder rules
           end))
  ∧ (∀ folder, classification_folder rules path = Ok folder →
       match_folder_for rules path = Ok (described_match rules path)
       ∧ folder = match described_match rules path with
                  | Some folder => if String.eqb folder "" then unknown_folder rules else folder
                  | None => unknown_folder rules
                  end)
  ∧ (∀ e, classification_folder rules path = Raise e
          ↔ e = ValueError "empty pattern"
            ∧ by_extension rules !! str_lower (PurePath.suffix path) = None
            ∧ ∃ pre pattern folder post,
                by_glob rules = pre ++ (pattern, folder) :: post
                ∧ empty_pattern pattern = true
                ∧ Forall (fun pf : string * string =>
                            empty_pattern pf.1 = false ∧ path_match path pf.1 = false) pre).
Proof.
  assert (∀ m, match_folder_for rules path = Ok m →
    classification_folder rules path
    = Ok (match m with
          | Some folder => if String.eqb folder "" then unknown_folder rules else folder
          | None => unknown_folder rules
          end)) as Hfolder.
  { intros m Hm. unfold classification_folder. rewrite Hm.
    destruct m as [folder|]; [|done]. unfold Str.truthy.
    by destruct (String.eqb folder ""). }
  split; [|split].
  - intros Hok. pose proof (match_folder_for_ok rules path Hok) as Hm.
    split; [done|]. by apply Hfolder.
  - intros folder Hrun.
    assert (∃ m, match_folder_for rules path = Ok m) as [m Hm].
    { unfold classification_folder in Hrun.
      destruct (match_folder_for rules path) as [m|]; [eauto|done]. }
    pose proof (match_folder_for_ok_inv _ _ _ Hm) as ->.
    split; [done|]. rewrite (Hfolder _ Hm) in Hrun. by injection Hrun as <-.
  - intros e.
    assert (classification_folder rules path = Raise e
            ↔ match_folder_for rules path = Raise e) as ->.
    { unfold classification_folder.
      destruct (match_folder_for rules path) as [[?|]|?]; split; congruence. }
    unfold match_folder_for.
    destruct (by_extension rules !! _).
    { split; [done|]. by intros (_ & ? & _). }
    pose proof (first_glob_raise path (by_glob rules) e) as Hraise.
    destruct (first_glob path (by_glob rules)) as [[?|]|e'].
    + split; [done|]. intros (He & _ & Hex). by apply Hraise.
    + split.
      * destruct (guess_type _); [destruct (Str.truthy _)|]; done.
      * intros (He & _ & Hex). exfalso. assert (Ok None = Raise e) by (by apply Hraise).
        done.
    + split.
      * intros Hr. apply Hraise in Hr as [-> Hex]. done.
      * intros (He & _ & Hex). by apply Hraise.
Qed.

Lemma lift_run {A} (r : res A) w : lift r w = (r, w).
Proof. done. Qed.


(** What [compute_destination] returns once its look-ups return. *)
Lemma compute_destination_joined w path dest_root rules st folder ds bucket :
  os_stat path w = (Ok st, w) →
  classification_folder rules path = Ok folder →
  (enabled (by_date rules) = true → date_parts rules (st_mtime st) = Ok ds) →
  match_size_bucket rules (st_size st) = Ok bucket →
  compute_destination path dest_root rules w
  = (Ok (PurePath.joinpath dest_root
           (option_list bucket
            ++ (if enabled (by_date rules) then base_folder (by_date rules) :: ds else [])
            ++ [folder; PurePath.name path])), w).
Proof.
  intros Hst Hfolder Hdate Hbucket.
  unfold compute_destination, file_mtime.
  rewrite (run_lift_ok _ _ _ _ Hfolder).
  assert ((if enabled (by_date rules)
           then ts ← (st ← os_stat path; mret (st_mtime st));
                ds ← lift (date_parts rules ts);
                mret ([base_folder (by_date rules)] ++ ds ++ [folder])
           else mret [folder]) w
          = (Ok ((if enabled (by_date rules)
                  then base_folder (by_date rules) :: ds else []) ++ [folder]), w))
    as Hsegs.
  { destruct (enabled (by_date rules)); [|done].
    assert ((st ← os_stat path; mret (st_mtime st)) w = (Ok (st_mtime st), w)) as Hts
      by (by rewrite (run_bind_ok _ _ _ _ _ Hst)).
    rewrite (run_bind_ok _ _ _ _ _ Hts), (run_lift_ok _ _ _ _ (Hdate eq_refl)). done. }
  rewrite (run_bind_ok _ _ _ _ _ Hsegs), (run_bind_ok _ _ _ _ _ Hst),
    (run_lift_ok _ _ _ _ Hbucket).
  unfold mret, M_ret. f_equal. f_equal.
  destruct bucket as [b|]; simpl;
    [destruct (Str.truthy b) eqn:Hb;
     [|apply negb_false_iff, String.eqb_eq in Hb; subst b]|];
    unfold PurePath.joinpath; simpl; rewrite ?fold_left_app; done.
Qed.


End Resolver.

Lemma classification_first_match_or_unknown_witness :
  match_folder_for (H := Scenario.machine) Scenario.photo_rules (PurePath.parse "photo.JPG")
  = Ok (Some "Images")
  ∧ classification_folder (H := Scenario.machine) Scenario.photo_rules
      (PurePath.parse "photo.JPG")
    = Ok "Images".
Proof.
  apply (proj1 (@classification_first_match_or_unknown Scenario.machine
                  Scenario.photo_rules (PurePath.parse "photo.JPG"))).
  constructor.
Defined.


(** C4, as stated, fails in two places. Where a rule names an empty folder:
    under [{by_extension: {".jpg": ""}}] the first match for [photo.jpg] is
    the extension rule, whose folder is empty, and the code files it under
    the unknown folder. And classification can fail: under
    [{by_glob: {"": "Anything"}}] matching the empty pattern raises
    [ValueError]. *)
Lemma classification_empty_folder_not_first_match :
  described_folder (H := Scenario.machine) Scenario.blank_rules (PurePath.parse "photo.jpg") = ""
  ∧ classification_folder (H := Scenario.machine) Scenario.blank_rules (PurePath.parse "photo.jpg")
    = Ok "Others"
  ∧ classification_folder (H := Scenario.machine) Scenario.empty_glob_rules
      (PurePath.parse "notes.txt")
    = Raise (ValueError "empty pattern").
Proof. repeat split; reflexivity. Qed.

(** ** Which exceptions a computation can raise *)

Section RaisesOnly.
Context (ok : exn → Prop).

Lemma ro_ret {A} (a : A) : raises_only ok (mret a).
Proof. by intros w e w'. Qed.

Lemma ro_raise {A} e : ok e → raises_only ok (@raise A e).
Proof. intros Hok w e' w'. unfold raise. by intros [= <- _]. Qed.

Lemma ro_bind {A B} (m : M A) (k : A → M B) :
  raises_only ok m → (∀ a, raises_only ok (k a)) → raises_only ok (m ≫= k).
Proof.
  intros Hm Hk w e w'. unfold mbind, M_bind.
  destruct (m w) as [[a|e0] w0] eqn:Em.
  - apply Hk.
  - intros [= <- _]. by apply (Hm _ _ _ Em).
Qed.

Lemma ro_get_disk : raises_only ok get_disk.
Proof. by intros w e w'. Qed.

Lemma ro_put_disk d : raises_only ok (put_disk d).
Proof. by intros w e w'. Qed.

Lemma ro_log_fn line : raises_only ok (log_fn line).
Proof. by intros w e w'. Qed.

Lemma ro_try {A} (m h : M A) :
  raises_only ok m → raises_only ok h → raises_only ok (try_except_OSError m h).
Proof.
  intros Hm Hh w e w'. unfold try_except_OSError.
  destruct (m w) as [[a|e0] w0] eqn:Em; [done|].
  destruct (is_OSError e0).
  - apply Hh.
  - intros [= <- _]. by apply (Hm _ _ _ Em).
Qed.

Lemma ro_lift {A} (r : res A) :
  (∀ e, r = Raise e → ok e) → raises_only ok (lift r).
Proof. intros Hr w e w'. unfold lift. intros [= -> _]. by apply Hr. Qed.

End RaisesOnly.

Lemma os_or_diverges_no_entry d p : os_or_diverges (no_entry d p).
Proof. unfold no_entry. by destruct (Disk.blocked _ _). Qed.

(** One step of a proof that a computation raises only what [ok] allows:
    the monad's own operations, then a case split on what the code tests. *)
Ltac ro_step :=
  lazymatch goal with
  | |- raises_only _ (mret _) => apply ro_ret
  | |- raises_only _ (raise _) =>
      apply ro_raise; first [done | apply os_or_diverges_no_entry]
  | |- raises_only _ (_ ≫= _) => apply ro_bind; [|intros ?]
  | |- raises_only _ get_disk => apply ro_get_disk
  | |- raises_only _ (put_disk _) => apply ro_put_disk
  | |- raises_only _ (log_fn _) => apply ro_log_fn
  | |- raises_only _ (try_except_OSError _ _) => apply ro_try
  | |- raises_only _ (match ?x with _ => _ end) => destruct x
  end.

Ltac ro := repeat ro_step.

Section OrganizeRaises.
Context `{Platform}.

Lemma ro_os_stat p : raises_only os_or_diverges (os_stat p).
Proof. unfold os_stat. ro. Qed.

Lemma ro_read_file p : raises_only os_or_diverges (read_file p).
Proof. unfold read_file. ro. Qed.

Lemma ro_write_text p text : raises_only os_or_diverges (write_text p text).
Proof. unfold write_text. ro. Qed.

Lemma ro_os_link a b : raises_only os_or_diverges (os_link a b).
Proof. unfold os_link. ro. Qed.

Lemma ro_shutil_copy2 a b : raises_only os_or_diverges (shutil_copy2 a b).
Proof. unfold shutil_copy2. ro. Qed.

Lemma ro_shutil_move a b : raises_only os_or_diverges (shutil_move a b).
Proof. unfold shutil_move. ro. Qed.

Lemma ro_ensure_dir p : raises_only os_or_diverges (ensure_dir p).
Proof. unfold ensure_dir. ro. Qed.

Lemma ro_next_nonconflicting_name p :
  raises_only os_or_diverges (next_nonconflicting_name p).
Proof. unfold next_nonconflicting_name. ro. Qed.

Lemma ro_safe_link_or_copy a b mode :
  raises_only os_or_diverges (safe_link_or_copy a b mode).
Proof.
  unfold safe_link_or_copy. ro;
    first [apply ro_next_nonconflicting_name | apply ro_os_link
          | apply ro_shutil_copy2 | apply ro_shutil_move].
Qed.

Lemma classification_folder_raises rules path e :
  classification_folder rules path = Raise e → os_or_diverges e.
Proof.
  unfold classification_folder, match_folder_for.
  destruct (by_extension rules !! _); [done|].
  destruct (first_glob path (by_glob rules)) as [[?|]|e'] eqn:Hglob; [done| |].
  - destruct (guess_type _); [destruct (Str.truthy _); [destruct (first_mime _ _)|]|];
      done.
  - intros [= <-]. by apply first_glob_raise in Hglob as [-> _].
Qed.

Lemma date_parts_raises rules ts e :
  date_parts rules ts = Raise e → os_or_diverges e.
Proof.
  unfold date_parts. destruct (fromtimestamp ts) as [dt|[]]; [done|..];
    by intros [= <-].
Qed.

Lemma match_size_bucket_raises rules size e :
  match_size_bucket rules size = Raise e → os_or_diverges e.
Proof.
  unfold match_size_bucket, megabytes.
  destruct (size_buckets rules); [done|].
  destruct (_ <? _)%N; [done|]. by intros [= <-].
Qed.

Lemma ro_compute_destination path dest_root rules :
  raises_only os_or_diverges (compute_destination path dest_root rules).
Proof.
  unfold compute_destination, file_mtime.
  repeat first
    [ apply ro_os_stat
    | apply ro_lift; first [apply classification_folder_raises
                           | apply date_parts_raises | apply match_size_bucket_raises]
    | ro_step ].
Qed.

Lemma ro_place_file dest_root rules mode dry_run st f dst h :
  raises_only os_or_diverges (place_file dest_root rules mode dry_run st f dst h).
Proof.
  unfold place_file. ro;
    first [apply ro_next_nonconflicting_name | apply ro_ensure_dir
          | apply ro_safe_link_or_copy].
Qed.

Lemma ro_organize_file dest_root rules mode dry_run st f :
  raises_only os_or_diverges (organize_file dest_root rules mode dry_run st f).
Proof.
  unfold organize_file, hash_file. ro;
    first [apply ro_compute_destination | apply ro_read_file | apply ro_place_file].
Qed.

Lemma ro_organize_loop dest_root rules mode dry_run files st :
  raises_only os_or_diverges (organize_loop dest_root rules mode dry_run files st).
Proof.
  revert st. induction files as [|f files IH]; intros st; simpl; ro.
  - apply ro_organize_file.
  - apply IH.
Qed.

End OrganizeRaises.

(** ** The checks of [organize] *)

Lemma strip_prefix_self l : PurePath.strip_prefix l l = Some [].
Proof. induction l as [|x l IH]; simpl; [done|]. by rewrite String.eqb_refl. Qed.

Lemma relative_to_self r : PurePath.relative_to r r = Some (mkPath "" []).
Proof.
  unfold PurePath.relative_to. by rewrite String.eqb_refl, strip_prefix_self.
Qed.

Section Checks.
Context `{Platform}.

Lemma within_dir_same child parent_ r :
  resolve child = Some r → resolve parent_ = Some r → within_dir child parent_ = true.
Proof.
  intros Hc Hp. unfold within_dir. by rewrite Hc, Hp, relative_to_self.
Qed.

Lemma ro_organize_run tree src_root dest_root rules mode dry_run undo_manifest :
  raises_only os_or_diverges
    (organize_run tree src_root dest_root rules mode dry_run undo_manifest).
Proof.
  unfold organize_run. ro;
    first [apply ro_organize_loop | apply ro_ensure_dir | apply ro_write_text].
Qed.

Lemma organize_rejects_inside tree src_root dest_root rules mode dry_run
  undo_manifest w :
  Disk.exists_ (disk w) src_root = true →
  within_dir dest_root src_root = true →
  organize tree src_root dest_root rules mode dry_run undo_manifest w
  = (Raise (RuntimeError "Destination directory cannot be inside the source directory."), w).
Proof. intros He Hin. unfold organize. mrun. by rewrite He, Hin. Qed.

Lemma organize_passes_checks tree src_root dest_root rules mode dry_run
  undo_manifest w :
  Disk.exists_ (disk w) src_root = true →
  within_dir dest_root src_root = false →
  is_Some (resolve src_root) → is_Some (resolve dest_root) →
  organize tree src_root dest_root rules mode dry_run undo_manifest w
  = organize_run tree src_root dest_root rules mode dry_run undo_manifest w.
Proof.
  intros He Hin [s Hs] [t Ht]. unfold organize, resolve_.
  rewrite run_get_disk, He, Hin, Hs, Ht. cbn [negb]. mrun.
  rewrite bool_decide_eq_false_2; [done|].
  intros ->. by rewrite (within_dir_same _ _ t) in Hin.
Qed.

(** C6, as the code has it. [organize] checks before it walks or touches
    anything: a source path that does not exist raises the not-found error,
    a destination inside the source or equal to it raises the configuration
    error, and in each case the disk and the log are as they were: nothing
    is moved, copied, linked or recorded and no manifest is written. Nothing
    else is checked: a source that exists, be it a directory or a regular
    file, with a destination outside it, goes on to the run. *)
Theorem organize_validates_before_acting (tree : dtree) (src_root dest_root : Path)
  (rules : Rules) (mode : string) (dry_run : bool) (undo_manifest : option Path)
  (w : world) :
  (Disk.exists_ (disk w) src_root = false →
   organize tree src_root dest_root rules mode dry_run undo_manifest w
   = (Raise (FileNotFoundError ("Source folder not found: " +:+ PurePath.str src_root)), w))
  ∧ (Disk.exists_ (disk w) src_root = true →
     within_dir dest_root src_root = true →
     organize tree src_root dest_root rules mode dry_run undo_manifest w
     = (Raise (RuntimeError "Destination directory cannot be inside the source directory."), w))
  ∧ (Disk.exists_ (disk w) src_root = true →
     ∀ r, resolve src_root = Some r → resolve dest_root = Some r →
     organize tree src_root dest_root rules mode dry_run undo_manifest w
     = (Raise (RuntimeError "Destination directory cannot be inside the source directory."), w))
  ∧ (Disk.exists_ (disk w) src_root = true →
     within_dir dest_root src_root = false →
     is_Some (resolve src_root) → is_Some (resolve dest_root) →
     organize tree src_root dest_root rules mode dry_run undo_manifest w
     = organize_run tree src_root dest_root rules mode dry_run undo_manifest w).
Proof.
  split; [|split; [|split]].
  - intros He. unfold organize. mrun. by rewrite He.
  - apply organize_rejects_inside.
  - intros He r Hs Hd. apply organize_rejects_inside; [done|].
    by apply (within_dir_same _ _ r).
  - by apply organize_passes_checks.
Qed.

(** C10. Two paths that resolve to the same directory are within one
    another, so when the destination equals the source [organize] raises at
    the check for a destination inside the source; the check that follows
    ("Destination must differ from source.") is never the one that raises,
    whatever the input. *)
Theorem within_dir_reflexive_equality_check_dead :
  (∀ child parent_ r,
     resolve child = Some r → resolve parent_ = Some r →
     within_dir child parent_ = true)
  ∧ (∀ tree src_root dest_root rules mode dry_run undo_manifest w r,
       Disk.exists_ (disk w) src_root = true →
       resolve src_root = Some r → resolve dest_root = Some r →
       organize tree src_root dest_root rules mode dry_run undo_manifest w
       = (Raise (RuntimeError "Destination directory cannot be inside the source directory."),
          w))
  ∧ (∀ tree src_root dest_root rules mode dry_run undo_manifest w,
       (organize tree src_root dest_root rules mode dry_run undo_manifest w).1
       ≠ Raise (RuntimeError "Destination must differ from source.")).
Proof.
  split; [apply within_dir_same|split].
  { intros tree src_root dest_root rules mode dry_run undo_manifest w r He Hs Hd.
    apply organize_rejects_inside; [done|]. by apply (within_dir_same _ _ r). }
  intros tree src_root dest_root rules mode dry_run undo_manifest w.
  unfold organize, resolve_. mrun.
  destruct (Disk.exists_ (disk w) src_root); simpl; [|done].
  destruct (within_dir dest_root src_root) eqn:Hin; simpl; [done|].
  destruct (resolve src_root) as [s|] eqn:Hs; simpl; [|done].
  destruct (resolve dest_root) as [t|] eqn:Ht; simpl; [|done].
  case_bool_decide as Hst; simpl.
  - subst t. by rewrite (within_dir_same _ _ s) in Hin.
  - destruct (organize_run _ _ _ _ _ _ _ w) as [[a|e] w'] eqn:Hrun; simpl; [done|].
    apply ro_organize_run in Hrun. intros [= ->]. done.
Qed.

End Checks.

Lemma organize_validates_before_acting_witness :
  organize (H := Scenario.machine) Scenario.single_tree Scenario.src_root
    (Scenario.src_root // "sorted") Scenario.defaults "move" false None
    (mkWorld Scenario.single_disk [])
  = (Raise (RuntimeError "Destination directory cannot be inside the source directory."),
     mkWorld Scenario.single_disk []).
Proof.
  apply (proj1 (proj2 (@organize_validates_before_acting Scenario.machine
    Scenario.single_tree Scenario.src_root (Scenario.src_root // "sorted")
    Scenario.defaults "move" false None (mkWorld Scenario.single_disk []))));
    reflexivity.
Defined.

(** C6, as stated, fails for a source that is a regular file: the check is
    that the source exists, not that it is a directory. With [src/a.txt] as
    source no error is raised; the walk finds nothing, nothing is recorded,
    and the manifest is written. *)
Lemma organize_accepts_file_as_source :
  Disk.is_dir Scenario.single_disk (Scenario.src_root // "a.txt") = false
  ∧ (organize (H := Scenario.machine) (Tree [] []) (Scenario.src_root // "a.txt")
       Scenario.dest_root Scenario.defaults "move" false
       (Some (PurePath.parse "manifest.json")) (mkWorld Scenario.single_disk [])).1
    = Ok []
  ∧ Disk.exists_ Scenario.single_disk (PurePath.parse "manifest.json") = false
  ∧ Disk.exists_
      (disk (organize (H := Scenario.machine) (Tree [] []) (Scenario.src_root // "a.txt")
               Scenario.dest_root Scenario.defaults "move" false
               (Some (PurePath.parse "manifest.json")) (mkWorld Scenario.single_disk [])).2)
      (PurePath.parse "manifest.json") = true.
Proof. repeat split; by vm_compute. Qed.

Lemma within_dir_reflexive_equality_check_dead_witness :
  within_dir (H := Scenario.machine) Scenario.src_root Scenario.src_root = true.
Proof.
  apply (proj1 (@within_dir_reflexive_equality_check_dead Scenario.machine)
           Scenario.src_root Scenario.src_root Scenario.src_root);
    reflexivity.
Defined.

(** ** Dry runs *)

Lemma kd_ret {A} (a : A) : keeps_disk (mret a).
Proof. by intros w. Qed.

Lemma kd_raise {A} e : keeps_disk (@raise A e).
Proof. by intros w. Qed.

Lemma kd_bind {A B} (m : M A) (k : A → M B) :
  keeps_disk m → (∀ a, keeps_disk (k a)) → keeps_disk (m ≫= k).
Proof.
  intros Hm Hk w. unfold mbind, M_bind. specialize (Hm w).
  destruct (m w) as [[a|e] w0]; simpl in *; [|done]. by rewrite Hk.
Qed.

Lemma kd_get_disk : keeps_disk get_disk.
Proof. by intros w. Qed.

Lemma kd_log_fn line : keeps_disk (log_fn line).
Proof. by intros w. Qed.

Lemma kd_lift {A} (r : res A) : keeps_disk (lift r).
Proof. by intros w. Qed.

Ltac kd_step :=
  lazymatch goal with
  | |- keeps_disk (mret _) => apply kd_ret
  | |- keeps_disk (raise _) => apply kd_raise
  | |- keeps_disk (_ ≫= _) => apply kd_bind; [|intros ?]
  | |- keeps_disk get_disk => apply kd_get_disk
  | |- keeps_disk (log_fn _) => apply kd_log_fn
  | |- keeps_disk (lift _) => apply kd_lift
  | |- keeps_disk (if true then ?m else _) => change (keeps_disk m)
  | |- keeps_disk (if negb true then _ else ?m) => change (keeps_disk m)
  | |- keeps_disk (match ?x with _ => _ end) => destruct x
  end.

Ltac kd := repeat kd_step.

Section DryRun.
Context `{Platform}.

Lemma kd_os_stat p : keeps_disk (os_stat p).
Proof. unfold os_stat. kd. Qed.

Lemma kd_read_file p : keeps_disk (read_file p).
Proof. unfold read_file. kd. Qed.

Lemma kd_next_nonconflicting_name p : keeps_disk (next_nonconflicting_name p).
Proof. unfold next_nonconflicting_name. kd. Qed.

Lemma kd_compute_destination path dest_root rules :
  keeps_disk (compute_destination path dest_root rules).
Proof. unfold compute_destination, file_mtime. kd; apply kd_os_stat. Qed.

Lemma kd_place_file dest_root rules mode st f dst h :
  keeps_disk (place_file dest_root rules mode true st f dst h).
Proof. unfold place_file. kd. apply kd_next_nonconflicting_name. Qed.

Lemma kd_organize_file dest_root rules mode st f :
  keeps_disk (organize_file dest_root rules mode true st f).
Proof.
  unfold organize_file, hash_file. kd;
    first [apply kd_compute_destination | apply kd_read_file | apply kd_place_file].
Qed.

Lemma kd_organize_loop dest_root rules mode files st :
  keeps_disk (organize_loop dest_root rules mode true files st).
Proof.
  revert st. induction files as [|f files IH]; intros st; simpl; kd.
  - apply kd_organize_file.
  - apply IH.
Qed.

Lemma kd_organize tree src_root dest_root rules mode undo_manifest :
  keeps_disk (organize tree src_root dest_root rules mode true undo_manifest).
Proof.
  unfold organize, organize_run, resolve_. kd. apply kd_organize_loop.
Qed.

End DryRun.

Section DryRunPlan.
Context `{Platform}.







End DryRunPlan.

Section DryRunClaim.
Context `{Platform}.


End DryRunClaim.



(** ** Duplicates under the hardlink policy *)

(** C2 on three files of the same bytes under the hardlink policy: the
    index entry of the fingerprint is overwritten by each duplicate (line
    101 runs for it too), so the third file is sent to the name of the
    second, [dest/Dupes/b.txt], not to that of the first. *)
Theorem hardlink_third_duplicate_named_after_second :
  (organize (H := Scenario.machine) Scenario.triple_tree Scenario.src_root
     Scenario.dest_root (Scenario.with_duplicates "hardlink" "Dupes" Scenario.defaults)
     "hardlink" true None (mkWorld Scenario.triple_disk [])).1
  = Ok [mkMoveResult "src/a.txt" "dest/Others/a.txt" "plan-hardlink";
        mkMoveResult "src/b.txt" "dest/Dupes/a.txt" "plan-hardlink";
        mkMoveResult "src/c.txt" "dest/Dupes/b.txt" "plan-hardlink"]
  ∧ (organize (H := Scenario.machine) Scenario.triple_tree Scenario.src_root
       Scenario.dest_root (Scenario.with_duplicates "hardlink" "Dupes" Scenario.defaults)
       "hardlink" false None (mkWorld Scenario.triple_disk [])).1
    = Ok [mkMoveResult "src/a.txt" "dest/Others/a.txt" "hardlink";
          mkMoveResult "src/b.txt" "dest/Dupes/a.txt" "hardlink";
          mkMoveResult "src/c.txt" "dest/Dupes/b.txt" "hardlink"]
  ∧ match (organize_loop (H := Scenario.machine) Scenario.dest_root
             (Scenario.with_duplicates "hardlink" "Dupes" Scenario.defaults) "hardlink" true
             [Scenario.src_root // "a.txt"; Scenario.src_root // "b.txt"]
             (mkLoop [] ∅) (mkWorld Scenario.triple_disk [])).1 with
    | Ok st => seen_hashes st !! "same bytes" = Some (Scenario.src_root // "b.txt")
    | Raise _ => False
    end.
Proof. vm_compute. done. Qed.

(** C3 on one file, moved under the hardlink policy: the file has no
    duplicate, the caller asks for a move, the dry run plans a move, and the
    run hard-links it and leaves the source in place. Under the separate
    policy the same call moves it. *)
Theorem hardlink_policy_overrides_requested_move :
  let run policy dry :=
    organize (H := Scenario.machine) Scenario.single_tree Scenario.src_root
      Scenario.dest_root (Scenario.with_duplicates policy "Duplicates" Scenario.defaults)
      "move" dry None (mkWorld Scenario.single_disk []) in
  (run "hardlink" false).1 = Ok [mkMoveResult "src/a.txt" "dest/Others/a.txt" "hardlink"]
  ∧ Disk.exists_ (disk (run "hardlink" false).2) (Scenario.src_root // "a.txt") = true
  ∧ (run "hardlink" true).1 = Ok [mkMoveResult "src/a.txt" "dest/Others/a.txt" "plan-move"]
  ∧ (run "separate" false).1 = Ok [mkMoveResult "src/a.txt" "dest/Others/a.txt" "move"]
  ∧ Disk.exists_ (disk (run "separate" false).2) (Scenario.src_root // "a.txt") = false.
Proof. vm_compute. done. Qed.

(** ** Names made by the conflict namer stay in the directory *)

Lemma parent_candidate dst n :
  plain_parts dst → PurePath.parent (candidate dst n) = PurePath.parent dst.
Proof.
  intros Hp. unfold candidate. rewrite div_plain.
  - unfold PurePath.parent at 1. simpl. by rewrite removelast_last.
  - apply plain_app; [by apply plain_stem|].
    apply (plain_app "("); [done|]. apply plain_app; [apply plain_dec|].
    apply (plain_app ")"); [done|]. by apply plain_suffix.
  - apply keep_part_paren.
Qed.

Lemma probe_candidate d dst fuel i p :
  probe d dst fuel i = Some p → ∃ n, p = candidate dst n.
Proof.
  revert i. induction fuel as [|fuel IH]; intros i; simpl; [done|].
  destruct (Disk.exists_ d (candidate dst i)); [apply IH|].
  intros [= <-]. eauto.
Qed.

Lemma parent_free_name d dst p :
  plain_parts dst → free_name d dst = Some p →
  PurePath.parent p = PurePath.parent dst.
Proof.
  intros Hp. unfold free_name. destruct (Disk.exists_ d dst); cbn [negb].
  - intros [n ->]%probe_candidate. by apply parent_candidate.
  - by intros [= <-].
Qed.

(** ** [ensure_dir] *)

Lemma mkdirs_keeps st d ps d' k n :
  Disk.mkdirs st d ps = Some d' → d !! k = Some n → d' !! k = Some n.
Proof.
  revert d. induction ps as [|p ps IH]; intros d; simpl; [by intros [= <-]|].
  destruct (d !! p) as [[]|] eqn:Hp; simpl; [by intros ?|by apply IH|].
  intros Hd Hk. apply (IH _ Hd). rewrite lookup_insert_ne; [done|]. congruence.
Qed.

Lemma mkdirs_makes st d ps d' p :
  Disk.mkdirs st d ps = Some d' → p ∈ ps → Disk.is_dir d' p = true.
Proof.
  revert d. induction ps as [|q ps IH]; intros d Hd Hin; [by apply elem_of_nil in Hin|].
  apply elem_of_cons in Hin as [->|Hin]; simpl in Hd.
  - unfold Disk.is_dir. destruct (d !! q) as [[|st']|] eqn:Hq; [done| |].
    + by rewrite (mkdirs_keeps _ _ _ _ _ _ Hd Hq).
    + rewrite (mkdirs_keeps _ _ _ _ q (NDir st) Hd); [done|]. by rewrite lookup_insert_eq.
  - destruct (d !! q) as [[]|]; [done|by apply (IH d)|by apply (IH _ Hd)].
Qed.

Lemma chain_self p : parts p ≠ [] → p ∈ Disk.chain p.
Proof.
  intros Hne. unfold Disk.chain. apply list_elem_of_fmap.
  exists (length (parts p)). split.
  - rewrite firstn_all. by destruct p.
  - apply elem_of_seq. destruct (parts p); [done|]. simpl. lia.
Qed.

(** ** Undo *)

Lemma bind_ok_inv {A B} (m : M A) (k : A → M B) w b w' :
  (m ≫= k) w = (Ok b, w') → ∃ a w0, m w = (Ok a, w0) ∧ k a w0 = (Ok b, w').
Proof.
  unfold mbind, M_bind. destruct (m w) as [[a|e] w0]; [eauto|done].
Qed.

Lemma bind_raise_inv {A B} (m : M A) (k : A → M B) w e w' :
  (m ≫= k) w = (Raise e, w') →
  m w = (Raise e, w') ∨ ∃ a w0, m w = (Ok a, w0) ∧ k a w0 = (Raise e, w').
Proof.
  unfold mbind, M_bind. destruct (m w) as [[a|e0] w0]; [eauto|].
  intros [= -> ->]. by left.
Qed.

Section Undo.
Context `{Platform}.

Lemma ensure_dir_not_found p : raises_only not_found_free (ensure_dir p).
Proof. unfold ensure_dir. ro. Qed.

Lemma next_nonconflicting_name_not_found p :
  raises_only not_found_free (next_nonconflicting_name p).
Proof. unfold next_nonconflicting_name. ro. Qed.

Lemma ensure_dir_ok_inv p w a w1 :
  ensure_dir p w = (Ok a, w1) →
  ∃ d', Disk.mkdirs (mkStat dir_size clock) (disk w) (Disk.chain p) = Some d'
        ∧ w1 = mkWorld d' (out w).
Proof.
  unfold ensure_dir. rewrite run_get_disk.
  destruct (Disk.mkdirs _ _ _) as [d'|]; [|by destruct (Disk.blocked _ _)].
  intros [= _ <-]. eauto.
Qed.

Lemma next_nonconflicting_name_ok_inv dst w p w1 :
  next_nonconflicting_name dst w = (Ok p, w1) →
  w1 = w ∧ free_name (disk w) dst = Some p.
Proof.
  unfold next_nonconflicting_name. rewrite run_get_disk.
  destruct (free_name _ _); [|done]. by intros [= -> ->].
Qed.

Lemma mkdirs_exists st d ps d' k :
  Disk.mkdirs st d ps = Some d' → Disk.exists_ d k = true → Disk.exists_ d' k = true.
Proof.
  intros Hmk. unfold Disk.exists_.
  destruct (d !! k) as [n|] eqn:Hk.
  - by rewrite (mkdirs_keeps _ _ _ _ _ _ Hmk Hk).
  - intros ->. by destruct (d' !! k).
Qed.

Lemma os_replace_not_found src_ dst_ w e w' :
  Disk.exists_ (disk w) src_ = true → Disk.parent_ready (disk w) dst_ = true →
  os_replace src_ dst_ w = (Raise e, w') → not_found_free e.
Proof.
  intros Hex Hready. unfold os_replace. rewrite run_get_disk.
  unfold Disk.exists_ in Hex. destruct (disk w !! src_) as [n|].
  - rewrite Hready. cbn [negb].
    repeat (match goal with |- context [if ?b then _ else _] => destruct b end);
      by intros [= <- _].
  - rewrite Hex. by intros [= <- _].
Qed.

(** A renamed file is at its new name and no more at the old one. *)
Lemma os_replace_file src_ dst_ w st data a w' :
  disk w !! src_ = Some (NFile st data) →
  os_replace src_ dst_ w = (Ok a, w') →
  disk w' = <[dst_ := NFile st data]> (delete src_ (disk w)).
Proof.
  intros Hsrc. unfold os_replace. rewrite run_get_disk, Hsrc.
  repeat (match goal with |- context [if ?b then _ else _] => destruct b end);
    try done.
  unfold put_disk. intros [= _ <-]. simpl. unfold Disk.rename_tree. by rewrite Hsrc.
Qed.

(** After [ensure_dir] on the parent, any name the namer finds for a parsed
    path has its directory in place. *)
Lemma parent_ready_after_ensure_dir d d1 s final :
  Disk.mkdirs (mkStat dir_size clock) d
    (Disk.chain (PurePath.parent (PurePath.parse s))) = Some d1 →
  free_name d1 (PurePath.parse s) = Some final →
  Disk.parent_ready d1 final = true.
Proof.
  intros Hmk Hfree. unfold Disk.parent_ready.
  rewrite (parent_free_name _ _ _ (plain_parts_parse s) Hfree).
  destruct (parts (PurePath.parent (PurePath.parse s))) eqn:Hparts; [done|].
  apply (mkdirs_makes _ _ _ _ _ Hmk). apply chain_self. by rewrite Hparts.
Qed.

Lemma undo_loop_skip rec rest undone w :
  Disk.exists_ (disk w) (PurePath.parse (dst rec)) = false →
  undo_loop (rec :: rest) undone w
  = undo_loop rest undone (mkWorld (disk w) (out w ++ [missing_line rec])).
Proof.
  intros Hmiss. cbn [undo_loop]. rewrite run_get_disk, Hmiss. done.
Qed.

Lemma undo_loop_not_found ops undone w e w' :
  undo_loop ops undone w = (Raise e, w') → not_found_free e.
Proof.
  revert undone w. induction ops as [|rec rest IH]; intros undone w; [done|].
  destruct (Disk.exists_ (disk w) (PurePath.parse (dst rec))) eqn:Hex.
  - cbn [undo_loop]. rewrite run_get_disk, Hex. cbn [negb].
    intros [Hrun|(a & w1 & Hmk & Hrun)]%bind_raise_inv.
    { by apply ensure_dir_not_found in Hrun. }
    apply ensure_dir_ok_inv in Hmk as (d1 & Hmk & ->).
    apply bind_raise_inv in Hrun as [Hrun|(final & w2 & Hname & Hrun)].
    { by apply next_nonconflicting_name_not_found in Hrun. }
    apply next_nonconflicting_name_ok_inv in Hname as [-> Hfree]. simpl in Hfree.
    apply bind_raise_inv in Hrun as [Hrun|(? & w3 & Hrep & Hrun)].
    { apply os_replace_not_found in Hrun; [done| |]; simpl.
      - by apply (mkdirs_exists _ _ _ _ _ Hmk).
      - by apply (parent_ready_after_ensure_dir (disk w) d1 (src rec)). }
    apply bind_raise_inv in Hrun as [Hrun|(? & w4 & Hlog & Hrun)]; [done|].
    by apply IH in Hrun.
  - rewrite undo_loop_skip by done. apply IH.
Qed.

Lemma undo_loop_records ops undone0 w undone w' :
  undo_loop ops undone0 w = (Ok undone, w') →
  ∃ new, undone = undone0 ++ new
         ∧ Forall (fun r => action r = "undo") new
         ∧ (src <$> new)
             `sublist_of` ((fun rec => PurePath.str (PurePath.parse (dst rec))) <$> ops).
Proof.
  revert undone0 w. induction ops as [|rec rest IH]; intros undone0 w.
  - intros [= <- _]. exists []. by rewrite app_nil_r.
  - destruct (Disk.exists_ (disk w) (PurePath.parse (dst rec))) eqn:Hex.
    + cbn [undo_loop]. rewrite run_get_disk, Hex. cbn [negb].
      intros (a & w1 & _ & Hrun)%bind_ok_inv.
      apply bind_ok_inv in Hrun as (final & w2 & _ & Hrun).
      apply bind_ok_inv in Hrun as (? & w3 & _ & Hrun).
      apply bind_ok_inv in Hrun as (? & w4 & _ & Hrun).
      apply IH in Hrun as (new & -> & Hall & Hsub).
      eexists (_ :: new). rewrite <- app_assoc. split; [done|].
      split; [by constructor|]. rewrite !fmap_cons. by apply sublist_skip.
    + rewrite undo_loop_skip by done.
      intros (new & -> & Hall & Hsub)%IH. exists new. split; [done|].
      split; [done|]. rewrite fmap_cons. by apply sublist_cons.
Qed.

End Undo.

Section UndoClaim.
Context `{Platform}.

(** C5. [undo] raises the not-found error when the manifest does not exist,
    and in no other case. Otherwise it goes through the recorded operations
    last first. A record whose destination file is gone gets a warning in
    the log and is passed over, and the loop goes on with the rest. What
    [undo] returns is one ['undo'] record for each file it put back, in the
    order it went through them; a file put back is at its new name and no
    more at the old one. *)
Theorem undo_reverse_skips_missing (undo_manifest : Path) (w : world) :
  (Disk.exists_ (disk w) undo_manifest = false →
   undo undo_manifest w
   = (Raise (FileNotFoundError
               ("Undo manifest not found: " +:+ PurePath.str undo_manifest)), w))
  ∧ (∀ msg w', undo undo_manifest w = (Raise (FileNotFoundError msg), w') →
       Disk.exists_ (disk w) undo_manifest = false)
  ∧ (∀ st text ops,
       disk w !! undo_manifest = Some (NFile st text) → json_loads text = Some ops →
       undo undo_manifest w = undo_loop (rev ops) [] w)
  ∧ (∀ rec rest undone,
       Disk.exists_ (disk w) (PurePath.parse (dst rec)) = false →
       undo_loop (rec :: rest) undone w
       = undo_loop rest undone (mkWorld (disk w) (out w ++ [missing_line rec])))
  ∧ (∀ ops undone0 undone w',
       undo_loop ops undone0 w = (Ok undone, w') →
       ∃ new, undone = undone0 ++ new
              ∧ Forall (fun r => action r = "undo") new
              ∧ (src <$> new)
                  `sublist_of` ((fun rec => PurePath.str (PurePath.parse (dst rec))) <$> ops))
  ∧ (∀ rec rest undone st data w1 final w2,
       disk w !! PurePath.parse (dst rec) = Some (NFile st data) →
       ensure_dir (PurePath.parent (PurePath.parse (src rec))) w = (Ok tt, w1) →
       next_nonconflicting_name (PurePath.parse (src rec)) w1 = (Ok final, w1) →
       os_replace (PurePath.parse (dst rec)) final w1 = (Ok tt, w2) →
       disk w2 = <[final := NFile st data]> (delete (PurePath.parse (dst rec)) (disk w1))
       ∧ undo_loop (rec :: rest) undone w
         = undo_loop rest
             (undone ++ [mkMoveResult (PurePath.str (PurePath.parse (dst rec)))
                           (PurePath.str final) "undo"])
             (mkWorld (disk w2)
                (out w2 ++ ["↩️  UNDO: " +:+ PurePath.str (PurePath.parse (dst rec))
                            +:+ " -> " +:+ PurePath.str final]))).
Proof.
  split; [|split; [|split; [|split; [|split]]]].
  - intros Hmiss. unfold undo. by rewrite run_get_disk, Hmiss.
  - intros msg w'. unfold undo. rewrite run_get_disk.
    destruct (Disk.exists_ (disk w) undo_manifest) eqn:Hex; [|done]. cbn [negb].
    intros [Hread|(text & w1 & Hread & Hrun)]%bind_raise_inv.
    + revert Hread. unfold read_file. rewrite run_get_disk.
      unfold Disk.exists_ in Hex.
      destruct (disk w !! undo_manifest) as [[]|]; [done..|]. by rewrite Hex.
    + destruct (json_loads text); [|done].
      by apply undo_loop_not_found in Hrun.
  - intros st text ops Hfile Hjson.
    assert (read_file undo_manifest w = (Ok text, w)) as Hread.
    { unfold read_file. by rewrite run_get_disk, Hfile. }
    unfold undo. rewrite run_get_disk. unfold Disk.exists_. rewrite Hfile.
    cbn [negb]. by rewrite (run_bind_ok _ _ _ _ _ Hread), Hjson.
  - intros rec rest undone. apply undo_loop_skip.
  - intros ops undone0 undone w'. apply undo_loop_records.
  - intros rec rest undone st data w1 final w2 Hfile Hmk Hname Hrep.
    assert (disk w1 !! PurePath.parse (dst rec) = Some (NFile st data)) as Hfile1.
    { apply ensure_dir_ok_inv in Hmk as (d1 & Hmk & ->). simpl.
      by apply (mkdirs_keeps _ _ _ _ _ _ Hmk). }
    split; [by apply (os_replace_file _ _ _ _ _ _ _ Hfile1 Hrep)|].
    cbn [undo_loop]. rewrite run_get_disk. unfold Disk.exists_. rewrite Hfile.
    cbn [negb].
    rewrite (run_bind_ok _ _ _ _ _ Hmk), (run_bind_ok _ _ _ _ _ Hname),
      (run_bind_ok _ _ _ _ _ Hrep).
    done.
Qed.

End UndoClaim.

Lemma undo_reverse_skips_missing_witness :
  undo (H := Scenario.machine) (PurePath.parse "manifest.json")
    (mkWorld Scenario.moved_disk [])
  = undo_loop (H := Scenario.machine)
      (rev [mkMoveResult "src/a.txt" "dest/Others/a.txt" "move";
            mkMoveResult "src/b.txt" "dest/Others/b.txt" "move"]) []
      (mkWorld Scenario.moved_disk []).
Proof.
  apply (proj1 (proj2 (proj2 (@undo_reverse_skips_missing Scenario.machine
    (PurePath.parse "manifest.json") (mkWorld Scenario.moved_disk []))))
    (mkStat 2 0) "{}"); reflexivity.
Defined.

(** The scenario of the deleted file: the manifest lists the moves of
    [a.txt] and [b.txt], [dest/Others/b.txt] has been deleted; [undo] warns
    about it, puts [a.txt] back and returns its record. *)
Example undo_after_deletion :
  let r := undo (H := Scenario.machine) (PurePath.parse "manifest.json")
             (mkWorld Scenario.moved_disk []) in
  r.1 = Ok [mkMoveResult "dest/Others/a.txt" "src/a.txt" "undo"]
  ∧ out r.2 = [missing_line (mkMoveResult "src/b.txt" "dest/Others/b.txt" "move");
               "↩️  UNDO: dest/Others/a.txt -> src/a.txt"]
  ∧ disk r.2 !! PurePath.parse "src/a.txt" = Some (Scenario.file_of "bytes")
  ∧ disk r.2 !! PurePath.parse "dest/Others/a.txt" = None.
Proof. vm_compute. done. Qed.

(** ** [Rules.load]: the extension keys *)

Lemma lower_char_idemp c : Str.lower_char (Str.lower_char c) = Str.lower_char c.
Proof. by destruct c as [[] [] [] [] [] [] [] []]. Qed.

Lemma lower_idemp s : Str.ascii_lower (Str.ascii_lower s) = Str.ascii_lower s.
Proof.
  unfold Str.ascii_lower. induction s as [|c s IH]; simpl; [done|].
  by rewrite lower_char_idemp, IH.
Qed.

Lemma is_ascii_lower s : Str.is_ascii (Str.ascii_lower s) = Str.is_ascii s.
Proof.
  unfold Str.ascii_lower. induction s as [|c s IH]; simpl; [done|].
  rewrite IH. f_equal. by destruct c as [[] [] [] [] [] [] [] []].
Qed.

Lemma startswith_dot_lower s :
  Str.startswith (Str.ascii_lower s) "." = Str.startswith s ".".
Proof.
  destruct s as [|c s]; [done|].
  unfold Str.startswith, Str.ascii_lower. simpl.
  by destruct c as [[] [] [] [] [] [] [] []]; destruct (Str.map_chars _ s), s.
Qed.

Lemma dotted_ascii_lower k : dotted_ascii (Str.ascii_lower k) = dotted_ascii k.
Proof.
  unfold dotted_ascii. rewrite startswith_dot_lower.
  destruct (Str.startswith k "."); [apply lower_idemp|].
  unfold Str.ascii_lower. simpl. f_equal. apply lower_idemp.
Qed.



Section Lower.
Context `{Platform}.

(** On ASCII text [s.lower()] works letter by letter. *)
Lemma str_lower_ascii s : Str.is_ascii s = true → str_lower s = Str.ascii_lower s.
Proof. intros Hs. unfold str_lower. by rewrite Hs. Qed.

Lemma dotted_lower_ascii k : Str.is_ascii k = true → dotted_lower k = dotted_ascii k.
Proof.
  intros Hk. unfold dotted_lower, dotted_ascii. apply str_lower_ascii.
  by destruct (Str.startswith k ".").
Qed.

Lemma normalize_ext_lower_suffix path :
  normalize_ext path = str_lower (PurePath.suffix path).
Proof.
  unfold normalize_ext, Str.truthy.
  destruct (String.eqb_spec (str_lower (PurePath.suffix path)) "") as [->|]; done.
Qed.

End Lower.

Lemma list_to_map_dict_set {V} (d : list (string * V)) k v :
  (list_to_map (dict_set d k v) : gmap string V) = <[k := v]> (list_to_map d).
Proof.
  induction d as [|[k' v'] d IH]; simpl; [done|].
  destruct (String.eqb_spec k' k) as [->|Hne]; simpl.
  - by rewrite insert_insert_eq.
  - rewrite IH. by apply insert_insert_ne.
Qed.

Lemma dict_set_fresh {V} (d : list (string * V)) k v :
  k ∉ d.*1 → dict_set d k v = d ++ [(k, v)].
Proof.
  induction d as [|[k' v'] d IH]; simpl; [done|].
  intros Hk. apply not_elem_of_cons in Hk as [Hne Hk].
  destruct (String.eqb_spec k' k); [congruence|]. by rewrite IH.
Qed.

Lemma dict_set_keys {V} (d : list (string * V)) k v x :
  x ∈ (dict_set d k v).*1 → x ∈ d.*1 ∨ x = k.
Proof.
  induction d as [|[k' v'] d IH]; simpl.
  - rewrite elem_of_cons, elem_of_nil. tauto.
  - destruct (String.eqb_spec k' k); simpl; rewrite !elem_of_cons; [tauto|].
    intros [->|Hx]; [tauto|]. destruct (IH Hx); tauto.
Qed.

Lemma dict_rekey_keys {V} f (d : list (string * V)) x :
  x ∈ (dict_rekey f d).*1 → ∃ k, k ∈ d.*1 ∧ x = f k.
Proof.
  unfold dict_rekey.
  assert (∀ acc, x ∈ (fold_left (fun acc kv => dict_set acc (f kv.1) kv.2) d acc).*1 →
                 x ∈ acc.*1 ∨ ∃ k, k ∈ d.*1 ∧ x = f k) as Hgen.
  { induction d as [|[k v] d IH]; intros acc; simpl; [tauto|].
    intros [Hx|(k0 & Hk0 & ->)]%IH.
    - apply dict_set_keys in Hx as [Hx| ->]; [tauto|].
      right. exists k. split; [apply elem_of_cons; tauto|done].
    - right. exists k0. split; [apply elem_of_cons; tauto|done]. }
  intros [Hx|Hx]%Hgen; [by apply elem_of_nil in Hx|done].
Qed.

(** Without two keys that meet after [f], re-keying is a plain map. *)
Lemma dict_rekey_nodup {V} f (d : list (string * V)) :
  NoDup (f <$> d.*1) → dict_rekey f d = (fun kv => (f kv.1, kv.2)) <$> d.
Proof.
  unfold dict_rekey.
  assert (∀ acc, NoDup (acc.*1 ++ (f <$> d.*1)) →
     fold_left (fun acc kv => dict_set acc (f kv.1) kv.2) d acc
     = acc ++ ((fun kv => (f kv.1, kv.2)) <$> d)) as Hgen.
  { induction d as [|[k v] d IH]; intros acc Hnd; simpl; [by rewrite app_nil_r|].
    simpl in Hnd. rewrite dict_set_fresh.
    - rewrite IH; [by rewrite <- app_assoc|].
      rewrite fmap_app, <- app_assoc. done.
    - apply NoDup_app in Hnd as (_ & Hdisj & _). intros Hin.
      apply (Hdisj _ Hin). apply elem_of_cons. by left. }
  intros Hnd. by rewrite Hgen.
Qed.

Lemma dict_rekey_ext {V} f g (d : list (string * V)) :
  Forall (fun k => f k = g k) d.*1 → dict_rekey f d = dict_rekey g d.
Proof.
  unfold dict_rekey. generalize (@nil (string * V)).
  induction d as [|[k v] d IH]; intros acc Hfg; simpl; [done|].
  inversion Hfg as [|?? Hk Hrest]; subst. simpl in Hk. rewrite Hk. by apply IH.
Qed.

Lemma dict_rekey_ascii {V} (d : list (string * V)) :
  Forall (fun k => Str.is_ascii k = true) d.*1 →
  Forall (fun k => Str.is_ascii k = true) (dict_rekey Str.ascii_lower d).*1.
Proof.
  intros Hd. apply Forall_forall. intros x (k & Hk & ->)%dict_rekey_keys.
  rewrite is_ascii_lower. by apply (proj1 (Forall_forall _ _) Hd).
Qed.

Section Load.
Context `{Platform}.

(** With ASCII keys the two passes of [Rules.load] work letter by letter. *)
Lemma load_from_ascii cfg :
  ascii_keys cfg →
  by_extension (load_from cfg)
  = list_to_map (dict_rekey dotted_ascii
                   (dict_rekey Str.ascii_lower (default [] (cfg_by_extension cfg)))).
Proof.
  intros Hascii. unfold load_from. simpl.
  assert (Forall (fun k => Str.is_ascii k = true) (default [] (cfg_by_extension cfg)).*1)
    as Hkeys.
  { unfold ascii_keys in Hascii. by apply Forall_fmap. }
  rewrite (dict_rekey_ext str_lower Str.ascii_lower).
  - f_equal. apply dict_rekey_ext.
    eapply Forall_impl; [by apply dict_rekey_ascii|].
    intros k Hk. by apply dotted_lower_ascii.
  - eapply Forall_impl; [exact Hkeys|]. intros k Hk. by apply str_lower_ascii.
Qed.


Context `{ConfigParser}.


End Load.


Lemma fmap_dotted_ascii_lower (l : list string) :
  dotted_ascii <$> (Str.ascii_lower <$> l) = dotted_ascii <$> l.
Proof.
  induction l as [|x l IH]; csimpl; [done|]. by rewrite dotted_ascii_lower, IH.
Qed.

Lemma rekeyed_keys {V} (f : string → string) (d : list (string * V)) :
  ((fun kv => (f kv.1, kv.2)) <$> d).*1 = f <$> d.*1.
Proof. induction d as [|[k v] d IH]; csimpl; [done|]. by rewrite IH. Qed.

(** An extension named in the configuration in ASCII letters, in any case
    and with or without its dot, is found after [Rules.load] under its
    lower-cased, dotted form, provided no two configured keys meet in that
    form; a file whose [normalize_ext] is that form is then filed by the
    extension rule, before any glob or MIME rule is looked at. *)
Theorem load_finds_configured_extension `{Platform} (cfg : Config)
  (exts : list (string * string)) (k folder : string) :
  cfg_by_extension cfg = Some exts →
  Forall (fun kv : string * string => Str.is_ascii kv.1 = true) exts →
  NoDup (dotted_lower <$> exts.*1) →
  (k, folder) ∈ exts →
  by_extension (load_from cfg) !! dotted_lower k = Some folder
  ∧ ∀ path, normalize_ext path = dotted_lower k →
            match_folder_for (load_from cfg) path = Ok (Some folder).
Proof.
  intros Hcfg Hascii Hnd Hin.
  assert (Forall (fun k => Str.is_ascii k = true) exts.*1) as Hkeys
    by (by apply Forall_fmap).
  assert (dotted_lower <$> exts.*1 = dotted_ascii <$> exts.*1) as Hsame.
  { apply Forall_fmap_ext_1. eapply Forall_impl; [exact Hkeys|].
    intros x Hx. by apply dotted_lower_ascii. }
  rewrite Hsame in Hnd.
  assert (Str.is_ascii k = true) as Hk.
  { apply (proj1 (Forall_forall _ _) Hkeys). apply list_elem_of_fmap. by exists (k, folder). }
  rewrite (dotted_lower_ascii k Hk).
  assert (by_extension (load_from cfg) !! dotted_ascii k = Some folder) as Hfound.
  { rewrite load_from_ascii by (unfold ascii_keys; by rewrite Hcfg).
    rewrite Hcfg. simpl.
    assert (NoDup (Str.ascii_lower <$> exts.*1)) as Hnd1.
    { rewrite <- fmap_dotted_ascii_lower in Hnd. by apply NoDup_fmap_1 in Hnd. }
    rewrite (dict_rekey_nodup Str.ascii_lower exts Hnd1).
    rewrite dict_rekey_nodup by (by rewrite rekeyed_keys, fmap_dotted_ascii_lower).
    apply elem_of_list_to_map_1.
    + by rewrite rekeyed_keys, rekeyed_keys, fmap_dotted_ascii_lower.
    + apply list_elem_of_fmap. exists (Str.ascii_lower k, folder). simpl.
      rewrite dotted_ascii_lower. split; [done|].
      apply list_elem_of_fmap. by exists (k, folder). }
  split; [done|]. intros path Hext.
  rewrite normalize_ext_lower_suffix in Hext.
  unfold match_folder_for. by rewrite Hext, Hfound.
Qed.

Lemma load_finds_configured_extension_witness :
  by_extension (load_from (H := Scenario.machine) Cases.camera_config)
    !! dotted_lower (H := Scenario.machine) "JPG" = Some "Images"
  ∧ ∀ path, normalize_ext (H := Scenario.machine) path
            = dotted_lower (H := Scenario.machine) "JPG" →
            match_folder_for (H := Scenario.machine)
              (load_from (H := Scenario.machine) Cases.camera_config) path
            = Ok (Some "Images").
Proof.
  apply (@load_finds_configured_extension Scenario.machine Cases.camera_config
           [("JPG", "Images"); (".Txt", "Text")] "JPG" "Images").
  - reflexivity.
  - repeat constructor.
  - repeat constructor; rewrite ?elem_of_cons, ?elem_of_nil; compute; intuition discriminate.
  - apply list_elem_of_here.
Defined.

(** When two configured keys meet, the second pass goes through the dict in
    the order of its first pass: here ["JPG"] comes last in the document
    but [".jpg"] is the last key of the dict and wins. *)
Example load_colliding_keys :
  by_extension
    (load_from (H := Scenario.machine)
       (mkConfig None None None None
          (Some [("jpg", "A"); (".jpg", "B"); ("JPG", "C")])
          None None None None None)) !! ".jpg"
  = Some "B".
Proof. reflexivity. Qed.

(** ** [_walk_files] *)

(** Induction on a tree, with the hypothesis for every sub-directory. *)
Fixpoint dtree_induction (P : dtree → Prop)
  (step : ∀ dirnames filenames,
      Forall (fun ds => P ds.2) dirnames → P (Tree dirnames filenames))
  (t : dtree) : P t :=
  match t with
  | Tree dirnames filenames =>
      step dirnames filenames
        ((fix all (ds : list (string * dtree)) : Forall (fun ds => P ds.2) ds :=
            match ds with
            | [] => List.Forall_nil _
            | (d, sub) :: rest =>
                @List.Forall_cons _ (fun ds => P ds.2) (d, sub) rest
                  (dtree_induction P step sub) (all rest)
            end) dirnames)
  end.

Section Walk.
Context `{Platform}.

Lemma walk_files_unfold root dirnames filenames exclude_dirs exclude_hidden :
  _walk_files root (Tree dirnames filenames) exclude_dirs exclude_hidden
  = ((fun name => root // name) <$> List.filter (shown exclude_hidden) filenames)
    ++ List.flat_map
         (fun ds => if entered exclude_dirs exclude_hidden ds.1
                    then _walk_files (root // ds.1) ds.2 exclude_dirs exclude_hidden
                    else [])
         dirnames.
Proof.
  simpl. f_equal. induction dirnames as [|[d sub] dirnames IH]; simpl; [done|].
  by rewrite IH.
Qed.

(** The walk yields exactly the files of the tree that are shown and that
    lie under directories it enters: nothing below an excluded directory,
    nothing below a hidden directory and no hidden file when hidden names
    are excluded, and every other file. *)
Theorem walk_files_yields_unpruned (root : Path) (t : dtree)
  (exclude_dirs : list string) (exclude_hidden : bool) (p : Path) :
  p ∈ _walk_files root t exclude_dirs exclude_hidden
  ↔ ∃ dirs name,
      in_tree t dirs name
      ∧ Forall (fun d => entered exclude_dirs exclude_hidden d = true) dirs
      ∧ shown exclude_hidden name = true
      ∧ p = PurePath.joinpath root (dirs ++ [name]).
Proof.
  revert root. induction t as [dirnames filenames IH] using dtree_induction.
  intros root. rewrite walk_files_unfold, elem_of_app. split.
  - intros [Hfile|Hsub].
    + apply list_elem_of_fmap in Hfile as (name & -> & Hname).
      apply list_elem_of_In, List.filter_In in Hname as [Hname Hshown].
      exists [], name. split; [constructor; by apply list_elem_of_In|].
      split; [constructor|]. done.
    + apply list_elem_of_In, List.in_flat_map in Hsub as ([d sub] & Hin & Hp).
      simpl in Hp. apply list_elem_of_In in Hin.
      destruct (entered exclude_dirs exclude_hidden d) eqn:Hd; [|done].
      rewrite Forall_forall in IH. apply list_elem_of_In in Hp.
      apply (IH _ Hin) in Hp as (dirs & name & Htree & Hdirs & Hshown & ->).
      exists (d :: dirs), name. split; [by econstructor|].
      split; [by constructor|]. done.
  - intros (dirs & name & Htree & Hdirs & Hshown & ->).
    inversion Htree as [? ? ? Hname|? ? d sub dirs' ? Hin Hsub]; subst.
    + left. apply list_elem_of_fmap. exists name. split; [done|].
      apply list_elem_of_In, List.filter_In. split; [by apply list_elem_of_In|done].
    + right. apply list_elem_of_In, List.in_flat_map. exists (d, sub).
      split; [by apply list_elem_of_In|]. simpl.
      inversion Hdirs as [|?? Hd Hrest]; subst. rewrite Hd.
      apply list_elem_of_In. rewrite Forall_forall in IH.
      apply (IH _ Hin). by exists dirs', name.
Qed.

End Walk.

(** ** The conflict namer and the extension *)

Lemma rfind_dot_app a b :
  Str.rfind_dot (a +:+ b)
  = match Str.rfind_dot b with
    | Some j => Some (String.length a + j)%nat
    | None => Str.rfind_dot a
    end.
Proof.
  induction a as [|c a IH].
  - change ("" +:+ b) with b. destruct (Str.rfind_dot b); reflexivity.
  - simpl. rewrite IH. destruct (Str.rfind_dot b); reflexivity.
Qed.

Lemma string_app_cons c a b : String c a +:+ b = String c (a +:+ b).
Proof. reflexivity. Qed.

Lemma substring_all s : String.substring 0 (String.length s) s = s.
Proof. induction s as [|c s IH]; simpl; [done|]. by rewrite IH. Qed.

Lemma substring_length_le a b s : (String.length (String.substring a b s) ≤ b)%nat.
Proof.
  revert a b. induction s as [|c s IH]; intros [|a] [|b]; simpl; try lia.
  - specialize (IH 0%nat b). lia.
  - apply IH.
  - apply IH.
Qed.

Lemma substring_app_l a b : String.substring 0 (String.length a) (a +:+ b) = a.
Proof.
  induction a as [|c a IH]; simpl; [by destruct b|]. by rewrite IH.
Qed.

Lemma substring_app_r a b :
  String.substring (String.length a) (String.length b) (a +:+ b) = b.
Proof. induction a as [|c a IH]; simpl; [apply substring_all|done]. Qed.

(** The part of a string from its last dot on: a dot, then no more dot. *)
Lemma rfind_dot_tail s i :
  Str.rfind_dot s = Some i →
  (i < String.length s)%nat
  ∧ s = String.substring 0 i s +:+ String.substring i (String.length s - i) s
  ∧ ∃ rest, String.substring i (String.length s - i) s = String "." rest
            ∧ Str.rfind_dot rest = None.
Proof.
  revert i. induction s as [|c s IH]; intros i; simpl; [done|].
  destruct (Str.rfind_dot s) as [j|] eqn:Hj.
  - intros [= <-]. destruct (IH j eq_refl) as (Hlt & Hsplit & rest & Hrest & Hnone).
    split; [lia|]. split.
    + cbn. rewrite string_app_cons. f_equal. exact Hsplit.
    + exists rest. by rewrite <- Hrest.
  - destruct (Ascii.eqb_spec c ".") as [->|]; [|done]. intros [= <-].
    split; [lia|]. simpl. rewrite substring_all. split; [done|]. by exists s.
Qed.

Lemma last_snoc {A} (l : list A) x d : List.last (l ++ [x]) d = x.
Proof. induction l as [|y l IH]; simpl; [done|]. rewrite IH. by destruct l. Qed.

Lemma candidate_name dst n :
  plain_parts dst →
  PurePath.name (candidate dst n)
  = PurePath.stem dst +:+ "(" +:+ Str.dec n +:+ ")" +:+ PurePath.suffix dst.
Proof.
  intros Hp. unfold candidate. rewrite div_plain.
  - unfold PurePath.name. simpl. apply last_snoc.
  - apply plain_app; [by apply plain_stem|].
    apply (plain_app "("); [done|]. apply plain_app; [apply plain_dec|].
    apply (plain_app ")"); [done|]. by apply plain_suffix.
  - apply keep_part_paren.
Qed.

Lemma string_app_assoc a b c : (a +:+ b) +:+ c = a +:+ b +:+ c.
Proof.
  induction a as [|x a IH]; [reflexivity|]. by rewrite !string_app_cons, IH.
Qed.

Lemma candidate_suffix dst n :
  plain_parts dst → PurePath.suffix dst ≠ "" →
  PurePath.suffix (candidate dst n) = PurePath.suffix dst
  ∧ PurePath.stem (candidate dst n) = PurePath.stem dst +:+ "(" +:+ Str.dec n +:+ ")".
Proof.
  intros Hp Hsuf.
  assert (∃ rest, PurePath.suffix dst = String "." rest ∧ rest ≠ ""
                  ∧ Str.rfind_dot rest = None) as (rest & Hdot & Hrest & Hnone).
  { revert Hsuf. unfold PurePath.suffix.
    destruct (Str.rfind_dot (PurePath.name dst)) as [i|] eqn:Hi; [|done].
    destruct (_ && _) eqn:Hrange; [|done]. intros _.
    apply andb_true_iff in Hrange as [Hpos%Nat.ltb_lt Hlast%Nat.ltb_lt].
    destruct (rfind_dot_tail _ _ Hi) as (_ & _ & rest & Hrest & Hnone).
    exists rest. split; [done|]. split; [|done].
    apply (f_equal String.length) in Hrest.
    assert (String.length
              (String.substring i (String.length (PurePath.name dst) - i) (PurePath.name dst))
            = (String.length (PurePath.name dst) - i)%nat) as Hlen.
    { destruct (rfind_dot_tail _ _ Hi) as (Hlt & Hsplit & _).
      apply (f_equal String.length) in Hsplit.
      rewrite string_length_app in Hsplit.
      pose proof (substring_length_le 0 i (PurePath.name dst)).
      pose proof (substring_length_le i (String.length (PurePath.name dst) - i)
                    (PurePath.name dst)).
      lia. }
    rewrite Hlen in Hrest. intros ->. simpl in Hrest. lia. }
  set (A := PurePath.stem dst +:+ "(" +:+ Str.dec n +:+ ")").
  assert (PurePath.name (candidate dst n) = A +:+ PurePath.suffix dst) as Hname.
  { rewrite candidate_name by done. unfold A.
    by rewrite !string_app_assoc. }
  assert (Str.rfind_dot (A +:+ PurePath.suffix dst) = Some (String.length A)) as Hfind.
  { rewrite rfind_dot_app, Hdot. simpl. rewrite Hnone. simpl. f_equal. lia. }
  assert (0 < String.length A)%nat as HA.
  { unfold A. rewrite !string_length_app. simpl. lia. }
  assert (2 ≤ String.length (PurePath.suffix dst))%nat as Hs2.
  { rewrite Hdot. simpl. destruct rest; [done|]. simpl. lia. }
  unfold PurePath.suffix at 1, PurePath.stem at 1. rewrite Hname, Hfind.
  rewrite string_length_app.
  assert ((0 <? String.length A)%nat
          && (String.length A
              <? String.length A + String.length (PurePath.suffix dst) - 1)%nat = true)
    as ->.
  { apply andb_true_iff. split; apply Nat.ltb_lt; lia. }
  replace (String.length A + String.length (PurePath.suffix dst) - String.length A)%nat
    with (String.length (PurePath.suffix dst)) by lia.
  by rewrite substring_app_r, substring_app_l.
Qed.

Lemma free_name_sibling_same_extension d dst p :
  plain_parts dst →
  free_name d dst = Some p →
  Disk.exists_ d p = false
  ∧ PurePath.parent p = PurePath.parent dst
  ∧ (PurePath.suffix dst ≠ "" → PurePath.suffix p = PurePath.suffix dst).
Proof.
  intros Hp Hfree. split; [by apply (free_name_is_free d dst)|].
  split; [by apply (parent_free_name d)|].
  intros Hsuf. revert Hfree. unfold free_name.
  destruct (Disk.exists_ d dst); cbn [negb].
  - intros [n ->]%probe_candidate. by apply candidate_suffix.
  - by intros [= <-].
Qed.

(** The name [next_nonconflicting_name] returns is never taken, lies in the
    directory of the path it was asked about and, when that path has an
    extension, keeps it: the counter goes before the extension. The call
    leaves the disk and the log as they were. *)
Theorem next_nonconflicting_name_fresh_sibling_same_extension (dst p : Path)
  (w w' : world) :
  plain_parts dst →
  next_nonconflicting_name dst w = (Ok p, w') →
  w' = w
  ∧ Disk.exists_ (disk w) p = false
  ∧ PurePath.parent p = PurePath.parent dst
  ∧ (PurePath.suffix dst ≠ "" → PurePath.suffix p = PurePath.suffix dst).
Proof.
  intros Hp [-> Hfree]%next_nonconflicting_name_ok_inv.
  split; [done|]. by apply free_name_sibling_same_extension.
Qed.

Lemma next_nonconflicting_name_fresh_sibling_same_extension_witness :
  Disk.exists_ Scenario.triple_disk (PurePath.parse "src/a(1).txt") = false
  ∧ PurePath.parent (PurePath.parse "src/a(1).txt") = PurePath.parse "src"
  ∧ (PurePath.suffix (PurePath.parse "src/a.txt") ≠ "" →
     PurePath.suffix (PurePath.parse "src/a(1).txt") = ".txt").
Proof.
  apply (proj2 (next_nonconflicting_name_fresh_sibling_same_extension
                  (PurePath.parse "src/a.txt") (PurePath.parse "src/a(1).txt")
                  (mkWorld Scenario.triple_disk []) (mkWorld Scenario.triple_disk [])
                  (plain_parts_parse "src/a.txt") ltac:(by vm_compute))).
Defined.

(** A name that ends in a dot has no extension; its conflict name gets one. *)
Example candidate_trailing_dot :
  PurePath.suffix (PurePath.parse "notes.") = ""
  ∧ PurePath.name (candidate (PurePath.parse "notes.") 1) = "notes.(1)"
  ∧ PurePath.suffix (candidate (PurePath.parse "notes.") 1) = ".(1)".
Proof. done. Qed.

(** ** [ensure_dir] and [safe_link_or_copy] *)

Lemma mkdirs_other st d ps d' k :
  Disk.mkdirs st d ps = Some d' → k ∉ ps → d' !! k = d !! k.
Proof.
  revert d. induction ps as [|p ps IH]; intros d; simpl; [by intros [= <-]|].
  intros Hd Hk. apply not_elem_of_cons in Hk as [Hne Hk].
  destruct (d !! p) as [[]|] eqn:Hp; [done|by apply IH|].
  rewrite (IH _ Hd Hk). by apply lookup_insert_ne.
Qed.

Lemma chain_not_implicit p q : q ∈ Disk.chain p → Disk.implicit q = false.
Proof.
  unfold Disk.chain. intros (k & -> & Hk%elem_of_seq)%list_elem_of_fmap.
  unfold Disk.implicit. simpl. destruct (parts p); simpl in *; [lia|].
  destruct k; [lia|done].
Qed.

(** A directory that is an entry of the map: an explicit one. *)
Lemma is_dir_entry d q :
  Disk.implicit q = false → Disk.is_dir d q = true → ∃ st, d !! q = Some (NDir st).
Proof.
  unfold Disk.is_dir. intros Hi. destruct (d !! q) as [[]|]; [done|eauto|congruence].
Qed.

Lemma mkdirs_all_dirs st d ps :
  (∀ q, q ∈ ps → Disk.implicit q = false) →
  (∀ q, q ∈ ps → Disk.is_dir d q = true) → Disk.mkdirs st d ps = Some d.
Proof.
  induction ps as [|p ps IH]; intros Himp Hall; simpl; [done|].
  destruct (is_dir_entry d p) as [s Hs];
    [apply Himp, list_elem_of_here|apply Hall, list_elem_of_here|].
  rewrite Hs.
  apply IH; intros q Hq; [apply Himp|apply Hall]; by apply list_elem_of_further.
Qed.

Lemma mkdirs_stopped st d ps :
  Disk.mkdirs st d ps = None
  ↔ ∃ q, q ∈ ps ∧ ∃ s data, d !! q = Some (NFile s data).
Proof.
  revert d. induction ps as [|p ps IH]; intros d; simpl.
  - split; [done|]. intros (q & Hq & _). by apply elem_of_nil in Hq.
  - destruct (d !! p) as [[s data|s]|] eqn:Hp.
    + split; [|done]. intros _. exists p. split; [apply list_elem_of_here|eauto].
    + rewrite IH. split; intros (q & Hq & Hfile).
      * exists q. split; [by apply list_elem_of_further|done].
      * apply elem_of_cons in Hq as [->|Hq]; [|by exists q].
        destruct Hfile as (? & ? & ?). congruence.
    + rewrite IH. split; intros (q & Hq & s & data & Hfile).
      * exists q. split; [by apply list_elem_of_further|].
        destruct (decide (p = q)) as [->|Hne].
        -- by rewrite lookup_insert_eq in Hfile.
        -- rewrite lookup_insert_ne in Hfile by done. eauto.
      * apply elem_of_cons in Hq as [->|Hq]; [congruence|].
        exists q. split; [done|]. exists s, data.
        rewrite lookup_insert_ne; [done|]. congruence.
Qed.

Lemma chain_snoc p :
  parts p ≠ [] → Disk.chain p = Disk.chain (PurePath.parent p) ++ [p].
Proof.
  destruct p as [a l]. simpl. intros Hne.
  destruct (exists_last Hne) as (l' & x & ->).
  unfold Disk.chain, PurePath.parent. simpl.
  rewrite removelast_last, length_app. simpl.
  replace (length l' + 1)%nat with (S (length l')) by lia.
  rewrite seq_S, fmap_app. simpl. f_equal.
  - apply list_fmap_ext. intros i k Hk. f_equal.
    apply lookup_seq in Hk as [-> Hi].
    rewrite take_app_le; [done|lia].
  - f_equal. f_equal. apply take_ge. rewrite length_app. simpl. lia.
Qed.

(** The chain of a directory on the way to [p] is the start of the chain of
    [p]. *)
Lemma chain_prefix p q : q ∈ Disk.chain p → ∃ rest, Disk.chain p = Disk.chain q ++ rest.
Proof.
  destruct p as [a l]. induction l as [|x l' IH] using rev_ind.
  { intros Hq. by apply elem_of_nil in Hq. }
  rewrite chain_snoc by (simpl; by destruct l').
  unfold PurePath.parent. simpl. rewrite removelast_last.
  intros [Hq|Hq%list_elem_of_singleton]%elem_of_app.
  - destruct (IH Hq) as [rest ->]. exists (rest ++ [mkPath a (l' ++ [x])]).
    by rewrite app_assoc.
  - subst q. exists []. rewrite app_nil_r.
    rewrite (chain_snoc (mkPath a (l' ++ [x]))) by (simpl; by destruct l').
    unfold PurePath.parent. simpl. by rewrite removelast_last.
Qed.

Lemma blocked_all_dirs d ps :
  (∀ q, q ∈ ps → ∃ st, d !! q = Some (NDir st)) → Disk.blocked d ps = false.
Proof.
  induction ps as [|p ps IH]; intros Hall; simpl; [done|].
  destruct (Hall p (list_elem_of_here _ _)) as [st ->].
  apply IH. intros q Hq. apply Hall. by apply list_elem_of_further.
Qed.

Lemma blocked_at d ps q rest s data :
  (∀ q', q' ∈ ps → ∃ st, d !! q' = Some (NDir st)) →
  d !! q = Some (NFile s data) → Disk.blocked d (ps ++ q :: rest) = true.
Proof.
  induction ps as [|p ps IH]; intros Hall Hq; simpl; [by rewrite Hq|].
  destruct (Hall p (list_elem_of_here _ _)) as [st ->].
  apply IH; [|done]. intros q' Hq'. apply Hall. by apply list_elem_of_further.
Qed.

Lemma chain_dirs_entries d p :
  (∀ q, q ∈ Disk.chain p → Disk.is_dir d q = true) →
  ∀ q, q ∈ Disk.chain p → ∃ st, d !! q = Some (NDir st).
Proof.
  intros Hall q Hq. apply is_dir_entry; [by apply (chain_not_implicit p)|by apply Hall].
Qed.

Section Placement.
Context `{Platform}.

Lemma ensure_dir_raise_inv path w e w' :
  ensure_dir path w = (Raise e, w') →
  w' = w
  ∧ Disk.mkdirs (mkStat dir_size clock) (disk w) (Disk.chain path) = None
  ∧ e = OSError (if Disk.blocked (disk w) (Disk.chain (PurePath.parent path))
                 then "Not a directory" else "File exists").
Proof.
  unfold ensure_dir. rewrite run_get_disk.
  destruct (Disk.mkdirs _ _ _); [done|].
  destruct (Disk.blocked _ _); by intros [= <- <-].
Qed.

Lemma ensure_dir_stopped path w :
  Disk.mkdirs (mkStat dir_size clock) (disk w) (Disk.chain path) = None →
  ensure_dir path w
  = (Raise (OSError (if Disk.blocked (disk w) (Disk.chain (PurePath.parent path))
                     then "Not a directory" else "File exists")), w).
Proof.
  intros Hmk. unfold ensure_dir. rewrite run_get_disk, Hmk.
  by destruct (Disk.blocked _ _).
Qed.

(** [ensure_dir] makes the directory and those above it, keeps every entry
    that was there and touches no other path; done again it changes
    nothing. It fails, changing nothing, exactly when a regular file sits
    on the path or above it: with [FileExistsError] when the path itself is
    a regular file below directories, with [NotADirectoryError] when a
    regular file stands where a directory above the path is needed. *)
Theorem ensure_dir_makes_chain (path : Path) (w : world) :
  (∀ a w', ensure_dir path w = (Ok a, w') →
     out w' = out w
     ∧ (∀ q, q ∈ Disk.chain path → Disk.is_dir (disk w') q = true)
     ∧ (∀ k n, disk w !! k = Some n → disk w' !! k = Some n)
     ∧ (∀ k, k ∉ Disk.chain path → disk w' !! k = disk w !! k)
     ∧ ensure_dir path w' = (Ok tt, w'))
  ∧ (∀ e w', ensure_dir path w = (Raise e, w') →
       w' = w ∧ (e = OSError "File exists" ∨ e = OSError "Not a directory"))
  ∧ ((∃ e, ensure_dir path w = (Raise e, w))
     ↔ ∃ q, q ∈ Disk.chain path ∧ ∃ s data, disk w !! q = Some (NFile s data))
  ∧ (∀ s data,
       Disk.implicit path = false →
       disk w !! path = Some (NFile s data) →
       (∀ q, q ∈ Disk.chain (PurePath.parent path) → Disk.is_dir (disk w) q = true) →
       ensure_dir path w = (Raise (OSError "File exists"), w))
  ∧ (∀ q s data,
       q ∈ Disk.chain (PurePath.parent path) →
       disk w !! q = Some (NFile s data) →
       (∀ q', q' ∈ Disk.chain (PurePath.parent q) → Disk.is_dir (disk w) q' = true) →
       ensure_dir path w = (Raise (OSError "Not a directory"), w)).
Proof.
  split; [|split; [|split; [|split]]].
  - intros a w' Hrun. apply ensure_dir_ok_inv in Hrun as (d' & Hmk & ->). simpl.
    split; [done|]. split; [intros q; apply (mkdirs_makes _ _ _ _ _ Hmk)|].
    split; [intros k n; apply (mkdirs_keeps _ _ _ _ _ _ Hmk)|].
    split; [intros k; apply (mkdirs_other _ _ _ _ _ Hmk)|].
    unfold ensure_dir. rewrite run_get_disk. simpl.
    rewrite mkdirs_all_dirs; [done|apply chain_not_implicit|].
    intros q; apply (mkdirs_makes _ _ _ _ _ Hmk).
  - intros e w' (-> & _ & ->)%ensure_dir_raise_inv. split; [done|].
    destruct (Disk.blocked _ _); tauto.
  - rewrite <- (mkdirs_stopped (mkStat dir_size clock)). split.
    + by intros [e (_ & Hmk & _)%ensure_dir_raise_inv].
    + intros Hmk. rewrite (ensure_dir_stopped _ _ Hmk). eauto.
  - intros s data Himp Hfile Hdirs.
    assert (parts path ≠ []) as Hne.
    { unfold Disk.implicit in Himp. by destruct (parts path). }
    rewrite ensure_dir_stopped.
    + rewrite blocked_all_dirs; [done|]. by apply chain_dirs_entries.
    + apply mkdirs_stopped. exists path. split; [by apply chain_self|eauto].
  - intros q s data Hq Hfile Hdirs.
    assert (parts q ≠ []) as Hqne.
    { apply chain_not_implicit in Hq. unfold Disk.implicit in Hq. by destruct (parts q). }
    assert (parts path ≠ []) as Hne.
    { intros Hnil. unfold Disk.chain, PurePath.parent in Hq. simpl in Hq.
      rewrite Hnil in Hq. simpl in Hq. by apply elem_of_nil in Hq. }
    rewrite ensure_dir_stopped.
    + destruct (chain_prefix _ _ Hq) as [rest ->].
      rewrite (chain_snoc q Hqne), <- app_assoc. simpl.
      rewrite (blocked_at _ _ _ _ s data); [done| |done].
      by apply chain_dirs_entries.
    + apply mkdirs_stopped. exists q. split; [|eauto].
      rewrite (chain_snoc path Hne). apply elem_of_app. by left.
Qed.

Lemma safe_link_or_copy_inv (src_ dst_ : Path) (mode : string)
  (w w' : world) (st : stat_result) (data a : string) :
  disk w !! src_ = Some (NFile st data) →
  safe_link_or_copy src_ dst_ mode w = (Ok a, w') →
  ∃ final,
    free_name (disk w) dst_ = Some final
    ∧ disk w !! final = None
    ∧ out w' = out w
    ∧ a = (if String.eqb mode "hardlink"
           then (if os_link_ok src_ final then "hardlink" else "copy")
           else if String.eqb mode "copy" then "copy" else "move")
    ∧ disk w'
      = (if String.eqb a "move"
         then <[final := NFile st data]> (delete src_ (disk w))
         else <[final := NFile st data]> (disk w)).
Proof.
  intros Hsrc. unfold safe_link_or_copy.
  intros (final & w0 & Hname & Hrun)%bind_ok_inv.
  apply next_nonconflicting_name_ok_inv in Hname as [-> Hfree].
  pose proof (free_name_is_free _ _ _ Hfree) as Hfresh.
  apply exists_false in Hfresh as [Hnone Himp].
  exists final. split; [done|]. split; [done|].
  revert Hrun.
  unfold try_except_OSError, os_link, shutil_copy2, shutil_move,
    Disk.rename_tree, Disk.is_dir, Disk.exists_.
  unfold mbind, M_bind, mret, M_ret, get_disk, put_disk, raise.
  cbn beta iota zeta. cbn [disk out fst snd].
  rewrite ?Hsrc, ?Hnone, ?Himp. simpl. rewrite ?Hsrc, ?Hnone, ?Himp. simpl.
  destruct (Disk.parent_ready (disk w) final) eqn:Hpr;
    destruct (os_link_ok src_ final) eqn:Hlk;
    destruct (String.eqb mode "hardlink"); [|destruct (String.eqb mode "copy")| |
      destruct (String.eqb mode "copy")| |destruct (String.eqb mode "copy")| |
      destruct (String.eqb mode "copy")];
    repeat (progress (rewrite ?Hsrc, ?Hnone, ?Himp, ?Hpr, ?Hlk; simpl));
    intros Hrun; try discriminate Hrun;
    try (unfold no_entry in Hrun; destruct (Disk.blocked _ _); discriminate Hrun);
    injection Hrun as <- <-; done.
Qed.

(** [safe_link_or_copy] of a regular file never touches an entry that is
    there: the file lands on the free name the namer finds, nothing else is
    added or changed, and the source is removed by a move only. A hard link
    that cannot be made becomes a copy, and the action returned says which
    of the three was done. *)
Theorem safe_link_or_copy_places_on_free_name (src_ dst_ : Path) (mode : string)
  (w w' : world) (st : stat_result) (data a : string) :
  disk w !! src_ = Some (NFile st data) →
  safe_link_or_copy src_ dst_ mode w = (Ok a, w') →
  ∃ final,
    free_name (disk w) dst_ = Some final
    ∧ disk w !! final = None
    ∧ out w' = out w
    ∧ a = (if String.eqb mode "hardlink"
           then (if os_link_ok src_ final then "hardlink" else "copy")
           else if String.eqb mode "copy" then "copy" else "move")
    ∧ disk w'
      = (if String.eqb a "move"
         then <[final := NFile st data]> (delete src_ (disk w))
         else <[final := NFile st data]> (disk w)).
Proof. apply safe_link_or_copy_inv. Qed.

End Placement.

Lemma ensure_dir_makes_chain_witness :
  ensure_dir (H := Scenario.machine) (PurePath.parse "src/a.txt/x")
    (mkWorld Scenario.triple_disk [])
  = (Raise (OSError "Not a directory"), mkWorld Scenario.triple_disk [])
  ∧ ensure_dir (H := Scenario.machine) (PurePath.parse "src/a.txt")
      (mkWorld Scenario.triple_disk [])
    = (Raise (OSError "File exists"), mkWorld Scenario.triple_disk []).
Proof.
  split.
  - apply (proj2 (proj2 (proj2 (proj2 (@ensure_dir_makes_chain Scenario.machine
             (PurePath.parse "src/a.txt/x") (mkWorld Scenario.triple_disk [])))))
             (PurePath.parse "src/a.txt") (mkStat 10 0) "same bytes").
    + apply list_elem_of_further, list_elem_of_here.
    + reflexivity.
    + intros q' Hq'. apply list_elem_of_singleton in Hq' as ->. reflexivity.
  - apply (proj1 (proj2 (proj2 (proj2 (@ensure_dir_makes_chain Scenario.machine
             (PurePath.parse "src/a.txt") (mkWorld Scenario.triple_disk [])))))
             (mkStat 10 0) "same bytes").
    + reflexivity.
    + reflexivity.
    + intros q' Hq'. apply list_elem_of_singleton in Hq' as ->. reflexivity.
Defined.

Lemma safe_link_or_copy_places_on_free_name_witness :
  ∃ final,
    free_name Scenario.single_disk (PurePath.parse "src/b.txt") = Some final
    ∧ Scenario.single_disk !! final = None
    ∧ out (safe_link_or_copy (H := Scenario.machine) (PurePath.parse "src/a.txt")
             (PurePath.parse "src/b.txt") "move" (mkWorld Scenario.single_disk [])).2 = []
    ∧ "move" = (if String.eqb "move" "hardlink"
                then (if os_link_ok (Platform := Scenario.machine)
                           (PurePath.parse "src/a.txt") final
                      then "hardlink" else "copy")
                else if String.eqb "move" "copy" then "copy" else "move")
    ∧ disk (safe_link_or_copy (H := Scenario.machine) (PurePath.parse "src/a.txt")
              (PurePath.parse "src/b.txt") "move" (mkWorld Scenario.single_disk [])).2
      = (if String.eqb "move" "move"
         then <[final := NFile (mkStat 5 0) "bytes"]>
                (delete (PurePath.parse "src/a.txt") Scenario.single_disk)
         else <[final := NFile (mkStat 5 0) "bytes"]> Scenario.single_disk).
Proof.
  apply (@safe_link_or_copy_places_on_free_name Scenario.machine
           (PurePath.parse "src/a.txt") (PurePath.parse "src/b.txt") "move"
           (mkWorld Scenario.single_disk [])
           (safe_link_or_copy (H := Scenario.machine) (PurePath.parse "src/a.txt")
              (PurePath.parse "src/b.txt") "move" (mkWorld Scenario.single_disk [])).2
           (mkStat 5 0) "bytes" "move");
    vm_compute; reflexivity.
Defined.

(** ** What [organize] records *)

Section Records.
Context `{Platform}.

Lemma safe_link_or_copy_action src_ dst_ mode w a w' :
  safe_link_or_copy src_ dst_ mode w = (Ok a, w') →
  a ∈ ["move"; "copy"; "hardlink"].
Proof.
  unfold safe_link_or_copy. intros (final & w0 & _ & Hrun)%bind_ok_inv.
  destruct (String.eqb mode "hardlink").
  - revert Hrun. unfold try_except_OSError.
    destruct ((os_link src_ final ≫= _) w0) as [[a0|e] w1] eqn:Hlink.
    + apply bind_ok_inv in Hlink as (? & ? & _ & [= <- _]). intros [= <- _].
      apply list_elem_of_further, list_elem_of_further, list_elem_of_here.
    + destruct (is_OSError e); [|done].
      intros (? & ? & _ & [= <- _])%bind_ok_inv.
      apply list_elem_of_further, list_elem_of_here.
  - destruct (String.eqb mode "copy");
      apply bind_ok_inv in Hrun as (? & ? & _ & [= <- _]).
    + apply list_elem_of_further, list_elem_of_here.
    + apply list_elem_of_here.
Qed.

Lemma place_file_record dest_root rules mode dry_run st f dst_ h w st' w' :
  place_file dest_root rules mode dry_run st f dst_ h w = (Ok st', w') →
  ∃ r, results st' = results st ++ [r]
       ∧ src r = PurePath.str f
       ∧ record_ok rules mode dry_run r.
Proof.
  unfold place_file. intros (final & w0 & _ & Hrun)%bind_ok_inv.
  destruct dry_run.
  - apply bind_ok_inv in Hrun as (? & ? & _ & [= <- _]).
    eexists. split; [done|]. split; [done|]. by right.
  - apply bind_ok_inv in Hrun as (? & w1 & _ & Hrun).
    apply bind_ok_inv in Hrun as (a & w2 & Hact & Hrun).
    apply bind_ok_inv in Hrun as (? & ? & _ & [= <- _]).
    eexists. split; [done|]. split; [done|]. right.
    by apply safe_link_or_copy_action in Hact.
Qed.

Lemma organize_file_record dest_root rules mode dry_run st f w st' w' :
  organize_file dest_root rules mode dry_run st f w = (Ok st', w') →
  results st' = results st
  ∨ ∃ r, results st' = results st ++ [r]
         ∧ src r = PurePath.str f
         ∧ record_ok rules mode dry_run r.
Proof.
  unfold organize_file. rewrite run_get_disk.
  destruct (Disk.is_dir (disk w) f); [intros [= <- _]; by left|].
  intros (dst0 & w0 & _ & Hrun)%bind_ok_inv.
  apply bind_ok_inv in Hrun as (h & w1 & _ & Hrun). right.
  destruct (seen_hashes st !! h) as [first|];
    [|by apply place_file_record in Hrun].
  destruct (String.eqb_spec (DuplicateRule.action (duplicates rules)) "skip")
    as [Hskip|_].
  - apply bind_ok_inv in Hrun as (? & ? & _ & [= <- _]).
    eexists. split; [done|]. split; [done|]. by left.
  - destruct (String.eqb _ "separate"); [by apply place_file_record in Hrun|].
    destruct (String.eqb _ "hardlink"); by apply place_file_record in Hrun.
Qed.

Lemma organize_loop_records dest_root rules mode dry_run files st w st' w' :
  organize_loop dest_root rules mode dry_run files st w = (Ok st', w') →
  ∃ new, results st' = results st ++ new
         ∧ (src <$> new) `sublist_of` (PurePath.str <$> files)
         ∧ Forall (record_ok rules mode dry_run) new.
Proof.
  revert st w. induction files as [|f files IH]; intros st w.
  - intros [= <- _]. exists []. by rewrite app_nil_r.
  - cbn [organize_loop]. intros (st1 & w1 & Hstep & Hrun)%bind_ok_inv.
    apply IH in Hrun as (new & Hres & Hsub & Hall). rewrite fmap_cons.
    apply organize_file_record in Hstep as [Hsame|(r & Hone & Hsrc & Hr)].
    + exists new. rewrite Hres, Hsame. split; [done|]. split; [|done].
      by apply sublist_cons.
    + exists (r :: new). rewrite Hres, Hone, <- app_assoc. split; [done|].
      split; [|by constructor]. rewrite fmap_cons, Hsrc. by apply sublist_skip.
Qed.

Lemma organize_run_inv tree src_root dest_root rules mode dry_run undo_manifest
  w recorded w' :
  organize tree src_root dest_root rules mode dry_run undo_manifest w
  = (Ok recorded, w') →
  organize_run tree src_root dest_root rules mode dry_run undo_manifest w
  = (Ok recorded, w').
Proof.
  unfold organize, resolve_. rewrite run_get_disk.
  destruct (negb _); [done|]. destruct (within_dir _ _); [done|].
  destruct (resolve src_root); [|done]. destruct (resolve dest_root); [|done].
  unfold mbind at 1 2, M_bind at 1 2, mret, M_ret.
  by destruct (bool_decide _).
Qed.

Lemma organize_records_aux tree src_root dest_root rules mode dry_run undo_manifest
  w w' recorded :
  organize tree src_root dest_root rules mode dry_run undo_manifest w
  = (Ok recorded, w') →
  (src <$> recorded)
    `sublist_of`
    (PurePath.str <$> _walk_files src_root tree (exclude_dirs rules) (exclude_hidden rules))
  ∧ Forall (record_ok rules mode dry_run) recorded.
Proof.
  intros Hrun%organize_run_inv. revert Hrun. unfold organize_run.
  intros (st & w1 & Hloop & Hrest)%bind_ok_inv.
  apply bind_ok_inv in Hrest as (? & w2 & _ & [= <- _]).
  apply organize_loop_records in Hloop as (new & Hres & Hsub & Hall).
  simpl in Hres. by rewrite Hres.
Qed.

(** Whatever [organize] returns has at most one record per walked file, in
    the order of the walk, each under the name of its file. A record is the
    skip of a duplicate (empty destination, skip policy only), else in a dry
    run the plan of the requested mode and otherwise a move, a copy or a
    hard link: plans never come out of a real run nor placements out of a
    dry one. *)
Theorem organize_records_follow_walk (tree : dtree) (src_root dest_root : Path)
  (rules : Rules) (mode : string) (dry_run : bool) (undo_manifest : option Path)
  (w w' : world) (recorded : list MoveResult) :
  organize tree src_root dest_root rules mode dry_run undo_manifest w
  = (Ok recorded, w') →
  (src <$> recorded)
    `sublist_of`
    (PurePath.str <$> _walk_files src_root tree (exclude_dirs rules) (exclude_hidden rules))
  ∧ Forall (record_ok rules mode dry_run) recorded.
Proof. apply organize_records_aux. Qed.

(** A real run with a manifest path leaves at that path the records of the
    placements it made, all of them and in order, the skipped duplicates
    left out; if the JSON text reads back as it was written, [undo] on the
    disk left by the run works through exactly these, last first. *)
Theorem organize_manifest_holds_placements (tree : dtree) (src_root dest_root : Path)
  (rules : Rules) (mode : string) (manifest : Path)
  (w w' : world) (recorded : list MoveResult) :
  organize tree src_root dest_root rules mode false (Some manifest) w
  = (Ok recorded, w') →
  let placed := List.filter (fun r => negb (String.eqb (action r) "skip-duplicate")) recorded in
  (∃ st, disk w' !! manifest = Some (NFile st (json_dumps placed)))
  ∧ (json_loads (json_dumps placed) = Some placed →
     undo manifest w' = undo_loop (rev placed) [] w').
Proof.
  intros Hrun placed.
  destruct (organize_records_aux _ _ _ _ _ _ _ _ _ _ Hrun) as [_ Hall].
  assert (placed = List.filter undoable recorded) as Hplaced.
  { unfold placed. clear -Hall. induction Hall as [|r l Hr Hl IH]; simpl; [done|].
    rewrite IH. unfold undoable.
    destruct Hr as [(-> & _ & _)|Hr]; [done|]. simpl in Hr.
    rewrite !elem_of_cons, elem_of_nil in Hr.
    by destruct Hr as [->|[->|[->|[]]]]. }
  apply organize_run_inv in Hrun. revert Hrun. unfold organize_run.
  intros (st & w1 & Hloop & Hrest)%bind_ok_inv. cbn [negb] in Hrest.
  apply bind_ok_inv in Hrest as (? & w2 & Hwrite & [= <- <-]).
  apply bind_ok_inv in Hwrite as (? & w3 & _ & Hwrite).
  apply bind_ok_inv in Hwrite as (? & w4 & Hwrite & [= _ <-]).
  assert (∃ st0, disk w4 !! manifest = Some (NFile st0 (json_dumps placed))) as [st0 Hfile].
  { revert Hwrite. unfold write_text. rewrite run_get_disk.
    destruct (Disk.is_dir _ _); [done|]. destruct (Disk.parent_ready _ _); [|done].
    intros [= _ <-]. simpl. rewrite lookup_insert_eq, Hplaced. eauto. }
  split; [by exists st0|]. intros Hjson.
  assert (read_file manifest (mkWorld (disk w4) (out w4 ++
            ["📝 Undo manifest saved -> " +:+ PurePath.str manifest]))
          = (Ok (json_dumps placed), mkWorld (disk w4) (out w4 ++
            ["📝 Undo manifest saved -> " +:+ PurePath.str manifest]))) as Hread.
  { unfold read_file. rewrite run_get_disk. simpl. by rewrite Hfile. }
  unfold undo. rewrite run_get_disk. unfold Disk.exists_. simpl.
  rewrite Hfile. cbn [negb]. by rewrite (run_bind_ok _ _ _ _ _ Hread), Hjson.
Qed.

Lemma undo_loop_all_missing ops undone w :
  Forall (fun rec => Disk.exists_ (disk w) (PurePath.parse (dst rec)) = false) ops →
  undo_loop ops undone w
  = (Ok undone, mkWorld (disk w) (out w ++ (missing_line <$> ops))).
Proof.
  revert w. induction ops as [|rec ops IH]; intros w Hall.
  - simpl. unfold mret, M_ret. rewrite app_nil_r. by destruct w.
  - inversion Hall as [|?? Hrec Hrest]; subst.
    rewrite undo_loop_skip by done. rewrite IH by done. simpl.
    by rewrite <- app_assoc.
Qed.

(** When none of the recorded destinations is there any more, [undo] raises
    nothing, restores nothing and leaves the disk as it is: it returns no
    record and logs one warning per operation, the last operation first. *)
Theorem undo_nothing_left (undo_manifest : Path) (w : world) (st : stat_result)
  (text : string) (ops : list MoveResult) :
  disk w !! undo_manifest = Some (NFile st text) →
  json_loads text = Some ops →
  Forall (fun rec => Disk.exists_ (disk w) (PurePath.parse (dst rec)) = false) ops →
  undo undo_manifest w
  = (Ok [], mkWorld (disk w) (out w ++ (missing_line <$> rev ops))).
Proof.
  intros Hfile Hjson Hall.
  assert (read_file undo_manifest w = (Ok text, w)) as Hread.
  { unfold read_file. by rewrite run_get_disk, Hfile. }
  unfold undo. rewrite run_get_disk. unfold Disk.exists_. rewrite Hfile.
  cbn [negb]. rewrite (run_bind_ok _ _ _ _ _ Hread), Hjson.
  apply undo_loop_all_missing. by apply Forall_rev.
Qed.

End Records.

Lemma organize_records_follow_walk_witness :
  (src <$> [mkMoveResult "src/a.txt" "dest/Others/a.txt" "move";
            mkMoveResult "src/b.txt" "" "skip-duplicate";
            mkMoveResult "src/c.txt" "" "skip-duplicate"])
    `sublist_of`
    (PurePath.str <$> _walk_files Scenario.src_root Scenario.triple_tree
                        (exclude_dirs Scenario.defaults) (exclude_hidden Scenario.defaults))
  ∧ Forall (record_ok (Scenario.with_duplicates "skip" "Duplicates" Scenario.defaults)
              "move" false)
      [mkMoveResult "src/a.txt" "dest/Others/a.txt" "move";
       mkMoveResult "src/b.txt" "" "skip-duplicate";
       mkMoveResult "src/c.txt" "" "skip-duplicate"].
Proof.
  apply (@organize_records_follow_walk Scenario.machine Scenario.triple_tree
           Scenario.src_root Scenario.dest_root
           (Scenario.with_duplicates "skip" "Duplicates" Scenario.defaults)
           "move" false None (mkWorld Scenario.triple_disk [])
           (organize (H := Scenario.machine) Scenario.triple_tree
              Scenario.src_root Scenario.dest_root
              (Scenario.with_duplicates "skip" "Duplicates" Scenario.defaults)
              "move" false None (mkWorld Scenario.triple_disk [])).2).
  vm_compute. reflexivity.
Defined.

Lemma organize_manifest_holds_placements_witness :
  let w' :=
    (organize (H := Cases.ledger) Scenario.triple_tree
       Scenario.src_root Scenario.dest_root
       (Scenario.with_duplicates "skip" "Duplicates" Scenario.defaults)
       "move" false (Some (PurePath.parse "manifest.json"))
       (mkWorld Scenario.triple_disk [])).2 in
  (∃ st, disk w' !! PurePath.parse "manifest.json"
         = Some (NFile st (Cases.unlines ["src/a.txt"; "dest/Others/a.txt"; "move"])))
  ∧ undo (H := Cases.ledger) (PurePath.parse "manifest.json") w'
    = undo_loop (H := Cases.ledger)
        [mkMoveResult "src/a.txt" "dest/Others/a.txt" "move"] [] w'.
Proof.
  destruct (@organize_manifest_holds_placements Cases.ledger Scenario.triple_tree
              Scenario.src_root Scenario.dest_root
              (Scenario.with_duplicates "skip" "Duplicates" Scenario.defaults)
              "move" (PurePath.parse "manifest.json") (mkWorld Scenario.triple_disk [])
              (organize (H := Cases.ledger) Scenario.triple_tree
                 Scenario.src_root Scenario.dest_root
                 (Scenario.with_duplicates "skip" "Duplicates" Scenario.defaults)
                 "move" false (Some (PurePath.parse "manifest.json"))
                 (mkWorld Scenario.triple_disk [])).2
              [mkMoveResult "src/a.txt" "dest/Others/a.txt" "move";
               mkMoveResult "src/b.txt" "" "skip-duplicate";
               mkMoveResult "src/c.txt" "" "skip-duplicate"]
              ltac:(vm_compute; reflexivity)) as [Hfile Hundo].
  split; [exact Hfile|]. apply Hundo. vm_compute. reflexivity.
Defined.

Lemma undo_nothing_left_witness :
  undo (H := Scenario.machine) (PurePath.parse "manifest.json")
    (mkWorld Cases.emptied_disk [])
  = (Ok [], mkWorld Cases.emptied_disk
              ([] ++ (missing_line
                        <$> rev [mkMoveResult "src/a.txt" "dest/Others/a.txt" "move";
                                 mkMoveResult "src/b.txt" "dest/Others/b.txt" "move"]))).
Proof.
  apply (@undo_nothing_left Scenario.machine (PurePath.parse "manifest.json")
           (mkWorld Cases.emptied_disk []) (mkStat 2 0) "{}").
  - reflexivity.
  - reflexivity.
  - repeat constructor.
Defined.

(** ** Paths written down and read back *)

Lemma split_slash_slash s :
  Str.split_slash (String "/" s) = "" :: Str.split_slash s.
Proof. reflexivity. Qed.

Lemma split_slash_join l :
  l ≠ [] → Forall (fun x => plain x = true) l →
  Str.split_slash (Str.join_slash l) = l.
Proof.
  intros Hne Hall. induction Hall as [|x l Hx Hl IH]; [done|].
  destruct l as [|y l].
  - simpl. by apply split_slash_plain.
  - change (Str.join_slash (x :: y :: l)) with (x +:+ "/" +:+ Str.join_slash (y :: l)).
    rewrite (split_slash_plain_app x _ "" (y :: l)); [|done|].
    + f_equal. clear. induction x as [|c x IH]; [done|]. by rewrite string_app_cons, IH.
    + change ("/" +:+ Str.join_slash (y :: l)) with (String "/" (Str.join_slash (y :: l))).
      by rewrite split_slash_slash, IH.
Qed.

Lemma filter_keep_all l :
  Forall (fun x => plain x = true ∧ PurePath.keep_part x = true) l →
  List.filter PurePath.keep_part l = l.
Proof.
  induction 1 as [|x l [_ Hx] Hl IH]; simpl; [done|]. by rewrite Hx, IH.
Qed.

Lemma parts_of_join l :
  Forall (fun x => plain x = true ∧ PurePath.keep_part x = true) l →
  PurePath.parts_of (Str.join_slash l) = l.
Proof.
  intros Hall. unfold PurePath.parts_of. destruct l as [|x l]; [done|].
  rewrite split_slash_join; [by apply filter_keep_all|done|].
  eapply Forall_impl; [done|]. by intros ? [? _].
Qed.

Lemma root_of_join_relative x l :
  plain x = true → PurePath.keep_part x = true →
  PurePath.root_of (Str.join_slash (x :: l)) = "".
Proof.
  intros Hx Hk. destruct x as [|c x]; [done|]. simpl in Hx.
  apply andb_true_iff in Hx as [Hc _]. apply negb_true_iff in Hc.
  destruct l as [|y l].
  - simpl. destruct x as [|c2 [|c3 x]]; by rewrite Hc.
  - change (Str.join_slash (String c x :: y :: l))
      with (String c (x +:+ "/" +:+ Str.join_slash (y :: l))).
    simpl. destruct (x +:+ _) as [|c2 [|c3 ?]]; by rewrite Hc.
Qed.

(** [Path(str(p))] is [p]: what [organize] writes in a record, [undo] reads
    back as the same path. *)
Lemma parse_str p : wf_path p → PurePath.parse (PurePath.str p) = p.
Proof.
  destruct p as [a l]. unfold wf_path. simpl. intros [Ha Hl].
  assert (∀ x l', l = x :: l' → ∃ c s, Str.join_slash l = String c s
                                       ∧ Str.is_slash c = false) as Hfirst.
  { intros x l' ->. inversion Hl as [|?? [Hx Hk] _]; subst.
    destruct x as [|c x]; [done|]. simpl in Hx.
    apply andb_true_iff in Hx as [Hc _]. apply negb_true_iff in Hc.
    destruct l'; simpl; eauto. }
  rewrite !elem_of_cons, elem_of_nil in Ha.
  destruct Ha as [->|[->|[->|[]]]].
  - destruct l as [|x l']; [done|].
    change (PurePath.parse (PurePath.str (mkPath "" (x :: l'))))
      with (mkPath (PurePath.root_of (Str.join_slash (x :: l')))
                   (PurePath.parts_of (Str.join_slash (x :: l')))).
    rewrite parts_of_join by done.
    inversion Hl as [|?? [Hx Hk] _]; subst. by rewrite root_of_join_relative.
  - change (PurePath.parse (PurePath.str (mkPath "/" l)))
      with (mkPath (PurePath.root_of (String "/" (Str.join_slash l)))
                   (PurePath.parts_of (Str.join_slash l))).
    rewrite parts_of_join by done. f_equal.
    destruct l as [|x l']; [done|].
    destruct (Hfirst x l' eq_refl) as (c & s & -> & Hc).
    simpl. destruct s as [|c2 s]; by rewrite Hc.
  - change (PurePath.parse (PurePath.str (mkPath "//" l)))
      with (mkPath (PurePath.root_of (String "/" (String "/" (Str.join_slash l))))
                   (PurePath.parts_of (Str.join_slash l))).
    rewrite parts_of_join by done. f_equal.
    destruct l as [|x l']; [done|].
    destruct (Hfirst x l' eq_refl) as (c & s & -> & Hc).
    simpl. by rewrite Hc.
Qed.

Lemma wf_path_parse s : wf_path (PurePath.parse s).
Proof.
  split.
  - simpl. unfold PurePath.root_of. rewrite !elem_of_cons.
    destruct s as [|c1 [|c2 [|c3 s]]]; simpl;
      repeat (match goal with |- context [if ?b then _ else _] => destruct b end);
      tauto.
  - simpl. unfold PurePath.parts_of. apply Forall_forall.
    intros x Hx%list_elem_of_In%List.filter_In. destruct Hx as [Hx Hk].
    split; [|done]. apply list_elem_of_In in Hx.
    by apply (proj1 (Forall_forall _ _) (plain_split_slash s)).
Qed.

Lemma wf_path_plain_parts p : wf_path p → plain_parts p.
Proof.
  intros [_ Hl]. unfold plain_parts. eapply Forall_impl; [done|]. by intros ? [? _].
Qed.

Lemma wf_path_parent p : wf_path p → wf_path (PurePath.parent p).
Proof.
  intros [Ha Hl]. split; [done|]. simpl.
  induction Hl as [|x l Hx Hl IH]; simpl; [constructor|].
  destruct l; [constructor|]. by constructor.
Qed.

Lemma wf_path_candidate dst n : wf_path dst → wf_path (candidate dst n).
Proof.
  intros Hwf. pose proof (wf_path_plain_parts _ Hwf) as Hp.
  assert (plain (PurePath.stem dst +:+ "(" +:+ Str.dec n +:+ ")" +:+ PurePath.suffix dst)
          = true) as Hplain.
  { apply plain_app; [by apply plain_stem|].
    apply (plain_app "("); [done|]. apply plain_app; [apply plain_dec|].
    apply (plain_app ")"); [done|]. by apply plain_suffix. }
  unfold candidate. rewrite div_plain; [|done|apply keep_part_paren].
  destruct (wf_path_parent _ Hwf) as [Ha Hl]. split; [done|]. simpl in *.
  apply Forall_app. split; [done|]. repeat constructor; [done|apply keep_part_paren].
Qed.

Lemma wf_path_free_name d dst p : wf_path dst → free_name d dst = Some p → wf_path p.
Proof.
  intros Hwf. unfold free_name. destruct (Disk.exists_ d dst); cbn [negb].
  - intros [n ->]%probe_candidate. by apply wf_path_candidate.
  - by intros [= <-].
Qed.

(** ** A move and its undo *)

Lemma wf_path_div p s : wf_path p → wf_path (p // s).
Proof.
  intros Hwf. unfold PurePath.div. destruct s as [|c s]; [done|].
  destruct (Str.is_slash c); [apply wf_path_parse|].
  destruct Hwf as [Ha Hl]. split; [done|]. simpl. apply Forall_app. split; [done|].
  apply (wf_path_parse (String c s)).
Qed.

Lemma wf_path_joinpath p segs : wf_path p → wf_path (PurePath.joinpath p segs).
Proof.
  unfold PurePath.joinpath. revert p.
  induction segs as [|s segs IH]; intros p Hwf; simpl; [done|].
  by apply IH, wf_path_div.
Qed.

Lemma not_in_chain_parent p : p ∉ Disk.chain (PurePath.parent p).
Proof.
  unfold Disk.chain. intros (k & Hp & Hk%elem_of_seq)%list_elem_of_fmap.
  apply (f_equal (fun q => length (parts q))) in Hp. simpl in Hp.
  rewrite length_take in Hp.
  assert (length (removelast (parts p)) = length (parts p) - 1)%nat as Hlen.
  { destruct (parts p) as [|x l] using rev_ind; [done|].
    rewrite removelast_last, length_app. simpl. lia. }
  simpl in Hk. rewrite Hlen in Hk, Hp. lia.
Qed.

Section MoveUndo.
Context `{Platform}.

Lemma compute_destination_wf path dest_root rules w p w' :
  wf_path dest_root →
  compute_destination path dest_root rules w = (Ok p, w') → wf_path p.
Proof.
  intros Hwf. unfold compute_destination.
  intros (folder & w0 & _ & Hrun)%bind_ok_inv.
  apply bind_ok_inv in Hrun as (segs & w1 & _ & Hrun).
  apply bind_ok_inv in Hrun as (st & w2 & _ & Hrun).
  apply bind_ok_inv in Hrun as (bucket & w3 & _ & [= <- _]).
  by apply wf_path_div, wf_path_joinpath.
Qed.

(** [compute_destination] reads: it leaves the disk and the log alone. *)
Lemma bind_world {A B} (m : M A) (k : A → M B) w :
  (m w).2 = w → (∀ a, (k a w).2 = w) → ((m ≫= k) w).2 = w.
Proof.
  intros Hm Hk. unfold mbind, M_bind.
  destruct (m w) as [[a|e] w0]; simpl in *; subst; [apply Hk|done].
Qed.

Lemma os_stat_world p w : (os_stat p w).2 = w.
Proof.
  unfold os_stat. rewrite run_get_disk.
  destruct (Disk.stat (disk w) p); [done|]. by destruct (Disk.implicit p).
Qed.

Lemma compute_destination_world path dest_root rules w :
  (compute_destination path dest_root rules w).2 = w.
Proof.
  unfold compute_destination, file_mtime.
  apply bind_world; [done|intros folder].
  apply bind_world.
  { destruct (enabled (by_date rules)); [|done].
    apply bind_world; [|intros ts; by apply bind_world].
    apply bind_world; [apply os_stat_world|done]. }
  intros segs. apply bind_world; [apply os_stat_world|intros st].
  by apply bind_world.
Qed.

(** Undoing the record of a file just moved to a free name. *)
Lemma undo_loop_after_move (d : gmap Path node) (log : list string) f final n :
  wf_path f → wf_path final →
  Disk.implicit f = false →
  d !! f = Some n → (∃ st data, n = NFile st data) →
  d !! final = None →
  (∀ q, q ∈ Disk.chain (PurePath.parent f) → Disk.is_dir d q = true) →
  os_replace_ok final f = true →
  ∃ log',
    undo_loop [mkMoveResult (PurePath.str f) (PurePath.str final) "move"] []
      (mkWorld (<[final := n]> (delete f d)) log)
    = (Ok [mkMoveResult (PurePath.str final) (PurePath.str f) "undo"], mkWorld d log').
Proof.
  intros Hf Hfinal Himp Hn (st & data & ->) Hfree Hdirs Hdev.
  assert (f ≠ final) as Hne by congruence.
  set (d1 := <[final := NFile st data]> (delete f d)).
  assert (∀ q, q ∈ Disk.chain (PurePath.parent f) → Disk.is_dir d1 q = true) as Hdirs1.
  { intros q Hq. specialize (Hdirs q Hq).
    destruct (is_dir_entry d q (chain_not_implicit _ _ Hq) Hdirs) as [sq Hdq].
    unfold Disk.is_dir, d1.
    rewrite lookup_insert_ne by congruence.
    rewrite lookup_delete_ne by congruence. by rewrite Hdq. }
  assert (d1 !! f = None) as Hf1.
  { unfold d1. rewrite lookup_insert_ne by done. apply lookup_delete_eq. }
  assert (d1 !! final = Some (NFile st data)) as Hfinal1
    by (unfold d1; apply lookup_insert_eq).
  eexists. cbn [undo_loop src dst]. rewrite !parse_str by done.
  rewrite run_get_disk. unfold Disk.exists_ at 1. cbn [disk]. fold d1.
  rewrite Hfinal1. cbn [negb].
  assert (ensure_dir (PurePath.parent f) (mkWorld d1 log) = (Ok tt, mkWorld d1 log)) as Hmk.
  { unfold ensure_dir. rewrite run_get_disk. cbn [disk].
    by rewrite (mkdirs_all_dirs _ d1 _ (chain_not_implicit _) Hdirs1). }
  rewrite (run_bind_ok _ _ _ _ _ Hmk).
  assert (next_nonconflicting_name f (mkWorld d1 log) = (Ok f, mkWorld d1 log)) as Hname.
  { unfold next_nonconflicting_name, free_name, Disk.exists_. rewrite run_get_disk.
    cbn [disk]. by rewrite Hf1, Himp. }
  rewrite (run_bind_ok _ _ _ _ _ Hname).
  assert (Disk.parent_ready d1 f = true) as Hready.
  { unfold Disk.parent_ready.
    destruct (parts (PurePath.parent f)) eqn:Hparts; [done|].
    apply Hdirs1, chain_self. by rewrite Hparts. }
  assert (os_replace final f (mkWorld d1 log) = (Ok tt, mkWorld d log)) as Hrep.
  { unfold os_replace. rewrite run_get_disk. cbn [disk]. rewrite Hfinal1.
    unfold Disk.exists_, Disk.is_dir. rewrite Hf1, Hfinal1, Himp. cbn [andb orb].
    rewrite Hready, Hdev. cbn [negb]. unfold put_disk. cbn [disk out]. f_equal. f_equal.
    unfold Disk.rename_tree. rewrite Hfinal1. unfold d1.
    rewrite delete_insert_eq.
    rewrite (delete_id (delete f d)) by (by rewrite lookup_delete_ne).
    rewrite insert_delete_eq. by apply insert_id. }
  rewrite (run_bind_ok _ _ _ _ _ Hrep). reflexivity.
Qed.

End MoveUndo.

Section MoveUndoFile.
Context `{Platform}.

Lemma place_file_move_undo dest_root rules st f dst_ h w st' w1 n :
  wf_path f → wf_path dst_ →
  Disk.implicit f = false →
  disk w !! f = Some n → (∃ sf data, n = NFile sf data) →
  (∀ q, q ∈ Disk.chain (PurePath.parent f) → Disk.is_dir (disk w) q = true) →
  DuplicateRule.action (duplicates rules) ≠ "hardlink" →
  place_file dest_root rules "move" false st f dst_ h w = (Ok st', w1) →
  ∃ final d1,
    results st' = results st
                  ++ [mkMoveResult (PurePath.str f) (PurePath.str final) "move"]
    ∧ wf_path final
    ∧ Disk.mkdirs (mkStat dir_size clock) (disk w)
        (Disk.chain (PurePath.parent final)) = Some d1
    ∧ disk w1 = <[final := n]> (delete f d1)
    ∧ d1 !! final = None
    ∧ (os_replace_ok final f = true →
       ∃ log',
         undo_loop [mkMoveResult (PurePath.str f) (PurePath.str final) "move"] [] w1
         = (Ok [mkMoveResult (PurePath.str final) (PurePath.str f) "undo"],
            mkWorld d1 log')).
Proof.
  intros Hf Hdst Himp Hn (sf & data & ->) Hdirs Hpolicy. unfold place_file.
  intros (final & w0 & Hname & Hrun)%bind_ok_inv.
  apply next_nonconflicting_name_ok_inv in Hname as [-> Hfree].
  pose proof (wf_path_free_name _ _ _ Hdst Hfree) as Hfinal.
  pose proof (free_name_is_free _ _ _ Hfree) as Hfresh.
  apply exists_false in Hfresh as [Hnone Himpf].
  apply bind_ok_inv in Hrun as (? & wa & Hmk & Hrun).
  apply ensure_dir_ok_inv in Hmk as (d1 & Hmk & ->).
  apply bind_ok_inv in Hrun as (a & wb & Hplace & Hrun).
  cbv [mbind M_bind log_fn mret M_ret] in Hrun. injection Hrun as <- <-.
  assert (String.eqb (DuplicateRule.action (duplicates rules)) "hardlink" = false)
    as Hpol by (by apply String.eqb_neq).
  rewrite Hpol in Hplace. cbn [negb] in Hplace.
  assert (d1 !! f = Some (NFile sf data)) as Hf1 by (by apply (mkdirs_keeps _ _ _ _ _ _ Hmk)).
  assert (d1 !! final = None) as Hnone1.
  { rewrite (mkdirs_other _ _ _ _ _ Hmk); [done|apply not_in_chain_parent]. }
  destruct (safe_link_or_copy_inv f final "move" (mkWorld d1 (out w)) wb sf data a
              Hf1 Hplace)
    as (final' & Hfree' & _ & Hout & -> & Hdisk).
  assert (final' = final) as ->.
  { revert Hfree'. unfold free_name, Disk.exists_. cbn [disk].
    rewrite Hnone1, Himpf. by intros [= <-]. }
  cbn [String.eqb Ascii.eqb Bool.eqb] in Hdisk. simpl in Hdisk.
  exists final, d1. split; [done|]. split; [done|]. split; [done|].
  split; [done|]. split; [done|]. intros Hdev.
  destruct wb as [db logb]. simpl in Hdisk, Hout. subst db. cbn [disk out].
  apply (undo_loop_after_move d1 _ f final (NFile sf data)); eauto.
  intros q Hq. specialize (Hdirs q Hq).
  destruct (is_dir_entry _ q (chain_not_implicit _ _ Hq) Hdirs) as [sq Hdq].
  unfold Disk.is_dir. by rewrite (mkdirs_keeps _ _ _ _ _ _ Hmk Hdq).
Qed.

(** A file moved by the loop of [organize] is put back by [undo] of its
    record: unless the file was skipped as a duplicate (then nothing was
    touched), it is gone from its place and lies at the recorded
    destination, and undoing the record returns the disk to what it was,
    but for the directories made for the destination, which stay. (Not
    under the hardlink policy, where nothing is moved. The file has a name:
    it is not an entry put at the working directory or the root.) *)
Theorem move_file_then_undo (dest_root : Path) (rules : Rules) (st st' : loop_state)
  (f : Path) (w w1 : world) :
  wf_path f → wf_path dest_root →
  is_file (disk w) f → Disk.implicit f = false →
  (∀ q, q ∈ Disk.chain (PurePath.parent f) → Disk.is_dir (disk w) q = true) →
  DuplicateRule.action (duplicates rules) ≠ "hardlink" →
  organize_file dest_root rules "move" false st f w = (Ok st', w1) →
  ∃ r, results st' = results st ++ [r]
    ∧ src r = PurePath.str f
    ∧ ((action r = "skip-duplicate" ∧ disk w1 = disk w)
       ∨ (action r = "move"
          ∧ disk w1 !! f = None
          ∧ disk w1 !! PurePath.parse (dst r) = disk w !! f
          ∧ (os_replace_ok (PurePath.parse (dst r)) f = true →
             ∃ w2,
               undo_loop [r] [] w1
               = (Ok [mkMoveResult (dst r) (PurePath.str f) "undo"], w2)
               ∧ ∀ k, disk w2 !! k = disk w !! k
                      ∨ (disk w !! k = None
                         ∧ k ∈ Disk.chain (PurePath.parent (PurePath.parse (dst r)))
                         ∧ Disk.is_dir (disk w2) k = true)))).
Proof.
  intros Hf Hroot (sf & data & Hfile) Himp Hdirs Hpolicy.
  assert (∀ dst_, wf_path dst_ → ∀ h,
    place_file dest_root rules "move" false st f dst_ h w = (Ok st', w1) →
    ∃ r, results st' = results st ++ [r]
      ∧ src r = PurePath.str f
      ∧ ((action r = "skip-duplicate" ∧ disk w1 = disk w)
         ∨ (action r = "move"
            ∧ disk w1 !! f = None
            ∧ disk w1 !! PurePath.parse (dst r) = disk w !! f
            ∧ (os_replace_ok (PurePath.parse (dst r)) f = true →
               ∃ w2,
                 undo_loop [r] [] w1
                 = (Ok [mkMoveResult (dst r) (PurePath.str f) "undo"], w2)
                 ∧ ∀ k, disk w2 !! k = disk w !! k
                        ∨ (disk w !! k = None
                           ∧ k ∈ Disk.chain (PurePath.parent (PurePath.parse (dst r)))
                           ∧ Disk.is_dir (disk w2) k = true))))) as Hplace.
  { intros dst_ Hdst h Hrun.
    destruct (place_file_move_undo _ _ _ _ _ _ _ _ _ _ Hf Hdst Himp Hfile
                ltac:(eauto) Hdirs Hpolicy Hrun)
      as (final & d1 & Hres & Hfinal & Hmk & Hdisk & Hnone1 & Hundo).
    assert (f ≠ final) as Hne.
    { intros ->. rewrite (mkdirs_keeps _ _ _ _ _ _ Hmk Hfile) in Hnone1. done. }
    eexists. split; [exact Hres|]. split; [done|]. right. cbn [action dst].
    rewrite parse_str by done. split; [done|]. rewrite Hdisk.
    split; [rewrite lookup_insert_ne by done; apply lookup_delete_eq|].
    split; [by rewrite lookup_insert_eq|].
    intros Hdev. destruct (Hundo Hdev) as [log' Hloop]. eexists. split; [exact Hloop|].
    cbn [disk]. intros k.
    destruct (decide (k ∈ Disk.chain (PurePath.parent final))) as [Hin|Hout].
    - destruct (disk w !! k) as [nk|] eqn:Hk.
      + left. by apply (mkdirs_keeps _ _ _ _ _ _ Hmk).
      + right. split; [done|]. split; [done|]. by apply (mkdirs_makes _ _ _ _ _ Hmk).
    - left. by apply (mkdirs_other _ _ _ _ _ Hmk). }
  intros Hrun. unfold organize_file in Hrun. rewrite run_get_disk in Hrun.
  assert (Disk.is_dir (disk w) f = false) as Hnd
    by (unfold Disk.is_dir; by rewrite Hfile).
  rewrite Hnd in Hrun.
  apply bind_ok_inv in Hrun as (dst0 & w0 & Hdst & Hrun).
  assert (w0 = w) as ->.
  { pose proof (compute_destination_world f dest_root rules w) as Hkd.
    by rewrite Hdst in Hkd. }
  pose proof (compute_destination_wf _ _ _ _ _ _ Hroot Hdst) as Hdst0.
  apply bind_ok_inv in Hrun as (h & w0 & Hhash & Hrun).
  assert (w0 = w) as ->.
  { assert (hash_file f w = (Ok (sha256_hexdigest data), w)) as Hh.
    { unfold hash_file, read_file. mrun. by rewrite Hfile. }
    rewrite Hh in Hhash. by injection Hhash as _ <-. }
  destruct (seen_hashes st !! h) as [first|]; [|by apply (Hplace dst0 Hdst0 h)].
  destruct (String.eqb_spec (DuplicateRule.action (duplicates rules)) "skip") as [_|_].
  - cbv [mbind M_bind log_fn mret M_ret] in Hrun. injection Hrun as <- <-.
    eexists. split; [done|]. split; [done|]. by left.
  - destruct (String.eqb _ "separate").
    { apply (Hplace _ (wf_path_div _ _ (wf_path_div _ _ Hroot)) _ Hrun). }
    destruct (String.eqb _ "hardlink").
    { apply (Hplace _ (wf_path_div _ _ (wf_path_div _ _ Hroot)) _ Hrun). }
    by apply (Hplace dst0 Hdst0 h).
Qed.

End MoveUndoFile.

Lemma move_file_then_undo_witness :
  ∃ r, results (mkLoop [mkMoveResult "src/a.txt" "dest/Others/a.txt" "move"]
                  {[ "bytes" := Scenario.src_root // "a.txt" ]})
       = results (mkLoop [] ∅) ++ [r]
    ∧ src r = PurePath.str (Scenario.src_root // "a.txt")
    ∧ ((action r = "skip-duplicate"
        ∧ disk (organize_file (H := Scenario.machine) Scenario.dest_root Scenario.defaults
                  "move" false (mkLoop [] ∅) (Scenario.src_root // "a.txt")
                  (mkWorld Scenario.single_disk [])).2
          = disk (mkWorld Scenario.single_disk []))
       ∨ (action r = "move"
          ∧ disk (organize_file (H := Scenario.machine) Scenario.dest_root Scenario.defaults
                    "move" false (mkLoop [] ∅) (Scenario.src_root // "a.txt")
                    (mkWorld Scenario.single_disk [])).2
              !! (Scenario.src_root // "a.txt") = None
          ∧ disk (organize_file (H := Scenario.machine) Scenario.dest_root Scenario.defaults
                    "move" false (mkLoop [] ∅) (Scenario.src_root // "a.txt")
                    (mkWorld Scenario.single_disk [])).2
              !! PurePath.parse (dst r)
            = disk (mkWorld Scenario.single_disk []) !! (Scenario.src_root // "a.txt")
          ∧ (os_replace_ok (Platform := Scenario.machine) (PurePath.parse (dst r))
               (Scenario.src_root // "a.txt") = true →
             ∃ w2,
               undo_loop (H := Scenario.machine) [r] []
                 (organize_file (H := Scenario.machine) Scenario.dest_root
                    Scenario.defaults "move" false (mkLoop [] ∅)
                    (Scenario.src_root // "a.txt") (mkWorld Scenario.single_disk [])).2
               = (Ok [mkMoveResult (dst r) (PurePath.str (Scenario.src_root // "a.txt")) "undo"],
                  w2)
               ∧ ∀ k, disk w2 !! k = disk (mkWorld Scenario.single_disk []) !! k
                      ∨ (disk (mkWorld Scenario.single_disk []) !! k = None
                         ∧ k ∈ Disk.chain (PurePath.parent (PurePath.parse (dst r)))
                         ∧ Disk.is_dir (disk w2) k = true)))).
Proof.
  apply (@move_file_then_undo Scenario.machine Scenario.dest_root Scenario.defaults
           (mkLoop [] ∅)
           (mkLoop [mkMoveResult "src/a.txt" "dest/Others/a.txt" "move"]
              {[ "bytes" := Scenario.src_root // "a.txt" ]})
           (Scenario.src_root // "a.txt") (mkWorld Scenario.single_disk [])).
  - apply (wf_path_parse "src/a.txt").
  - apply (wf_path_parse "dest").
  - by eexists _, _.
  - reflexivity.
  - intros q Hq. apply list_elem_of_singleton in Hq as ->. reflexivity.
  - discriminate.
  - vm_compute. reflexivity.
Defined.

(** ** [within_dir] *)

Lemma strip_prefix_app pre l rest :
  PurePath.strip_prefix pre l = Some rest ↔ l = pre ++ rest.
Proof.
  revert l. induction pre as [|x pre IH]; intros l; simpl.
  - split; [by intros [= ->]|by intros ->].
  - destruct l as [|y l]; [split; [done|by intros ?]|].
    destruct (String.eqb_spec x y) as [->|Hne].
    + rewrite IH. split; [by intros ->|by intros [= ->]].
    + split; [done|]. intros [= ? _]. congruence.
Qed.

Section Within.
Context `{Platform}.

(** [within_dir] holds exactly when both paths resolve and the resolved
    child is the resolved parent or lies below it: same anchor, and the
    parent's components at the head of the child's. A path that does not
    resolve gives [False], not an exception. *)
Theorem within_dir_resolved_prefix (child parent_ : Path) :
  within_dir child parent_ = true
  ↔ ∃ rc rp, resolve child = Some rc ∧ resolve parent_ = Some rp
             ∧ anchor rc = anchor rp ∧ parts rp `prefix_of` parts rc.
Proof.
  unfold within_dir, PurePath.relative_to. split.
  - destruct (resolve child) as [rc|]; [|done].
    destruct (resolve parent_) as [rp|]; [|done].
    destruct (String.eqb_spec (anchor rc) (anchor rp)) as [Ha|]; [|done].
    destruct (PurePath.strip_prefix (parts rp) (parts rc)) as [rest|] eqn:Hs; [|done].
    intros _. exists rc, rp. apply strip_prefix_app in Hs.
    repeat split; try done. by exists rest.
  - intros (rc & rp & -> & -> & -> & rest & Hrest).
    rewrite String.eqb_refl. apply strip_prefix_app in Hrest. by rewrite Hrest.
Qed.

End Within.

(** ** Where [compute_destination] puts a file *)

Lemma relative_cons c s : relative (String c s) ↔ Str.is_slash c = false.
Proof.
  unfold relative, Str.startswith, Str.is_slash.
  change (String.prefix "/" (String c s))
    with (if ascii_dec "/" c then String.prefix "" s else false).
  destruct (ascii_dec "/" c) as [<-|Hne].
  - split; [by destruct s|done].
  - split; [|done]. intros _. apply Ascii.eqb_neq. congruence.
Qed.

Lemma plain_relative s : plain s = true → relative s.
Proof.
  destruct s as [|c s]; [done|]. simpl. intros [Hc _]%andb_true_iff.
  apply relative_cons. by apply negb_true_iff.
Qed.

Lemma div_relative p s :
  relative s → p // s = mkPath (anchor p) (parts p ++ PurePath.parts_of s).
Proof.
  destruct s as [|c s].
  - intros _. destruct p. simpl. by rewrite app_nil_r.
  - intros Hc%relative_cons. unfold PurePath.div. by rewrite Hc.
Qed.

Lemma joinpath_relative p segs :
  Forall relative segs →
  ∃ rest, PurePath.joinpath p segs = mkPath (anchor p) (parts p ++ rest).
Proof.
  unfold PurePath.joinpath. intros Hall. revert p.
  induction Hall as [|s segs Hs Hall IH]; intros p; simpl.
  - exists []. destruct p. simpl. by rewrite app_nil_r.
  - rewrite (div_relative p s Hs). destruct (IH (mkPath (anchor p)
      (parts p ++ PurePath.parts_of s))) as [rest ->]. simpl.
    exists (PurePath.parts_of s ++ rest). by rewrite app_assoc.
Qed.

Lemma plain_zeros k : plain (Str.zeros k) = true.
Proof. induction k; simpl; done. Qed.

Lemma plain_zfill w n : plain (Str.zfill w n) = true.
Proof. unfold Str.zfill. apply plain_app; [apply plain_zeros|apply plain_dec]. Qed.

Lemma lift_ok_inv {A} (r : res A) w a w' : lift r w = (Ok a, w') → r = Ok a ∧ w' = w.
Proof. unfold lift. by intros [= -> ->]. Qed.

Lemma bucket_loop_in mb buckets name :
  bucket_loop mb buckets = Some name →
  ∃ b, b ∈ buckets ∧ bucket_folder b = Some name.
Proof.
  induction buckets as [|b buckets IH]; simpl; [done|].
  assert (bucket_loop mb buckets = Some name →
          ∃ b0, b0 ∈ b :: buckets ∧ bucket_folder b0 = Some name) as Hrest.
  { intros (b0 & Hb0 & Hf)%IH. exists b0. split; [by apply list_elem_of_further|done]. }
  destruct (bucket_folder b) as [folder|] eqn:Hfolder; [|done].
  assert (Some folder = Some name →
          ∃ b0, b0 ∈ b :: buckets ∧ bucket_folder b0 = Some name) as Hhere.
  { intros [= <-]. exists b. split; [apply list_elem_of_here|done]. }
  destruct (max_mb b) as [m|]; [|done]. by destruct (Qle_bool mb m).
Qed.

Section Destination.
Context `{Platform}.

Lemma os_stat_ok_inv path w st w' : os_stat path w = (Ok st, w') → w' = w.
Proof.
  intros Hst. pose proof (os_stat_world path w) as Hw. by rewrite Hst in Hw.
Qed.

(** What a destination that was computed is made of. *)
Lemma compute_destination_ok_inv w path dest_root rules p w' :
  compute_destination path dest_root rules w = (Ok p, w') →
  ∃ st folder ds bucket,
    os_stat path w = (Ok st, w)
    ∧ classification_folder rules path = Ok folder
    ∧ (enabled (by_date rules) = true → date_parts rules (st_mtime st) = Ok ds)
    ∧ match_size_bucket rules (st_size st) = Ok bucket
    ∧ w' = w
    ∧ p = PurePath.joinpath dest_root
            (option_list bucket
             ++ (if enabled (by_date rules) then base_folder (by_date rules) :: ds else [])
             ++ [folder; PurePath.name path]).
Proof.
  intros Hrun. pose proof Hrun as Hrun0. unfold compute_destination, file_mtime in Hrun.
  apply bind_ok_inv in Hrun as (folder & w0 & [Hfolder ->]%lift_ok_inv & Hrun).
  apply bind_ok_inv in Hrun as (segs & w1 & Hsegs & Hrun).
  assert (w1 = w) as ->.
  { destruct (enabled (by_date rules)); [|by injection Hsegs as _ <-].
    apply bind_ok_inv in Hsegs as (ts & w2 & Hts & Hsegs).
    apply bind_ok_inv in Hts as (st0 & w3 & ->%os_stat_ok_inv & [= _ <-]).
    apply bind_ok_inv in Hsegs as (ds & w4 & [_ ->]%lift_ok_inv & [= _ <-]). done. }
  apply bind_ok_inv in Hrun as (st & w2 & Hst & Hrun).
  pose proof (os_stat_ok_inv _ _ _ _ Hst) as ->.
  apply bind_ok_inv in Hrun as (bucket & w3 & [Hbucket ->]%lift_ok_inv & _).
  assert (∃ ds, enabled (by_date rules) = true → date_parts rules (st_mtime st) = Ok ds)
    as [ds Hds].
  { destruct (enabled (by_date rules)); [|by exists []].
    apply bind_ok_inv in Hsegs as (ts & w2 & Hts & Hsegs).
    rewrite (run_bind_ok _ _ _ _ _ Hst) in Hts. injection Hts as <- <-.
    apply bind_ok_inv in Hsegs as (ds & w4 & [Hds _]%lift_ok_inv & _). eauto. }
  exists st, folder, ds, bucket.
  rewrite (compute_destination_joined w path dest_root rules st folder ds bucket
             Hst Hfolder Hds Hbucket) in Hrun0.
  by injection Hrun0 as <- <-.
Qed.

Lemma date_parts_relative rules ts ds :
  date_parts rules ts = Ok ds → Forall relative ds.
Proof.
  unfold date_parts. destruct (fromtimestamp ts) as [dt|e]; [|done]. intros [= <-].
  repeat (match goal with |- context [if ?b then _ else _] => destruct b end);
    repeat constructor; apply plain_relative, plain_zfill.
Qed.

(** A destination that was computed lies under the destination root when
    the folder names of the rules are not absolute: it has the root's
    anchor and the root's components at its head. An absolute classification
    folder instead replaces everything on its left: the root, the size
    bucket and the date folders are dropped and the file goes to that
    folder. *)
Theorem compute_destination_under_root (w w' : world) (path dest_root p : Path)
  (rules : Rules) :
  compute_destination path dest_root rules w = (Ok p, w') →
  ∃ folder,
    classification_folder rules path = Ok folder
    ∧ (plain_parts path →
       relative folder →
       relative (base_folder (by_date rules)) →
       Forall (fun b => ∀ name, bucket_folder b = Some name → relative name)
         (size_buckets rules) →
       ∃ rest, p = mkPath (anchor dest_root) (parts dest_root ++ rest))
    ∧ (Str.startswith folder "/" = true →
       p = PurePath.parse folder // PurePath.name path).
Proof.
  intros (st & folder & ds & bucket & Hst & Hfolder & Hds & Hbucket & -> & ->)
    %compute_destination_ok_inv.
  exists folder. split; [done|]. split.
  - intros Hpath Hrel Hbase Hbuckets.
    apply joinpath_relative. apply Forall_app. split.
    { destruct bucket as [name|]; simpl; [|constructor]. repeat constructor.
      revert Hbucket. unfold match_size_bucket.
      destruct (size_buckets rules) as [|b0 bs] eqn:Hbs; [done|].
      destruct (megabytes (st_size st)) as [mb|]; [|done].
      intros Hloop. injection Hloop as Hloop.
      apply (bucket_loop_in mb (b0 :: bs)) in Hloop as (b & Hb & Hname).
      by apply (proj1 (Forall_forall _ _) Hbuckets b). }
    apply Forall_app. split.
    { destruct (enabled (by_date rules)); [|constructor].
      constructor; [done|]. by apply (date_parts_relative rules (st_mtime st)), Hds. }
    repeat constructor; [done|]. by apply plain_relative, plain_name.
  - intros Habs. rewrite !app_assoc. unfold PurePath.joinpath.
    rewrite fold_left_app. simpl. f_equal. unfold PurePath.div at 1.
    destruct folder as [|c s]; [done|].
    destruct (Str.is_slash c) eqn:Hc; [done|].
    pose proof (proj2 (relative_cons c s) Hc) as Hr. unfold relative in Hr. congruence.
Qed.

#[local] Set Warnings "-abstract-large-number".

(** The date folders are the year on four digits, then the month and the
    day on two, each reading back as the number it stands for; [year] gives
    the first, [day] all three, and any other grouping (a misspelt one too)
    the first two. *)
Theorem date_parts_zero_padded (rules : Rules) (ts : Q) (dt : datetime) :
  fromtimestamp ts = inl dt →
  (year dt < 10000)%nat →
  (month dt < 100)%nat →
  (day dt < 100)%nat →
  ∃ y m d,
    String.length y = 4%nat ∧ String.length m = 2%nat ∧ String.length d = 2%nat
    ∧ read_decimal y = Some (year dt)
    ∧ read_decimal m = Some (month dt)
    ∧ read_decimal d = Some (day dt)
    ∧ date_parts rules ts
      = Ok (if String.eqb (group (by_date rules)) "year" then [y]
            else if String.eqb (group (by_date rules)) "day" then [y; m; d]
            else [y; m]).
Proof.
  intros Hdt Hy Hm Hd.
  exists (Str.zfill 4 (year dt)), (Str.zfill 2 (month dt)), (Str.zfill 2 (day dt)).
  assert (∀ n, (n < 10000)%nat →
            String.length (Str.zfill 4 n) = 4%nat
            ∧ read_decimal (Str.zfill 4 n) = Some n) as H4.
  { intros n Hn.
    assert (forallb (fun n => Nat.eqb (String.length (Str.zfill 4 n)) 4
                              && bool_decide (read_decimal (Str.zfill 4 n) = Some n))
              (List.seq 0 10000) = true) as Hall by (vm_compute; reflexivity).
    rewrite forallb_forall in Hall. specialize (Hall n).
    rewrite andb_true_iff, Nat.eqb_eq, bool_decide_eq_true in Hall.
    apply Hall, List.in_seq. lia. }
  assert (∀ n, (n < 100)%nat →
            String.length (Str.zfill 2 n) = 2%nat
            ∧ read_decimal (Str.zfill 2 n) = Some n) as H2.
  { intros n Hn.
    assert (forallb (fun n => Nat.eqb (String.length (Str.zfill 2 n)) 2
                              && bool_decide (read_decimal (Str.zfill 2 n) = Some n))
              (List.seq 0 100) = true) as Hall by (vm_compute; reflexivity).
    rewrite forallb_forall in Hall. specialize (Hall n).
    rewrite andb_true_iff, Nat.eqb_eq, bool_decide_eq_true in Hall.
    apply Hall, List.in_seq. lia. }
  destruct (H4 _ Hy) as [? ?], (H2 _ Hm) as [? ?], (H2 _ Hd) as [? ?].
  unfold date_parts. rewrite Hdt. repeat split; try done.
Qed.

End Destination.

Lemma compute_destination_under_root_witness :
  (∃ rest, PurePath.parse "dest/By Date/2025/06/Others/a.txt"
           = mkPath (anchor Scenario.dest_root) (parts Scenario.dest_root ++ rest))
  ∧ PurePath.parse "/var/tmp/a.txt" = PurePath.parse "/var/tmp" // "a.txt".
Proof.
  split.
  - destruct (@compute_destination_under_root Scenario.machine
                (mkWorld Scenario.single_disk []) (mkWorld Scenario.single_disk [])
                (Scenario.src_root // "a.txt") Scenario.dest_root
                (PurePath.parse "dest/By Date/2025/06/Others/a.txt")
                Scenario.photo_rules ltac:(by vm_compute))
      as (folder & Hfolder & Hunder & _).
    vm_compute in Hfolder. injection Hfolder as <-.
    apply Hunder; [apply (plain_parts_parse "src/a.txt")|reflexivity|reflexivity|constructor].
  - destruct (@compute_destination_under_root Scenario.machine
                (mkWorld Scenario.single_disk []) (mkWorld Scenario.single_disk [])
                (Scenario.src_root // "a.txt") Scenario.dest_root
                (PurePath.parse "/var/tmp/a.txt")
                Cases.absolute_rules ltac:(by vm_compute))
      as (folder & Hfolder & _ & Habs).
    vm_compute in Hfolder. injection Hfolder as <-.
    apply Habs. reflexivity.
Defined.

Lemma date_parts_zero_padded_witness :
  ∃ y m d,
    String.length y = 4%nat ∧ String.length m = 2%nat ∧ String.length d = 2%nat
    ∧ read_decimal y = Some 2025%nat
    ∧ read_decimal m = Some 6%nat
    ∧ read_decimal d = Some 1%nat
    ∧ date_parts (H := Scenario.machine) Scenario.photo_rules 0
      = Ok (if String.eqb (group (by_date Scenario.photo_rules)) "year" then [y]
            else if String.eqb (group (by_date Scenario.photo_rules)) "day" then [y; m; d]
            else [y; m]).
Proof.
  apply (@date_parts_zero_padded Scenario.machine Scenario.photo_rules 0
           (mkDate 2025 6 1) eq_refl);
    vm_compute; lia.
Defined.

(** ** The command line *)

Section CommandLine.
Context `{Platform} `{ConfigParser}.

Lemma kd_load path : keeps_disk (load path).
Proof.
  unfold load. destruct path as [p|]; [|apply kd_ret].
  apply kd_bind; [apply kd_read_file|]. intros text.
  destruct (json_config text); [apply kd_ret|].
  destruct (yaml_config text) as [e|[cfg|]]; [apply kd_raise|apply kd_ret..].
Qed.

(** A dry run from the command line ([plan], or [organize --dry-run])
    leaves the disk as it is, whatever the configuration file holds and
    whether or not it can be read; the manifest named by [--manifest] is not
    written either. *)
Theorem main_dry_run_keeps_disk (tree : dtree) (args : Cli.Namespace) (w : world) :
  Cli.cmd args ≠ "undo" →
  Cli.dry_run args = Some true →
  disk (Cli.main tree args w).2 = disk w.
Proof.
  intros Hcmd Hdry. revert w. change (keeps_disk (Cli.main tree args)).
  unfold Cli.main. rewrite Hdry. cbn [default negb].
  destruct (bool_decide _).
  - apply kd_bind; [apply kd_load|]. intros rules.
    apply kd_bind; [apply kd_log_fn|]. intros _.
    apply kd_bind; [apply kd_log_fn|]. intros _.
    apply kd_bind; [apply kd_organize|]. intros _. apply kd_ret.
  - destruct (String.eqb_spec (Cli.cmd args) "undo"); [done|apply kd_ret].
Qed.

End CommandLine.

(** [plan -s src -d dest -c rules.json] on a disk that has the
    configuration file: the run goes through the walk and plans the move of
    [src/a.txt] to the folder the configuration names for its extension. *)
Lemma main_dry_run_keeps_disk_witness :
  (Cli.main (H := Scenario.machine) (H0 := Cases.parser) Scenario.single_tree
     (Cli.mkNamespace "plan" Scenario.src_root Scenario.dest_root
        (Some (PurePath.parse "rules.json")) "move"
        (PurePath.parse ".undo_manifest.json") false (Some true))
     (mkWorld Cases.configured_disk [])).1 = Ok Cli.Returned
  ∧ List.last
      (out (Cli.main (H := Scenario.machine) (H0 := Cases.parser) Scenario.single_tree
              (Cli.mkNamespace "plan" Scenario.src_root Scenario.dest_root
                 (Some (PurePath.parse "rules.json")) "move"
                 (PurePath.parse ".undo_manifest.json") false (Some true))
              (mkWorld Cases.configured_disk [])).2) ""
    = "🧭  PLAN-MOVE: src/a.txt -> dest/Text/a.txt"
  ∧ disk (Cli.main (H := Scenario.machine) (H0 := Cases.parser) Scenario.single_tree
            (Cli.mkNamespace "plan" Scenario.src_root Scenario.dest_root
               (Some (PurePath.parse "rules.json")) "move"
               (PurePath.parse ".undo_manifest.json") false (Some true))
            (mkWorld Cases.configured_disk [])).2
    = Cases.configured_disk.
Proof.
  split; [by vm_compute|]. split; [by vm_compute|].
  apply (@main_dry_run_keeps_disk Scenario.machine Cases.parser Scenario.single_tree
           (Cli.mkNamespace "plan" Scenario.src_root Scenario.dest_root
              (Some (PurePath.parse "rules.json")) "move"
              (PurePath.parse ".undo_manifest.json") false (Some true))
           (mkWorld Cases.configured_disk [])); [discriminate|reflexivity].
Defined.

